(** * youtube-analytics-cli: a shallow embedding of the classification,
      normalisation, persistence and caption-batch code, with the
      properties of its specification, and of the code around it.

    Source files embedded here:
    - [youtube_client.py]     ([YouTubeClient._detect_youtube_short],
                               [_parse_duration], [_get_best_thumbnail],
                               [get_video_stats], [get_channel_videos],
                               [get_video_analytics],
                               [get_channel_video_stats], [get_channel_stats])
    - [caption_downloader.py] ([CaptionDownloader])
    - [show_mapper.py]        ([ShowMapper._extract_show_episode],
                               [get_videos_to_update],
                               [update_video_show_episode], [process_videos])
    - [data_storage.py]       ([DataStorage.save_video_stats_db],
                               [save_channel_stats_db],
                               [get_channel_stats_history])
    - [cli.py]                ([video_stats] and [channel_stats] with the
                               SQLite output, [_format_duration])

    Python text is modelled as a sequence of 8-bit characters
    ([list ascii], with [string] at the interfaces); the character
    classes of [str.strip], [str.isdigit] and [str.lower] are the ASCII
    ones.  A loop of the source that has no bound of its own takes a
    number of steps it may use, and is shown to need no more than its
    arguments allow; the time of a write is read from a clock given to
    the function. *)

From Stdlib Require Import ZArith String Ascii List Lia Bool.
From stdpp Require Import base list strings gmap.

Open Scope string_scope.
Open Scope list_scope.
Open Scope Z_scope.

(* ================================================================== *)
(** * Python primitives used by the embedded code                      *)
(* ================================================================== *)

Module Py.

(** A Python [str] seen as its sequence of characters. *)
Definition str : Type := list ascii.

Definition of_string (s : string) : str := list_ascii_of_string s.
Definition to_string (l : str) : string := string_of_list_ascii l.

Definition ascii_eqb (a b : ascii) : bool := Ascii.eqb a b.
Arguments ascii_eqb : simpl never.

Definition ascii_in (c : ascii) (cs : str) : bool := existsb (ascii_eqb c) cs.

(** [str.isspace] on one ASCII character: TAB, LF, VT, FF, CR, the four
    separators FS GS RS US, and the blank. *)
Definition is_space (c : ascii) : bool :=
  let n := nat_of_ascii c in
  ((9 <=? n) && (n <=? 13) || (28 <=? n) && (n <=? 32))%nat.

(** [str.isdigit] on one ASCII character. *)
Definition is_digit (c : ascii) : bool :=
  let n := nat_of_ascii c in ((48 <=? n) && (n <=? 57))%nat.

(** [str.lower] on one ASCII character. *)
Definition lower_ascii (c : ascii) : ascii :=
  let n := nat_of_ascii c in
  if ((65 <=? n) && (n <=? 90))%nat then ascii_of_nat (n + 32) else c.

Definition lower (s : str) : str := map lower_ascii s.

Fixpoint drop_while (p : ascii -> bool) (s : str) : str :=
  match s with
  | [] => []
  | c :: rest => if p c then drop_while p rest else s
  end.

(** [s.lstrip(chars)], [s.rstrip(chars)] and [s.strip(chars)], with the
    stripped class given as a predicate. *)
Definition lstrip_with (p : ascii -> bool) (s : str) : str := drop_while p s.
Definition rstrip_with (p : ascii -> bool) (s : str) : str :=
  rev (drop_while p (rev s)).
Definition strip_with (p : ascii -> bool) (s : str) : str :=
  rstrip_with p (lstrip_with p s).

(** [s.strip()] *)
Definition strip (s : str) : str := strip_with is_space s.

(** [s.startswith(p)] *)
Fixpoint startswith (p s : str) : bool :=
  match p, s with
  | [], _ => true
  | _ :: _, [] => false
  | a :: p', b :: s' => ascii_eqb a b && startswith p' s'
  end.

(** [p in s] for two strings. *)
Fixpoint contains (p s : str) : bool :=
  startswith p s ||
  match s with
  | [] => false
  | _ :: s' => contains p s'
  end.

(** [s.isdigit()]: at least one character and all of them digits. *)
Definition isdigit (s : str) : bool :=
  match s with
  | [] => false
  | _ => forallb is_digit s
  end.

(** [s.split(sep)] for a one-character separator: always at least one
    piece. *)
Fixpoint split_on (sep : ascii) (s : str) : list str :=
  match s with
  | [] => [[]]
  | c :: rest =>
      if ascii_eqb c sep then [] :: split_on sep rest
      else match split_on sep rest with
           | [] => [[c]]
           | l :: ls => (c :: l) :: ls
           end
  end.

(** [sep.join(pieces)] for a one-character separator. *)
Fixpoint join_with (sep : ascii) (pieces : list str) : str :=
  match pieces with
  | [] => []
  | [l] => l
  | l :: ls => l ++ sep :: join_with sep ls
  end.

Definition newline : ascii := ascii_of_nat 10.

(** Exceptions the embedded code raises or meets, with the part of the
    class hierarchy its [except] clauses depend on
    ([PermissionError] is an [OSError]; all are [Exception]s). *)
Inductive exn : Type :=
| PermissionError
| OSError
| ValueError
| IndexError
| TypeError
| AttributeError
| ReError          (* re.error: the pattern does not compile *)
| Exception_.      (* a plain [Exception(...)] *)

Inductive result (A : Type) : Type :=
| Ok (a : A)
| Raise (e : exn).
Arguments Ok {A} a.
Arguments Raise {A} e.

Definition rbind {A B} (r : result A) (k : A -> result B) : result B :=
  match r with
  | Ok a => k a
  | Raise e => Raise e
  end.

(** The truth value of a value that is a string or [None]. *)
Definition truthy (o : option string) : bool :=
  match o with
  | Some s => negb (bool_decide (s = ""))
  | None => false
  end.

(** The decimal value of a digit string, most significant first. *)
Definition digit_val (c : ascii) : Z := Z.of_nat (nat_of_ascii c) - 48.

Fixpoint digits_val (acc : Z) (s : str) : Z :=
  match s with
  | [] => acc
  | c :: rest => digits_val (10 * acc + digit_val c) rest
  end.

(** Digits with single underscores between them, as [int] accepts. *)
Fixpoint int_body (prev_digit : bool) (s : str) : option str :=
  match s with
  | [] => if prev_digit then Some [] else None
  | c :: rest =>
      if is_digit c then option_map (cons c) (int_body true rest)
      else if ascii_eqb c "_"%char then
             if prev_digit then int_body false rest else None
           else None
  end.

(** [int(s)] for a [str] argument, base 10: surrounding whitespace, an
    optional sign, digits.  [None] stands for [ValueError]. *)
Definition int_of_str (s : str) : option Z :=
  match strip s with
  | [] => None
  | c :: rest =>
      if ascii_eqb c "-"%char then
        option_map (fun ds => - digits_val 0 ds) (int_body false rest)
      else if ascii_eqb c "+"%char then
        option_map (digits_val 0) (int_body false rest)
      else option_map (digits_val 0) (int_body false (c :: rest))
  end.

(** ** Facts about the primitives *)

Lemma ascii_eqb_eq (a b : ascii) : ascii_eqb a b = true <-> a = b.
Proof. apply Ascii.eqb_eq. Qed.

Lemma ascii_eqb_neq (a b : ascii) : ascii_eqb a b = false <-> a <> b.
Proof. apply Ascii.eqb_neq. Qed.

Lemma ascii_eqb_sym (a b : ascii) : ascii_eqb a b = ascii_eqb b a.
Proof. apply Ascii.eqb_sym. Qed.

Lemma of_to_string (l : str) : of_string (to_string l) = l.
Proof. apply list_ascii_of_string_of_list_ascii. Qed.

Lemma to_of_string (s : string) : to_string (of_string s) = s.
Proof. apply string_of_list_ascii_of_string. Qed.

(** ** [strip] *)

Lemma drop_while_suffix p s : exists a, s = a ++ drop_while p s.
Proof.
  induction s as [|c s IH]; simpl.
  - exists []; reflexivity.
  - destruct (p c).
    + destruct IH as [a Ha]. exists (c :: a). simpl. congruence.
    + exists []; reflexivity.
Qed.

Definition head_ok (p : ascii -> bool) (s : str) : Prop :=
  match s with
  | [] => True
  | c :: _ => p c = false
  end.

Lemma drop_while_head p s : head_ok p (drop_while p s).
Proof.
  induction s as [|c s IH]; simpl; [exact I|].
  destruct (p c) eqn:E; [exact IH | exact E].
Qed.

Lemma drop_while_fixed p s : head_ok p s -> drop_while p s = s.
Proof. destruct s as [|c s]; simpl; [reflexivity|]. now intros ->. Qed.

Lemma rstrip_with_prefix p s : exists b, s = rstrip_with p s ++ b.
Proof.
  unfold rstrip_with.
  destruct (drop_while_suffix p (rev s)) as [a Ha].
  exists (rev a). rewrite <- rev_app_distr, <- Ha. now rewrite rev_involutive.
Qed.

Lemma strip_with_infix p s : exists a b, s = a ++ strip_with p s ++ b.
Proof.
  unfold strip_with, lstrip_with.
  destruct (drop_while_suffix p s) as [a Ha].
  destruct (rstrip_with_prefix p (drop_while p s)) as [b Hb].
  exists a, b. now rewrite <- Hb.
Qed.

Lemma head_ok_prefix p (u b : str) : head_ok p (u ++ b) -> u <> [] -> head_ok p u.
Proof. destruct u; simpl; [congruence | auto]. Qed.

Lemma strip_with_idem p s : strip_with p (strip_with p s) = strip_with p s.
Proof.
  unfold strip_with, lstrip_with.
  set (t := drop_while p s).
  assert (Hl : drop_while p (rstrip_with p t) = rstrip_with p t).
  { apply drop_while_fixed.
    destruct (rstrip_with_prefix p t) as [b Hb].
    destruct (rstrip_with p t) as [|c u] eqn:E; [exact I|].
    pose proof (drop_while_head p s) as Hh. fold t in Hh.
    rewrite Hb in Hh. exact Hh. }
  rewrite Hl. unfold rstrip_with. rewrite rev_involutive.
  f_equal. apply drop_while_fixed, drop_while_head.
Qed.

Lemma strip_idem s : strip (strip s) = strip s.
Proof. apply strip_with_idem. Qed.

Lemma strip_infix s : exists a b, s = a ++ strip s ++ b.
Proof. apply strip_with_infix. Qed.

(** ** [startswith] and [contains] *)

Lemma startswith_spec p s : startswith p s = true <-> exists r, s = p ++ r.
Proof.
  revert s. induction p as [|a p IH]; intros s; simpl.
  - split; [intros _; now exists s | reflexivity].
  - destruct s as [|b s].
    + split; [discriminate | intros [r Hr]; discriminate].
    + rewrite andb_true_iff, ascii_eqb_eq, IH. split.
      * intros [-> [r ->]]. now exists r.
      * intros [r Hr]. injection Hr as -> ->. split; [reflexivity | now exists r].
Qed.

Lemma contains_spec p s : contains p s = true <-> exists a b, s = a ++ p ++ b.
Proof.
  induction s as [|c s IH].
  - simpl. rewrite orb_false_r, startswith_spec. split.
    + intros [r Hr]. now exists [], r.
    + intros [a [b H]]. 
      destruct a; simpl in H; [now exists b|discriminate].
  - simpl. rewrite orb_true_iff, startswith_spec, IH. split.
    + intros [[r Hr] | [a [b H]]].
      * now exists [], r.
      * exists (c :: a), b. simpl. congruence.
    + intros [a [b H]]. destruct a as [|x a]; simpl in H.
      * left. now exists b.
      * right. injection H as -> H. now exists a, b.
Qed.

Lemma contains_infix p t a b : contains p t = true -> contains p (a ++ t ++ b) = true.
Proof.
  rewrite !contains_spec. intros [x [y ->]].
  exists (a ++ x), (y ++ b). now rewrite <- !app_assoc.
Qed.

Lemma contains_strip p s : contains p (strip s) = true -> contains p s = true.
Proof.
  intros H. destruct (strip_infix s) as [a [b Hs]].
  rewrite Hs. now apply contains_infix.
Qed.

(** ** [split] and [join] *)

Lemma split_on_nonempty sep s : split_on sep s <> [].
Proof.
  induction s as [|c s IH]; simpl; [discriminate|].
  destruct (ascii_eqb c sep); [discriminate|].
  destruct (split_on sep s); [contradiction | discriminate].
Qed.

Lemma split_on_no_sep sep s : Forall (fun l => sep ∉ l) (split_on sep s).
Proof.
  induction s as [|c s IH]; simpl.
  - constructor; [apply not_elem_of_nil | constructor].
  - destruct (ascii_eqb c sep) eqn:E.
    + constructor; [apply not_elem_of_nil | exact IH].
    + destruct (split_on sep s) as [|l ls] eqn:Es; [now apply split_on_nonempty in Es|].
      inversion IH; subst. constructor; [|assumption].
      apply not_elem_of_cons. split; [|assumption].
      apply ascii_eqb_neq in E. congruence.
Qed.

Lemma split_on_whole sep l : sep ∉ l -> split_on sep l = [l].
Proof.
  induction l as [|c l IH]; [reflexivity|].
  intros H. apply not_elem_of_cons in H as [Hc Hl]. simpl.
  destruct (ascii_eqb c sep) eqn:E; [apply ascii_eqb_eq in E; congruence|].
  now rewrite (IH Hl).
Qed.

Lemma split_on_app_sep sep l r :
  sep ∉ l -> split_on sep (l ++ sep :: r) = l :: split_on sep r.
Proof.
  induction l as [|c l IH]; intros H.
  - simpl. replace (ascii_eqb sep sep) with true; [reflexivity|].
    symmetry. now apply ascii_eqb_eq.
  - apply not_elem_of_cons in H as [Hc Hl]. simpl.
    destruct (ascii_eqb c sep) eqn:E; [apply ascii_eqb_eq in E; congruence|].
    now rewrite (IH Hl).
Qed.

Lemma split_join sep (ls : list str) :
  ls <> [] -> Forall (fun l => sep ∉ l) ls ->
  split_on sep (join_with sep ls) = ls.
Proof.
  induction ls as [|l ls IH]; [congruence|].
  intros _ H. inversion H as [|? ? Hl Hls]; subst.
  destruct ls as [|l2 ls].
  - simpl. now apply split_on_whole.
  - change (join_with sep (l :: l2 :: ls)) with (l ++ sep :: join_with sep (l2 :: ls)).
    rewrite (split_on_app_sep _ _ _ Hl). f_equal. apply IH; [discriminate | assumption].
Qed.

End Py.

(* ================================================================== *)
(** * ShortClassifier: [YouTubeClient._detect_youtube_short]            *)
(* ================================================================== *)

Module Short.
Import Py.

(** The parts of the API's [snippet] and [recordingDetails] objects the
    function reads; a field the response lacks is [None]. *)
Record Snippet : Type := {
  description : option string;
  title : option string;
  tags : option (list string)
}.

Record RecordingDetails : Type := {
  recordingDate : option string
}.

Inductive indicator : Type :=
| mobile_recorded
| shorts_hashtag
| shorts_title
| shorts_tags.

Definition get_str (o : option string) : str :=
  match o with
  | Some s => of_string s
  | None => []
  end.

Definition shorts_keywords : list str :=
  map of_string ["#shorts"; "#short"; "#youtubeshorts"; "#ytshorts"].

(** The list [additional_indicators] built by the four checks, in the
    order the source appends to it. *)
Definition additional_indicators
    (snippet : Snippet) (recording_details : option RecordingDetails)
  : list indicator :=
  let i1 :=
    match recording_details with
    | Some rd =>
        match recordingDate rd with
        | Some d => if decide (d = "") then [] else [mobile_recorded]
        | None => []
        end
    | None => []
    end in
  let description := lower (get_str (description snippet)) in
  let has_shorts_hashtag :=
    existsb (fun keyword => contains keyword description) shorts_keywords in
  let i2 := if has_shorts_hashtag then [shorts_hashtag] else [] in
  let title := lower (get_str (title snippet)) in
  let i3 :=
    if contains (of_string "#shorts") title || contains (of_string "#short") title
    then [shorts_title] else [] in
  let i4 :=
    match tags snippet with
    | Some tgs =>
        let shorts_tgs :=
          List.filter (fun tag => contains (of_string "short") (lower (of_string tag))) tgs in
        match shorts_tgs with
        | [] => []
        | _ => [shorts_tags]
        end
    | None => []
    end in
  i1 ++ i2 ++ i3 ++ i4.

(** The decision at the end of the function, on the duration and the
    number of indicators. *)
Definition decide_short (duration_seconds : Z) (confidence_score : nat) : bool :=
  let is_duration_short := (duration_seconds <=? 60) && (0 <? duration_seconds) in
  if is_duration_short && (0 <? confidence_score)%nat then is_duration_short
  else if is_duration_short then is_duration_short
  else if (2 <=? confidence_score)%nat then duration_seconds <=? 65
  else is_duration_short.

(** The parameters [content_details] and [status] of the source are
    never read and are left out. *)
Definition _detect_youtube_short
    (duration_seconds : Z) (snippet : Snippet)
    (recording_details : option RecordingDetails) : bool :=
  decide_short duration_seconds
    (length (additional_indicators snippet recording_details)).

(** The classification as the specification words it. *)
Definition spec_short (d : Z) (signals : nat) : bool :=
  ((0 <? d) && (d <=? 60)) || ((60 <? d) && (d <=? 65) && (2 <=? signals)%nat).

(** ** The decision against the specification's wording *)

Lemma decide_short_char (d : Z) (n : nat) :
  decide_short d n = spec_short d n || ((d <=? 0) && (2 <=? n)%nat).
Proof.
  unfold decide_short, spec_short.
  destruct (Z.leb_spec d 60), (Z.ltb_spec 0 d), (Z.ltb_spec 60 d),
    (Z.leb_spec d 65), (Z.leb_spec d 0), (Nat.ltb_spec 0 n),
    (Nat.leb_spec 2 n); simpl; try reflexivity; lia.
Qed.

Lemma decide_short_positive (d : Z) (n : nat) :
  0 < d -> decide_short d n = spec_short d n.
Proof.
  intros Hd. rewrite decide_short_char.
  destruct (Z.leb_spec d 0); [lia | now rewrite orb_false_r].
Qed.

Lemma decide_short_few_signals (d : Z) (n : nat) :
  (n < 2)%nat -> decide_short d n = spec_short d n.
Proof.
  intros Hn. rewrite decide_short_char.
  destruct (Nat.leb_spec 2 n); [lia | now rewrite andb_false_r, orb_false_r].
Qed.

(** The boundary table of the specification. *)
Example boundary_60_0 : decide_short 60 0 = true.
Proof. reflexivity. Qed.
Example boundary_61_0 : decide_short 61 0 = false.
Proof. reflexivity. Qed.
Example boundary_61_2 : decide_short 61 2 = true.
Proof. reflexivity. Qed.
Example boundary_66_2 : decide_short 66 2 = false.
Proof. reflexivity. Qed.

(** A video whose duration parses to 0 seconds and that carries the
    shorts hashtag in its description and its title. *)
Definition zero_duration_snippet : Snippet :=
  {| description := Some "New clip #shorts";
     title := Some "Clip #Shorts";
     tags := None |}.

(** C4: at duration 0 with two indicators (hashtag in the description and
    in the title) the function answers short, although 0 is outside
    (0, 60] and outside (60, 65]: the override branch tests only
    [duration_seconds <= 65]. *)
Theorem detect_short_zero_duration_override :
  additional_indicators zero_duration_snippet None = [shorts_hashtag; shorts_title]
  /\ _detect_youtube_short 0 zero_duration_snippet None = true
  /\ spec_short 0 2 = false.
Proof. repeat split; vm_compute; reflexivity. Qed.

End Short.

(* ================================================================== *)
(** * CaptionNormalizer: [CaptionDownloader.extract_text_from_vtt]      *)
(* ================================================================== *)

Module Vtt.
Import Py.

(** [re.sub(r'<[^>]+>', '', line)]: scanning from the left, a ["<"]
    followed by at least one character other than [">"] and then a
    [">"] is deleted up to and including that first [">"].
    [close_tag s] is the text after the first [">"] of [s] with its own
    tags removed, or [None] when [s] has no [">"]. *)
Fixpoint remove_tags (s : str) : str :=
  match s with
  | [] => []
  | c :: rest =>
      if ascii_eqb c "<"%char then
        match rest with
        | [] => [c]
        | d :: _ =>
            if ascii_eqb d ">"%char then c :: remove_tags rest
            else match close_tag rest with
                 | Some after => after
                 | None => c :: remove_tags rest
                 end
        end
      else c :: remove_tags rest
  end
with close_tag (s : str) : option str :=
  match s with
  | [] => None
  | c :: rest =>
      if ascii_eqb c ">"%char then Some (remove_tags rest) else close_tag rest
  end.

(** The test of the first [continue]: empty line, header, cue timing,
    cue identifier, note. *)
Definition is_skipped (line : str) : bool :=
  match line with [] => true | _ => false end
  || startswith (of_string "WEBVTT") line
  || contains (of_string "-->") line
  || isdigit line
  || startswith (of_string "NOTE") line.

(** The two variables the loop updates. *)
Record loop_state : Type := {
  text_lines : list str;
  previous_line : option str
}.

Definition loop_init : loop_state :=
  {| text_lines := []; previous_line := None |}.

(** One iteration of [for line in lines]; every [continue] leaves the
    state as it is. *)
Definition loop_body (st : loop_state) (line : str) : loop_state :=
  let line := strip line in
  if is_skipped line then st
  else if contains (of_string "<00:") line then st
  else
    let line := strip (remove_tags line) in
    match line with
    | [] => st
    | _ =>
        if decide (Some line = previous_line st) then st
        else {| text_lines := text_lines st ++ [line];
                previous_line := Some line |}
    end.

(** The list [text_lines] when the loop ends. *)
Definition extract_lines (vtt_content : str) : list str :=
  text_lines (fold_left loop_body (split_on newline vtt_content) loop_init).

Definition extract_text (vtt_content : str) : str :=
  join_with newline (extract_lines vtt_content).

Definition extract_text_from_vtt (vtt_content : string) : string :=
  to_string (extract_text (of_string vtt_content)).

(** ** The transform in the specification's words *)

(** Steps 1 to 4 on one line: the retained text, or [None] when the line
    is discarded. *)
Definition clean_line (line : str) : option str :=
  let line := strip line in
  if is_skipped line || contains (of_string "<00:") line then None
  else match strip (remove_tags line) with
       | [] => None
       | l => Some l
       end.

(** The lines that pass steps 1 to 4, in input order. *)
Definition retained_lines (vtt_content : str) : list str :=
  omap clean_line (split_on newline vtt_content).

(** Step 5: a line is dropped exactly when it equals the line
    immediately before it. *)
Fixpoint collapse_adjacent (before : option str) (ls : list str) : list str :=
  match ls with
  | [] => []
  | l :: rest =>
      if decide (Some l = before) then collapse_adjacent (Some l) rest
      else l :: collapse_adjacent (Some l) rest
  end.

(** ** Tag removal *)


Definition has_gt (s : str) : bool := existsb (fun c => ascii_eqb c ">"%char) s.

Fixpoint tag_free (s : str) : bool :=
  match s with
  | [] => true
  | c :: rest =>
      (negb (ascii_eqb c "<"%char)
       || match rest with
          | [] => true
          | d :: _ => ascii_eqb d ">"%char || negb (has_gt rest)
          end)
      && tag_free rest
  end.

Lemma close_tag_none s : close_tag s = None <-> has_gt s = false.
Proof.
  induction s as [|c s IH]; simpl; [tauto|].
  destruct (ascii_eqb c ">"); simpl; [split; discriminate | exact IH].
Qed.

Lemma remove_tags_no_gt s : has_gt s = false -> remove_tags s = s.
Proof.
  induction s as [|c s IH]; [reflexivity|].
  intros H. simpl in H. apply orb_false_iff in H as [Hc Hs].
  specialize (IH Hs). simpl. rewrite IH.
  destruct (ascii_eqb c "<"); [|reflexivity].
  destruct s as [|d s']; [reflexivity|].
  destruct (ascii_eqb d ">") eqn:Ed; [reflexivity|].
  apply close_tag_none in Hs. now rewrite Hs.
Qed.


Lemma has_gt_sublist (s t : str) : sublist s t -> has_gt t = false -> has_gt s = false.
Proof.
  unfold has_gt. intros Hsub Ht.
  apply not_true_iff_false. intros Hs. apply existsb_exists in Hs as [x [Hin Hx]].
  apply not_true_iff_false in Ht. apply Ht. apply existsb_exists. exists x. split; [|exact Hx].
  apply list_elem_of_In. apply list_elem_of_In in Hin.
  eapply elem_of_sublist; eauto.
Qed.

Lemma remove_tags_sublist s :
  sublist (remove_tags s) s /\ (forall r, close_tag s = Some r -> sublist r s).
Proof.
  induction s as [|c s [IH1 IH2]]; simpl.
  - split; [constructor | discriminate].
  - split.
    + destruct (ascii_eqb c "<").
      * destruct s as [|d s']; [reflexivity|].
        destruct (ascii_eqb d ">"); [now apply sublist_skip|].
        destruct (close_tag (d :: s')) as [r|] eqn:E.
        -- apply sublist_cons. now apply IH2.
        -- now apply sublist_skip.
      * now apply sublist_skip.
    + intros r. destruct (ascii_eqb c ">").
      * intros [= <-]. now apply sublist_cons.
      * intros H. apply sublist_cons. now apply IH2.
Qed.

Lemma tag_free_cons c rest :
  tag_free (c :: rest) =
  (negb (ascii_eqb c "<"%char)
   || match rest with
      | [] => true
      | d :: _ => ascii_eqb d ">"%char || negb (has_gt rest)
      end) && tag_free rest.
Proof. reflexivity. Qed.

Lemma remove_tags_tag_free s :
  tag_free (remove_tags s) = true /\ (forall r, close_tag s = Some r -> tag_free r = true).
Proof.
  induction s as [|c s [IH1 IH2]].
  - split; [reflexivity | discriminate].
  - split.
    + simpl remove_tags. destruct (ascii_eqb c "<") eqn:Ec.
      * destruct s as [|d s']; [rewrite tag_free_cons; now rewrite orb_true_r|].
        destruct (ascii_eqb d ">") eqn:Ed.
        -- rewrite tag_free_cons, IH1, andb_true_r.
           simpl remove_tags. apply ascii_eqb_eq in Ed. subst d. simpl.
           apply orb_true_r.
        -- destruct (close_tag (d :: s')) as [r|] eqn:E; [now apply IH2|].
           apply close_tag_none in E.
           rewrite (remove_tags_no_gt _ E) in *.
           rewrite tag_free_cons, IH1, andb_true_r, E. simpl.
           now rewrite !orb_true_r.
      * rewrite tag_free_cons, Ec, IH1. reflexivity.
    + intros r. simpl. destruct (ascii_eqb c ">").
      * now intros [= <-].
      * apply IH2.
Qed.

Lemma tag_free_app_r (a t : str) : tag_free (a ++ t) = true -> tag_free t = true.
Proof.
  induction a as [|c a IH]; simpl; [auto|].
  intros H. apply andb_true_iff in H as [_ H]. auto.
Qed.

Lemma has_gt_app (a b : str) : has_gt (a ++ b) = has_gt a || has_gt b.
Proof. unfold has_gt. apply existsb_app. Qed.

Lemma tag_free_app_l (t b : str) : tag_free (t ++ b) = true -> tag_free t = true.
Proof.
  induction t as [|c t IH]; [reflexivity|].
  rewrite <- app_comm_cons, !tag_free_cons.
  intros H. apply andb_true_iff in H as [Hc H].
  rewrite (IH H), andb_true_r.
  destruct (ascii_eqb c "<"); [|reflexivity]. simpl negb in *. simpl orb in *.
  destruct t as [|d t']; [reflexivity|].
  rewrite <- app_comm_cons in Hc.
  apply orb_true_iff in Hc as [Hc|Hc]; [now rewrite Hc|].
  apply negb_true_iff in Hc.
  rewrite app_comm_cons, has_gt_app in Hc. apply orb_false_iff in Hc as [Hc _].
  rewrite Hc. apply orb_true_r.
Qed.

Lemma tag_free_strip s : tag_free s = true -> tag_free (strip s) = true.
Proof.
  intros H. destruct (strip_infix s) as [a [b Hs]]. rewrite Hs in H.
  apply tag_free_app_r in H. now apply tag_free_app_l in H.
Qed.

Definition ts_tag : str := of_string "<00:".

Lemma remove_tags_ts s :
  (contains ts_tag (remove_tags s) = true -> contains ts_tag s = true)
  /\ (forall r, close_tag s = Some r -> contains ts_tag r = true -> contains ts_tag s = true).
Proof.
  induction s as [|c s [IH1 IH2]].
  - split; [auto | discriminate].
  - assert (Hstep : contains ts_tag s = true -> contains ts_tag (c :: s) = true).
    { intros H. simpl. rewrite H. apply orb_true_r. }
    split.
    + simpl remove_tags. destruct (ascii_eqb c "<") eqn:Ec.
      * destruct s as [|d s']; [auto|].
        destruct (ascii_eqb d ">") eqn:Ed.
        -- apply ascii_eqb_eq in Ed. subst d. intros H. apply Hstep, IH1.
           simpl remove_tags in *. 
           change (contains ts_tag (c :: ">"%char :: remove_tags s') = true) in H.
           simpl in H. rewrite andb_false_r in H. exact H.
        -- destruct (close_tag (d :: s')) as [r|] eqn:E.
           ++ intros H. apply Hstep. exact (IH2 r eq_refl H).
           ++ apply close_tag_none in E. now rewrite (remove_tags_no_gt _ E).
      * intros H. apply Hstep, IH1.
        change (startswith ts_tag (c :: remove_tags s) || contains ts_tag (remove_tags s) = true) in H.
        apply orb_true_iff in H as [H|H]; [|exact H].
        simpl in H. apply andb_true_iff in H as [H _].
        rewrite ascii_eqb_sym in H. congruence.
    + intros r. simpl close_tag. destruct (ascii_eqb c ">").
      * intros [= <-] H. now apply Hstep, IH1.
      * intros H1 H2. apply Hstep. exact (IH2 r H1 H2).
Qed.

(** ** The loop against steps 1 to 5 *)

Lemma loop_body_clean st line :
  loop_body st line =
  match clean_line line with
  | None => st
  | Some l =>
      if decide (Some l = previous_line st) then st
      else {| text_lines := text_lines st ++ [l]; previous_line := Some l |}
  end.
Proof.
  unfold loop_body, clean_line.
  destruct (is_skipped (strip line)); [reflexivity|].
  destruct (contains (of_string "<00:") (strip line)); [reflexivity|].
  simpl. destruct (strip (remove_tags (strip line))); reflexivity.
Qed.

Lemma loop_fold (lines : list str) (st : loop_state) :
  text_lines (fold_left loop_body lines st) =
  text_lines st ++ collapse_adjacent (previous_line st) (omap clean_line lines).
Proof.
  revert st. induction lines as [|line lines IH]; intros st; simpl.
  - now rewrite app_nil_r.
  - rewrite IH, loop_body_clean.
    destruct (clean_line line) as [l|]; [|reflexivity].
    simpl. destruct (decide (Some l = previous_line st)) as [E|E].
    + now rewrite <- E.
    + simpl. now rewrite <- app_assoc.
Qed.

Lemma extract_lines_collapse (vtt_content : str) :
  extract_lines vtt_content = collapse_adjacent None (retained_lines vtt_content).
Proof. unfold extract_lines. now rewrite loop_fold. Qed.

Lemma collapse_adjacent_sublist before ls :
  sublist (collapse_adjacent before ls) ls.
Proof.
  revert before. induction ls as [|l ls IH]; intros before; simpl; [constructor|].
  destruct (decide (Some l = before)).
  - apply sublist_cons, IH.
  - apply sublist_skip, IH.
Qed.


(** ** What a retained line looks like *)

Lemma strip_nl_free (s : str) : newline ∉ s -> newline ∉ strip s.
Proof.
  intros H Hin. apply H. destruct (strip_infix s) as [a [b Hs]].
  rewrite Hs. apply elem_of_app. right. apply elem_of_app. now left.
Qed.

Lemma clean_line_props line l :
  clean_line line = Some l ->
  l <> [] /\ strip l = l /\ tag_free l = true /\ contains ts_tag l = false
  /\ (newline ∉ line -> newline ∉ l).
Proof.
  unfold clean_line. 
  destruct (is_skipped (strip line)) eqn:Es; [discriminate|].
  destruct (contains (of_string "<00:") (strip line)) eqn:Ec; [discriminate|].
  simpl. destruct (strip (remove_tags (strip line))) as [|c t] eqn:El; [discriminate|].
  intros [= <-]. rewrite <- El.
  split; [rewrite El; discriminate|].
  split; [apply strip_idem|].
  split; [apply tag_free_strip, (proj1 (remove_tags_tag_free _))|].
  split.
  - apply not_true_iff_false. intros H.
    apply contains_strip, (proj1 (remove_tags_ts _)) in H. unfold ts_tag in H. congruence.
  - intros Hnl. apply strip_nl_free. intros Hin. apply (strip_nl_free _ Hnl).
    eapply elem_of_sublist; [exact Hin | apply (proj1 (remove_tags_sublist _))].
Qed.


Lemma retained_lines_props vtt_content l :
  l ∈ retained_lines vtt_content ->
  l <> [] /\ strip l = l /\ tag_free l = true /\ contains ts_tag l = false
  /\ newline ∉ l.
Proof.
  unfold retained_lines. intros H. apply list_elem_of_omap in H as [line [Hin Hc]].
  destruct (clean_line_props _ _ Hc) as (H1 & H2 & H3 & H4 & H5).
  repeat split; try assumption. apply H5.
  pose proof (split_on_no_sep newline vtt_content) as Hf.
  rewrite Forall_forall in Hf. now apply Hf.
Qed.




(** ** When a second pass changes the text *)

Lemma clean_line_skipped l : strip l = l -> is_skipped l = true -> clean_line l = None.
Proof. intros Hs Hk. unfold clean_line. now rewrite Hs, Hk. Qed.

Lemma omap_length_le {A B} (f : A -> option B) (l : list A) :
  (length (omap f l) <= length l)%nat.
Proof.
  induction l as [|a l IH]; [reflexivity|]. cbn.
  destruct (f a); cbn; lia.
Qed.

Lemma omap_length_lt {A B} (f : A -> option B) (l : list A) :
  Exists (fun a => f a = None) l -> (length (omap f l) < length l)%nat.
Proof.
  induction 1 as [a l Ha | a l _ IH]; cbn.
  - rewrite Ha. pose proof (omap_length_le f l). lia.
  - destruct (f a); cbn; lia.
Qed.

Lemma join_with_nil sep (ls : list str) :
  Forall (fun l => l <> []) ls -> join_with sep ls = [] -> ls = [].
Proof.
  destruct ls as [|l ls]; [reflexivity|].
  intros H. inversion H as [|? ? Hl _]; subst.
  destruct ls; simpl; intros E.
  - congruence.
  - destruct l; [congruence | discriminate].
Qed.

Lemma extract_lines_shape (vtt_content : str) :
  Forall (fun l => l <> [] /\ (newline ∉ l) /\ strip l = l) (extract_lines vtt_content).
Proof.
  rewrite Forall_forall. intros l Hl.
  rewrite extract_lines_collapse in Hl.
  assert (Hr : l ∈ retained_lines vtt_content).
  { eapply elem_of_sublist; [exact Hl | apply collapse_adjacent_sublist]. }
  destruct (retained_lines_props _ _ Hr) as (H1 & H2 & _ & _ & H5). auto.
Qed.

(** The condition of the idempotence theorem is also necessary. *)
Lemma extract_text_changes (vtt_content : str) :
  Exists (fun l => is_skipped l = true) (extract_lines vtt_content) ->
  extract_text (extract_text vtt_content) <> extract_text vtt_content.
Proof.
  intros Hex Heq.
  pose proof (extract_lines_shape vtt_content) as Hshape.
  pose proof (extract_lines_shape (extract_text vtt_content)) as Hshape2.
  set (L := extract_lines vtt_content) in *.
  set (L2 := extract_lines (extract_text vtt_content)) in *.
  assert (HL : L <> []) by (intros E; rewrite E in Hex; inversion Hex).
  assert (Hsplit : split_on newline (join_with newline L) = L).
  { apply split_join; [exact HL|]. eapply Forall_impl; [exact Hshape|]. now intros l (_ & H & _). }
  assert (Hlen : (length L2 < length L)%nat).
  { subst L2. rewrite extract_lines_collapse. unfold retained_lines, extract_text.
    fold L. rewrite Hsplit.
    pose proof (sublist_length _ _ (collapse_adjacent_sublist None (omap clean_line L))).
    enough (length (omap clean_line L) < length L)%nat by lia.
    apply omap_length_lt.
    rewrite Exists_exists in *. destruct Hex as (l & Hin & Hk). exists l. split; [exact Hin|].
    rewrite Forall_forall in Hshape. destruct (Hshape l Hin) as (_ & _ & Hs).
    now apply clean_line_skipped. }
  unfold extract_text at 1 3 in Heq. fold L L2 in Heq.
  destruct (decide (L2 = [])) as [E|E].
  - rewrite E in Heq. simpl in Heq. symmetry in Heq.
    apply join_with_nil in Heq; [contradiction|].
    eapply Forall_impl; [exact Hshape|]. now intros l (H & _).
  - assert (Hsplit2 : split_on newline (join_with newline L2) = L2).
    { apply split_join; [exact E|]. eapply Forall_impl; [exact Hshape2|]. now intros l (_ & H & _). }
    rewrite Heq, Hsplit in Hsplit2. rewrite Hsplit2 in Hlen. lia.
Qed.

(** ** The properties of the normalizer *)

(** The text whose lines are [ls]. *)
Definition unlines (ls : list string) : string :=
  to_string (join_with newline (map of_string ls)).

(** C9: the loop keeps, of the lines retained by steps 1 to 4, exactly
    those that differ from the retained line immediately before them
    ([collapse_adjacent]); the output is a subsequence of the retained
    lines, so their order is kept and a later, non-adjacent repeat
    stays; the lines Hello, Hello, World, Hello give Hello, World,
    Hello. *)
Theorem extract_collapses_adjacent_duplicates_only :
  (forall vtt_content : str,
     extract_lines vtt_content
       = collapse_adjacent None (retained_lines vtt_content)
     /\ sublist (extract_lines vtt_content) (retained_lines vtt_content))
  /\ (forall (before : option str) (l : str) (rest : list str),
        collapse_adjacent before (l :: rest)
          = (if decide (Some l = before) then [] else [l])
            ++ collapse_adjacent (Some l) rest)
  /\ extract_lines (of_string (unlines ["Hello"; "Hello"; "World"; "Hello"]))
       = map of_string ["Hello"; "World"; "Hello"]
  /\ extract_text_from_vtt (unlines ["Hello"; "Hello"; "World"; "Hello"])
       = unlines ["Hello"; "World"; "Hello"].
Proof.
  split; [|split; [|split]].
  - intros vtt_content. split; [apply extract_lines_collapse|].
    rewrite extract_lines_collapse. apply collapse_adjacent_sublist.
  - intros before l rest. simpl. now destruct (decide (Some l = before)).
  - vm_compute. reflexivity.
  - vm_compute. reflexivity.
Qed.




(** The condition is the exact one: with an output line that the first
    test discards, the second pass gives a different text. *)
Lemma normalize_changes_discarded_output (x : string) :
  Exists (fun l => is_skipped l = true) (extract_lines (of_string x)) ->
  extract_text_from_vtt (extract_text_from_vtt x) <> extract_text_from_vtt x.
Proof.
  intros Hex Heq. apply (extract_text_changes _ Hex).
  unfold extract_text_from_vtt in Heq. rewrite of_to_string in Heq.
  apply (f_equal of_string) in Heq. now rewrite !of_to_string in Heq.
Qed.



End Vtt.

(* ================================================================== *)
(** * IngestionStore: [DataStorage.save_video_stats_db]                 *)
(* ================================================================== *)

Module Storage.

(** [CURRENT_TIMESTAMP], in seconds. *)
Definition timestamp : Type := Z.

(** The [video_stats] dictionary handed to the method.  A key the method
    reads with [video_stats[...]] is a plain field; a key it reads with
    [video_stats.get(...)] is optional. *)
Record VideoStats : Type := {
  vs_video_id : string;
  vs_channel_id : string;
  vs_title : string;
  vs_description : option string;
  vs_upload_time : string;
  vs_duration_seconds : Z;
  vs_watch_url : string;
  vs_view_count : Z;
  vs_like_count : Z;
  vs_dislike_count : option Z;
  vs_comment_count : Z;
  vs_visibility : option string;
  vs_is_short : option bool;
  vs_thumbnail_url : option string;
  vs_tags : option string;
  vs_subscriber_count : option Z
}.

(** A row of table [video_stats]; a nullable column the method may
    write [None] to is an [option]. *)
Record VideoStatsRow : Type := {
  id : Z;
  video_id : string;
  channel_id : string;
  title : string;
  description : string;
  upload_time : string;
  duration : Z;
  watch_url : string;
  view_count : Z;
  like_count : Z;
  dislike_count : Z;
  comment_count : Z;
  visibility : option string;
  is_short : bool;
  show : option string;
  episode_num : option Z;
  thumbnail_url : option string;
  exclude_from_stats : Z;
  tags : option string;
  subscriber_count : option Z;
  collected_at : timestamp;
  last_updated : timestamp
}.

(** A row of table [traffic_sources]. *)
Record TrafficSourceRow : Type := {
  ts_id : Z;
  ts_video_id : string;
  traffic_source : string;
  views : Z;
  ts_collected_at : timestamp
}.

(** The two tables with their AUTOINCREMENT counters. *)
Record Db : Type := {
  video_stats : list VideoStatsRow;
  video_stats_seq : Z;
  traffic_sources : list TrafficSourceRow;
  traffic_sources_seq : Z
}.

Definition empty_db : Db :=
  {| video_stats := []; video_stats_seq := 0;
     traffic_sources := []; traffic_sources_seq := 0 |}.

(** [SELECT id FROM video_stats WHERE video_id = ?] then [fetchone()]. *)
Definition select_id (vid : string) (rows : list VideoStatsRow) : option Z :=
  match List.filter (fun r => bool_decide (video_id r = vid)) rows with
  | [] => None
  | r :: _ => Some (id r)
  end.

(** The [SET] list of the [UPDATE] statement applied to one row. *)
Definition update_row (now : timestamp) (vs : VideoStats) (r : VideoStatsRow)
  : VideoStatsRow :=
  {| id := id r;
     video_id := video_id r;
     channel_id := vs_channel_id vs;
     title := vs_title vs;
     description := default "" (vs_description vs);
     upload_time := vs_upload_time vs;
     duration := vs_duration_seconds vs;
     watch_url := vs_watch_url vs;
     view_count := vs_view_count vs;
     like_count := vs_like_count vs;
     dislike_count := default 0 (vs_dislike_count vs);
     comment_count := vs_comment_count vs;
     visibility := vs_visibility vs;
     is_short := default false (vs_is_short vs);
     show := show r;
     episode_num := episode_num r;
     thumbnail_url := vs_thumbnail_url vs;
     exclude_from_stats := exclude_from_stats r;
     tags := vs_tags vs;
     subscriber_count := vs_subscriber_count vs;
     collected_at := collected_at r;
     last_updated := now |}.

(** The row the [INSERT] statement creates: the columns it does not
    name take their declared defaults. *)
Definition insert_row (now : timestamp) (new_id : Z) (vs : VideoStats)
  : VideoStatsRow :=
  {| id := new_id;
     video_id := vs_video_id vs;
     channel_id := vs_channel_id vs;
     title := vs_title vs;
     description := default "" (vs_description vs);
     upload_time := vs_upload_time vs;
     duration := vs_duration_seconds vs;
     watch_url := vs_watch_url vs;
     view_count := vs_view_count vs;
     like_count := vs_like_count vs;
     dislike_count := default 0 (vs_dislike_count vs);
     comment_count := vs_comment_count vs;
     visibility := vs_visibility vs;
     is_short := default false (vs_is_short vs);
     show := None;
     episode_num := None;
     thumbnail_url := vs_thumbnail_url vs;
     exclude_from_stats := 0;
     tags := vs_tags vs;
     subscriber_count := vs_subscriber_count vs;
     collected_at := now;
     last_updated := now |}.

(** [UPDATE video_stats SET ... WHERE video_id = ?] *)
Definition update_video (now : timestamp) (vs : VideoStats)
    (rows : list VideoStatsRow) : list VideoStatsRow :=
  map (fun r => if bool_decide (video_id r = vs_video_id vs)
                then update_row now vs r else r) rows.

(** [DELETE FROM traffic_sources WHERE video_id = ?] *)
Definition delete_traffic (vid : string) (rows : list TrafficSourceRow)
  : list TrafficSourceRow :=
  List.filter (fun r => negb (bool_decide (ts_video_id r = vid))) rows.

(** The [for source, views in traffic_sources.items()] loop of INSERTs,
    threading the table and its counter. *)
Fixpoint insert_traffic (now : timestamp) (vid : string)
    (items : list (string * Z)) (rows : list TrafficSourceRow) (seq : Z)
  : list TrafficSourceRow * Z :=
  match items with
  | [] => (rows, seq)
  | (source, vws) :: rest =>
      insert_traffic now vid rest
        (rows ++ [{| ts_id := seq + 1; ts_video_id := vid;
                     traffic_source := source; views := vws;
                     ts_collected_at := now |}])
        (seq + 1)
  end.

(** The first half of the method: [SELECT], then [UPDATE] or [INSERT].
    The result is table [video_stats] and its counter. *)
Definition upsert_video (now : timestamp) (vs : VideoStats) (db : Db)
  : list VideoStatsRow * Z :=
  let existing := select_id (vs_video_id vs) (video_stats db) in
  match existing with
  | Some _ => (update_video now vs (video_stats db), video_stats_seq db)
  | None =>
      (video_stats db ++ [insert_row now (video_stats_seq db + 1) vs],
       video_stats_seq db + 1)
  end.

(** The second half, under [if traffic_sources:]: [None] and the empty
    dictionary are both false there.  The dictionary is given by its
    items in iteration order. *)
Definition replace_traffic_sources (now : timestamp) (vid : string)
    (traffic : option (list (string * Z))) (db : Db)
  : list TrafficSourceRow * Z :=
  match traffic with
  | None | Some [] => (traffic_sources db, traffic_sources_seq db)
  | Some items =>
      insert_traffic now vid items
        (delete_traffic vid (traffic_sources db)) (traffic_sources_seq db)
  end.

(** [save_video_stats_db(video_stats, traffic_sources)] at clock reading
    [now]; [None] is the default value of [traffic_sources]. *)
Definition save_video_stats_db (now : timestamp) (vs : VideoStats)
    (traffic : option (list (string * Z))) (db : Db) : Db :=
  let v := upsert_video now vs db in
  let t := replace_traffic_sources now (vs_video_id vs) traffic db in
  {| video_stats := fst v; video_stats_seq := snd v;
     traffic_sources := fst t; traffic_sources_seq := snd t |}.

(** The rows of one video, and the source-to-views entries they hold. *)
Definition rows_of (vid : string) (db : Db) : list VideoStatsRow :=
  List.filter (fun r => bool_decide (video_id r = vid)) (video_stats db).

Definition traffic_of (vid : string) (db : Db) : list (string * Z) :=
  map (fun r => (traffic_source r, views r))
    (List.filter (fun r => bool_decide (ts_video_id r = vid)) (traffic_sources db)).

(** The UNIQUE constraint on [video_stats.video_id]. *)
Definition unique_video_id (db : Db) : Prop :=
  NoDup (map video_id (video_stats db)).

(** The columns the method writes from the dictionary. *)
Definition written_from (vs : VideoStats) (r : VideoStatsRow) : Prop :=
  video_id r = vs_video_id vs
  /\ channel_id r = vs_channel_id vs
  /\ title r = vs_title vs
  /\ description r = default "" (vs_description vs)
  /\ upload_time r = vs_upload_time vs
  /\ duration r = vs_duration_seconds vs
  /\ watch_url r = vs_watch_url vs
  /\ view_count r = vs_view_count vs
  /\ like_count r = vs_like_count vs
  /\ dislike_count r = default 0 (vs_dislike_count vs)
  /\ comment_count r = vs_comment_count vs
  /\ visibility r = vs_visibility vs
  /\ is_short r = default false (vs_is_short vs)
  /\ thumbnail_url r = vs_thumbnail_url vs
  /\ tags r = vs_tags vs
  /\ subscriber_count r = vs_subscriber_count vs.

(** ** The table after the upsert *)

Lemma filter_key_nil {A} (f : A -> string) (k : string) (l : list A) :
  List.filter (fun r => bool_decide (f r = k)) l = [] <-> (forall r, In r l -> f r <> k).
Proof.
  induction l as [|a l IH]; simpl; [tauto|].
  destruct (bool_decide_reflect (f a = k)) as [E|E].
  - split; [discriminate | intros H; exfalso; apply (H a); auto].
  - rewrite IH. split.
    + intros H r [<-|Hr]; auto.
    + intros H r Hr. apply H. auto.
Qed.

Lemma filter_key_unique {A} (f : A -> string) (k : string) (l : list A) (old : A) :
  NoDup (map f l) -> In old l -> f old = k ->
  List.filter (fun r => bool_decide (f r = k)) l = [old].
Proof.
  induction l as [|a l IH]; simpl; [tauto|].
  intros Hnd Hin Hk. apply NoDup_cons in Hnd as [Hna Hnd].
  destruct (bool_decide_reflect (f a = k)) as [E|E].
  - assert (Hl : List.filter (fun r => bool_decide (f r = k)) l = []).
    { apply filter_key_nil. intros r Hr Hrk. apply Hna.
      apply list_elem_of_In, in_map_iff. exists r. split; [congruence | assumption]. }
    rewrite Hl. destruct Hin as [->|Hin]; [reflexivity|].
    exfalso. apply Hna. apply list_elem_of_In, in_map_iff. exists old. split; [congruence | assumption].
  - destruct Hin as [->|Hin]; [contradiction|]. now apply IH.
Qed.

Lemma select_id_none vid rows :
  select_id vid rows = None <-> List.filter (fun r => bool_decide (video_id r = vid)) rows = [].
Proof.
  unfold select_id. destruct (List.filter _ rows); split; congruence.
Qed.

Lemma update_video_ids now vs rows :
  map video_id (update_video now vs rows) = map video_id rows.
Proof.
  unfold update_video. rewrite map_map. apply map_ext. intros r.
  now destruct (bool_decide (video_id r = vs_video_id vs)).
Qed.

Lemma update_video_same now vs rows :
  List.filter (fun r => bool_decide (video_id r = vs_video_id vs)) (update_video now vs rows)
  = map (update_row now vs)
      (List.filter (fun r => bool_decide (video_id r = vs_video_id vs)) rows).
Proof.
  induction rows as [|r rows IH]; [reflexivity|]. simpl.
  destruct (bool_decide_reflect (video_id r = vs_video_id vs)) as [E|E]; simpl.
  - rewrite bool_decide_true by exact E. simpl. now rewrite IH.
  - rewrite bool_decide_false by exact E. exact IH.
Qed.

Lemma update_video_other now vs rows other :
  other <> vs_video_id vs ->
  List.filter (fun r => bool_decide (video_id r = other)) (update_video now vs rows)
  = List.filter (fun r => bool_decide (video_id r = other)) rows.
Proof.
  intros Hne. induction rows as [|r rows IH]; [reflexivity|]. simpl.
  destruct (bool_decide_reflect (video_id r = vs_video_id vs)) as [E|E]; simpl.
  - rewrite !bool_decide_false by congruence. exact IH.
  - now rewrite IH.
Qed.

Lemma written_from_update now vs r :
  video_id r = vs_video_id vs -> written_from vs (update_row now vs r).
Proof. intros H. unfold written_from. simpl. repeat split; assumption. Qed.

Lemma written_from_insert now n vs : written_from vs (insert_row now n vs).
Proof. unfold written_from. simpl. repeat split. Qed.

Lemma save_video_rows now vs traffic db :
  video_stats (save_video_stats_db now vs traffic db) =
  match select_id (vs_video_id vs) (video_stats db) with
  | Some _ => update_video now vs (video_stats db)
  | None => video_stats db ++ [insert_row now (video_stats_seq db + 1) vs]
  end.
Proof. unfold save_video_stats_db, upsert_video. simpl. now destruct (select_id _ _). Qed.

Lemma save_unique now vs traffic db :
  unique_video_id db -> unique_video_id (save_video_stats_db now vs traffic db).
Proof.
  unfold unique_video_id. intros Hnd. rewrite save_video_rows.
  destruct (select_id _ _) eqn:E.
  - now rewrite update_video_ids.
  - rewrite map_app. simpl. apply NoDup_app. split; [exact Hnd|]. split.
    + intros x Hx Hx'. apply list_elem_of_singleton in Hx'. subst x.
      apply select_id_none in E. 
      apply list_elem_of_In, in_map_iff in Hx as [r [Hr Hin]].
      now apply (proj1 (filter_key_nil _ _ _) E r Hin).
    + apply NoDup_singleton.
Qed.

(** ** Traffic-source replacement *)

Lemma insert_traffic_rows now vid items rows seq :
  map (fun r => (ts_video_id r, traffic_source r, views r))
      (fst (insert_traffic now vid items rows seq))
  = map (fun r => (ts_video_id r, traffic_source r, views r)) rows
    ++ map (fun '(source, vws) => (vid, source, vws)) items.
Proof.
  revert rows seq. induction items as [|[source vws] items IH]; intros rows seq; simpl.
  - now rewrite app_nil_r.
  - rewrite IH, map_app, <- app_assoc. reflexivity.
Qed.

Lemma traffic_of_triples vid db :
  traffic_of vid db =
  map (fun t => (t.1.2, t.2))
    (List.filter (fun t => bool_decide (t.1.1 = vid))
       (map (fun r => (ts_video_id r, traffic_source r, views r)) (traffic_sources db))).
Proof.
  unfold traffic_of. induction (traffic_sources db) as [|r rows IH]; [reflexivity|].
  simpl. destruct (bool_decide (ts_video_id r = vid)); simpl; now rewrite IH.
Qed.

Lemma delete_traffic_triples vid rows :
  map (fun r => (ts_video_id r, traffic_source r, views r)) (delete_traffic vid rows)
  = List.filter (fun t => negb (bool_decide (t.1.1 = vid)))
      (map (fun r => (ts_video_id r, traffic_source r, views r)) rows).
Proof.
  unfold delete_traffic. induction rows as [|r rows IH]; [reflexivity|].
  simpl. destruct (bool_decide (ts_video_id r = vid)); simpl; now rewrite IH.
Qed.

Lemma filter_items_same vid (items : list (string * Z)) :
  map (fun t : string * string * Z => (t.1.2, t.2))
    (List.filter (fun t => bool_decide (t.1.1 = vid))
       (map (fun '(source, vws) => (vid, source, vws)) items)) = items.
Proof.
  induction items as [|[source vws] items IH]; [reflexivity|].
  simpl. rewrite bool_decide_true by reflexivity. simpl. now rewrite IH.
Qed.

Lemma filter_items_other vid other (items : list (string * Z)) :
  other <> vid ->
  List.filter (fun t : string * string * Z => bool_decide (t.1.1 = other))
    (map (fun '(source, vws) => (vid, source, vws)) items) = [].
Proof.
  intros Hne. induction items as [|[source vws] items IH]; [reflexivity|].
  simpl. rewrite bool_decide_false by congruence. exact IH.
Qed.

Lemma filter_deleted_same vid (ts : list (string * string * Z)) :
  List.filter (fun t => bool_decide (t.1.1 = vid))
    (List.filter (fun t => negb (bool_decide (t.1.1 = vid))) ts) = [].
Proof.
  induction ts as [|t ts IH]; [reflexivity|]. simpl.
  destruct (bool_decide_reflect (t.1.1 = vid)) as [E|E]; simpl; [exact IH|].
  rewrite bool_decide_false by exact E. exact IH.
Qed.

Lemma filter_deleted_other vid other (ts : list (string * string * Z)) :
  other <> vid ->
  List.filter (fun t => bool_decide (t.1.1 = other))
    (List.filter (fun t => negb (bool_decide (t.1.1 = vid))) ts)
  = List.filter (fun t => bool_decide (t.1.1 = other)) ts.
Proof.
  intros Hne. induction ts as [|t ts IH]; [reflexivity|]. simpl.
  destruct (bool_decide_reflect (t.1.1 = vid)) as [E|E]; simpl.
  - rewrite bool_decide_false by congruence. exact IH.
  - now rewrite IH.
Qed.

Lemma save_traffic_rows now vs traffic db :
  traffic_sources (save_video_stats_db now vs traffic db) =
  fst (replace_traffic_sources now (vs_video_id vs) traffic db).
Proof. reflexivity. Qed.

Lemma save_traffic_rows_some now vs items db :
  items <> [] ->
  traffic_sources (save_video_stats_db now vs (Some items) db) =
  fst (insert_traffic now (vs_video_id vs) items
         (delete_traffic (vs_video_id vs) (traffic_sources db))
         (traffic_sources_seq db)).
Proof.
  intros Hne. rewrite save_traffic_rows. destruct items; [congruence | reflexivity].
Qed.

Lemma save_traffic_replaced now vs items db :
  items <> [] ->
  traffic_of (vs_video_id vs) (save_video_stats_db now vs (Some items) db) = items.
Proof.
  intros Hne. rewrite traffic_of_triples, save_traffic_rows_some by exact Hne.
  rewrite insert_traffic_rows, delete_traffic_triples, List.filter_app, map_app.
  rewrite filter_deleted_same, filter_items_same. reflexivity.
Qed.

Lemma save_traffic_other now vs traffic db other :
  other <> vs_video_id vs ->
  traffic_of other (save_video_stats_db now vs traffic db) = traffic_of other db.
Proof.
  intros Hne. rewrite !traffic_of_triples.
  destruct traffic as [items|]; [|now rewrite save_traffic_rows].
  destruct (decide (items = [])) as [->|Hi]; [now rewrite save_traffic_rows|].
  rewrite save_traffic_rows_some by exact Hi.
  rewrite insert_traffic_rows, delete_traffic_triples, List.filter_app, map_app.
  rewrite filter_deleted_other by exact Hne.
  rewrite filter_items_other by exact Hne. now rewrite app_nil_r.
Qed.

Lemma save_traffic_kept now vs db :
  traffic_of (vs_video_id vs) (save_video_stats_db now vs (Some []) db)
  = traffic_of (vs_video_id vs) db
  /\ traffic_of (vs_video_id vs) (save_video_stats_db now vs None db)
     = traffic_of (vs_video_id vs) db.
Proof. unfold traffic_of. now rewrite !save_traffic_rows. Qed.

(** ** The properties of the store *)

Definition sample_video (views_now : Z) : VideoStats :=
  {| vs_video_id := "dQw4w9WgXcQ";
     vs_channel_id := "UC123";
     vs_title := "Episode 1";
     vs_description := None;
     vs_upload_time := "2024-01-01T00:00:00Z";
     vs_duration_seconds := 213;
     vs_watch_url := "https://www.youtube.com/watch?v=dQw4w9WgXcQ";
     vs_view_count := views_now;
     vs_like_count := 3;
     vs_dislike_count := None;
     vs_comment_count := 1;
     vs_visibility := Some "public";
     vs_is_short := Some false;
     vs_thumbnail_url := None;
     vs_tags := None;
     vs_subscriber_count := None |}.

(** The store after a first ingestion at time 100, with traffic sources
    A:10 and B:5. *)
Definition ingested_once : Db :=
  save_video_stats_db 100 (sample_video 40) (Some [("A", 10); ("B", 5)]) empty_db.

Lemma empty_db_unique : unique_video_id empty_db.
Proof. apply NoDup_nil_2. Qed.

(** C1: on a table that satisfies its UNIQUE constraint, the method
    keeps the constraint; when no row has the video id it leaves exactly
    one, written from the dictionary, with both timestamps at the
    current time; when a row has it, exactly one row with that id
    remains, written from the dictionary, with [last_updated] at the
    current time and [collected_at], [show], [episode_num] and
    [exclude_from_stats] (and the row id and the number of rows) as
    before; rows of other videos are untouched. *)
Theorem upsert_video_convergent (now : timestamp) (vs : VideoStats)
    (traffic : option (list (string * Z))) (db : Db) :
  unique_video_id db ->
  unique_video_id (save_video_stats_db now vs traffic db)
  /\ (rows_of (vs_video_id vs) db = [] ->
      exists r,
        rows_of (vs_video_id vs) (save_video_stats_db now vs traffic db) = [r]
        /\ written_from vs r
        /\ collected_at r = now /\ last_updated r = now)
  /\ (forall old,
        In old (video_stats db) -> video_id old = vs_video_id vs ->
        exists r,
          rows_of (vs_video_id vs) (save_video_stats_db now vs traffic db) = [r]
          /\ written_from vs r
          /\ last_updated r = now
          /\ collected_at r = collected_at old
          /\ show r = show old
          /\ episode_num r = episode_num old
          /\ exclude_from_stats r = exclude_from_stats old
          /\ id r = id old
          /\ length (video_stats (save_video_stats_db now vs traffic db))
             = length (video_stats db))
  /\ (forall other,
        other <> vs_video_id vs ->
        rows_of other (save_video_stats_db now vs traffic db) = rows_of other db).
Proof.
  intros Hu. split; [now apply save_unique|]. split; [|split].
  - intros Habs. exists (insert_row now (video_stats_seq db + 1) vs).
    unfold rows_of in *. rewrite save_video_rows.
    rewrite (proj2 (select_id_none _ _) Habs), List.filter_app, Habs. simpl.
    rewrite bool_decide_true by reflexivity.
    split; [reflexivity|]. split; [apply written_from_insert|]. now split.
  - intros old Hin Hid. exists (update_row now vs old).
    pose proof (filter_key_unique video_id _ _ old Hu Hin Hid) as Hf.
    unfold rows_of. rewrite save_video_rows.
    assert (Hs : exists i, select_id (vs_video_id vs) (video_stats db) = Some i).
    { unfold select_id. rewrite Hf. eauto. }
    destruct Hs as [i ->]. rewrite update_video_same, Hf. simpl.
    split; [reflexivity|]. split; [now apply written_from_update|].
    repeat split. unfold update_video. now rewrite length_map.
  - intros other Hne. unfold rows_of. rewrite save_video_rows.
    destruct (select_id _ _).
    + now apply update_video_other.
    + rewrite List.filter_app. simpl.
      rewrite bool_decide_false by congruence. now rewrite app_nil_r.
Qed.

(** A second ingestion of the same video at time 200 with a new view
    count: one row, the latest count, the first collection time. *)
Lemma upsert_video_convergent_witness :
  unique_video_id ingested_once
  /\ exists r,
       rows_of "dQw4w9WgXcQ"
         (save_video_stats_db 200 (sample_video 55) None ingested_once) = [r]
       /\ view_count r = 55 /\ collected_at r = 100 /\ last_updated r = 200.
Proof.
  assert (Hu : unique_video_id ingested_once).
  { vm_compute. apply NoDup_singleton. }
  split; [exact Hu|].
  destruct (upsert_video_convergent 200 (sample_video 55) None ingested_once Hu)
    as (_ & _ & Hupd & _).
  destruct (Hupd (insert_row 100 1 (sample_video 40)))
    as (r & Hr & Hw & Hl & Hc & _).
  - left. reflexivity.
  - reflexivity.
  - exists r. split; [exact Hr|]. split; [apply Hw|]. split; [exact Hc | exact Hl].
Defined.

(** C2, as stated, fails for the empty mapping: re-ingesting it after
    A:10, B:5 leaves both rows in place. *)
Lemma empty_mapping_keeps_stale_rows :
  ~ (forall (now : timestamp) (vs : VideoStats) (items : list (string * Z)) (db : Db),
       traffic_of (vs_video_id vs) (save_video_stats_db now vs (Some items) db)
       = items).
Proof.
  intros H. specialize (H 200 (sample_video 55) [] ingested_once).
  vm_compute in H. discriminate H.
Qed.

(** C2, amended: for every non-empty mapping the rows of the video are
    afterwards exactly the entries of the mapping, in its order, and the
    rows of every other video are as before; with the empty mapping, or
    none, the rows of the video are left as they are. *)
Theorem traffic_replacement_complete (now : timestamp) (vs : VideoStats) (db : Db) :
  (forall items : list (string * Z),
     items <> [] ->
     traffic_of (vs_video_id vs) (save_video_stats_db now vs (Some items) db)
       = items
     /\ (forall other,
           other <> vs_video_id vs ->
           traffic_of other (save_video_stats_db now vs (Some items) db)
           = traffic_of other db))
  /\ traffic_of (vs_video_id vs) (save_video_stats_db now vs (Some []) db)
     = traffic_of (vs_video_id vs) db
  /\ traffic_of (vs_video_id vs) (save_video_stats_db now vs None db)
     = traffic_of (vs_video_id vs) db.
Proof.
  split; [|apply save_traffic_kept].
  intros items Hne. split; [now apply save_traffic_replaced|].
  intros other Ho. now apply save_traffic_other.
Qed.

(** Ingesting A:10, B:5 and then A:12 leaves the one row A:12. *)
Lemma traffic_replacement_complete_witness :
  [("A", 12)] <> []
  /\ traffic_of "dQw4w9WgXcQ" ingested_once = [("A", 10); ("B", 5)]
  /\ traffic_of "dQw4w9WgXcQ"
       (save_video_stats_db 200 (sample_video 55) (Some [("A", 12)]) ingested_once)
     = [("A", 12)].
Proof.
  split; [discriminate|]. split; [reflexivity|].
  apply (proj1 (traffic_replacement_complete 200 (sample_video 55) ingested_once)
           [("A", 12)]).
  discriminate.
Defined.

End Storage.

(* ================================================================== *)
(** * PatternMatcher: [ShowMapper._extract_show_episode]                *)
(* ================================================================== *)

Module ShowMapper.
Import Py.

(** A match object of [re]: the text of group 0 and, for each capture
    group of the pattern, its text or [None] when the group took no part
    in the match ([m.groups()]). *)
Record Match : Type := {
  whole : string;
  groups : list (option string)
}.

(** [m.group(n)]: group 0 is the whole match, groups 1 to
    [len(m.groups())] are the capture groups, any other index raises
    [IndexError]. *)
Definition group (m : Match) (n : Z) : result (option string) :=
  if n =? 0 then Ok (Some (whole m))
  else if (0 <? n) && (n <=? Z.of_nat (length (groups m)))
       then Ok (nth (Z.to_nat (n - 1)) (groups m) None)
       else Raise IndexError.

(** One entry of [show_patterns]; a key the entry lacks is [None]. *)
Record Pattern : Type := {
  enabled : option bool;
  title_regex : option string;
  name : option string;
  show_group : option Z;
  episode_regex : option string;
  episode_group : option Z
}.

Section Resolve.

(** [re.search(pattern, string)]: [Raise ReError] when the pattern does
    not compile, [Ok None] when nothing matches. *)
Variable re_search : string -> string -> result (option Match).

(** Lines 54-59: the static name, replaced by the text of the show group
    when one is configured (and not 0) and the match has that many
    groups.  [.strip()] on a group that took no part in the match raises
    [AttributeError]. *)
Definition resolve_show (pattern : Pattern) (title_match : Match)
  : result (option string) :=
  let show_name := name pattern in
  match show_group pattern with
  | None => Ok show_name
  | Some g =>
      if g =? 0 then Ok show_name
      else if Z.of_nat (length (groups title_match)) >=? g then
        rbind (group title_match g) (fun text =>
          match text with
          | Some t => Ok (Some (to_string (strip (of_string t))))
          | None => Raise AttributeError
          end)
      else Ok show_name
  end.

(** Lines 62-72: the episode number.  [int] raises [TypeError] on [None]
    and [ValueError] on text that is not a number; the [except] clause
    names [ValueError] and [IndexError]. *)
Definition resolve_episode (pattern : Pattern) (title : string)
  : result (option Z) :=
  match episode_regex pattern with
  | None => Ok None
  | Some episode_regex =>
      if bool_decide (episode_regex = "") then Ok None
      else
        rbind (re_search episode_regex title) (fun found =>
          match found with
          | None => Ok None
          | Some episode_match =>
              let episode_group := default 1 (episode_group pattern) in
              if Z.of_nat (length (groups episode_match)) >=? episode_group then
                match group episode_match episode_group with
                | Raise IndexError => Ok None
                | Raise e => Raise e
                | Ok None => Raise TypeError
                | Ok (Some text) =>
                    match int_of_str (of_string text) with
                    | Some n => Ok (Some n)
                    | None => Ok None
                    end
                end
              else Ok None
          end)
  end.

(** The body of the [for] loop on one pattern: [Ok None] stands for
    reaching the next iteration, [Ok (Some _)] for the [return]. *)
Definition try_pattern (pattern : Pattern) (title : string)
  : result (option (string * option Z)) :=
  if negb (default true (enabled pattern)) then Ok None
  else if negb (truthy (title_regex pattern)) then Ok None
  else
    rbind (re_search (default "" (title_regex pattern)) title) (fun found =>
      match found with
      | None => Ok None
      | Some title_match =>
          rbind (resolve_show pattern title_match) (fun show_name =>
          rbind (resolve_episode pattern title) (fun episode_num =>
            if truthy show_name
            then Ok (Some (default "" show_name, episode_num))
            else Ok None))
      end).

(** [_extract_show_episode(title)] over the configured patterns. *)
Fixpoint _extract_show_episode (patterns : list Pattern) (title : string)
  : result (option string * option Z) :=
  match patterns with
  | [] => Ok (None, None)
  | pattern :: rest =>
      rbind (try_pattern pattern title) (fun outcome =>
        match outcome with
        | Some (show_name, episode_num) => Ok (Some show_name, episode_num)
        | None => _extract_show_episode rest title
        end)
  end.

(** ** What one pattern does *)

Lemma try_pattern_matched (pattern : Pattern) (title : string) (m : Match) :
  default true (enabled pattern) = true ->
  truthy (title_regex pattern) = true ->
  re_search (default "" (title_regex pattern)) title = Ok (Some m) ->
  try_pattern pattern title =
  rbind (resolve_show pattern m) (fun show_name =>
  rbind (resolve_episode pattern title) (fun episode_num =>
    if truthy show_name
    then Ok (Some (default "" show_name, episode_num))
    else Ok None)).
Proof.
  intros He Ht Hm. unfold try_pattern. rewrite He, Ht, Hm. reflexivity.
Qed.

Lemma resolve_show_out_of_range (pattern : Pattern) (m : Match) (g : Z) :
  show_group pattern = Some g ->
  Z.of_nat (length (groups m)) < g ->
  resolve_show pattern m = Ok (name pattern).
Proof.
  intros Hg Hlt. unfold resolve_show. rewrite Hg.
  destruct (Z.eqb_spec g 0); [reflexivity|].
  destruct (Z.geb_spec (Z.of_nat (length (groups m))) g); [lia | reflexivity].
Qed.

Lemma truthy_default (o : option string) :
  truthy o = true -> Some (default "" o) = o.
Proof. destruct o; [reflexivity | discriminate]. Qed.

(** C3, amended: when an enabled pattern's title expression matches and
    its show-group index exceeds the number of groups of the match, the
    show name of the pattern is its static name; if the pattern has no
    (or an empty) static name it resolves nothing and the search goes on
    with the patterns after it, and otherwise the static name is the
    result.  Stated for a pattern whose episode extraction returns. *)
Theorem show_group_out_of_range_falls_back
    (pattern : Pattern) (title : string) (m : Match) (g : Z) (ep : option Z) :
  default true (enabled pattern) = true ->
  truthy (title_regex pattern) = true ->
  re_search (default "" (title_regex pattern)) title = Ok (Some m) ->
  show_group pattern = Some g ->
  Z.of_nat (length (groups m)) < g ->
  resolve_episode pattern title = Ok ep ->
  resolve_show pattern m = Ok (name pattern)
  /\ (truthy (name pattern) = false ->
      try_pattern pattern title = Ok None
      /\ forall rest,
           _extract_show_episode (pattern :: rest) title
           = _extract_show_episode rest title)
  /\ (truthy (name pattern) = true ->
      forall rest,
        _extract_show_episode (pattern :: rest) title = Ok (name pattern, ep)).
Proof.
  intros He Ht Hm Hg Hlt Hep.
  pose proof (resolve_show_out_of_range pattern m g Hg Hlt) as Hs.
  pose proof (try_pattern_matched pattern title m He Ht Hm) as Htry.
  rewrite Hs, Hep in Htry. simpl in Htry.
  split; [exact Hs|]. split; intros Hn; rewrite Hn in Htry.
  - split; [exact Htry|]. intros rest. simpl. now rewrite Htry.
  - intros rest. simpl. rewrite Htry. simpl. now rewrite truthy_default.
Qed.

(** The three ways the episode number stays [None] without an error: the
    episode expression does not match, the match has fewer groups than
    the selected index, or the text of the group is not a number. *)
Lemma resolve_episode_none (pattern : Pattern) (title : string) (er : string) :
  episode_regex pattern = Some er -> er <> "" ->
  (re_search er title = Ok None
   \/ (exists em, re_search er title = Ok (Some em)
        /\ Z.of_nat (length (groups em)) < default 1 (episode_group pattern))
   \/ (exists em text, re_search er title = Ok (Some em)
        /\ group em (default 1 (episode_group pattern)) = Ok (Some text)
        /\ int_of_str (of_string text) = None)) ->
  resolve_episode pattern title = Ok None.
Proof.
  intros Her Hne H. unfold resolve_episode. rewrite Her.
  rewrite bool_decide_false by exact Hne.
  destruct H as [H | [(em & H & Hlt) | (em & text & H & Hg & Hi)]];
    rewrite H; simpl; [reflexivity| |].
  - destruct (Z.geb_spec (Z.of_nat (length (groups em)))
                (default 1 (episode_group pattern))); [lia | reflexivity].
  - rewrite Hg, Hi. now destruct (_ >=? _).
Qed.

(** A resolved show is returned with episode [None] in those three
    cases. *)
Lemma episode_failure_keeps_show
    (pattern : Pattern) (rest : list Pattern) (title : string)
    (m : Match) (show_name er : string) :
  default true (enabled pattern) = true ->
  truthy (title_regex pattern) = true ->
  re_search (default "" (title_regex pattern)) title = Ok (Some m) ->
  resolve_show pattern m = Ok (Some show_name) -> show_name <> "" ->
  episode_regex pattern = Some er -> er <> "" ->
  (re_search er title = Ok None
   \/ (exists em, re_search er title = Ok (Some em)
        /\ Z.of_nat (length (groups em)) < default 1 (episode_group pattern))
   \/ (exists em text, re_search er title = Ok (Some em)
        /\ group em (default 1 (episode_group pattern)) = Ok (Some text)
        /\ int_of_str (of_string text) = None)) ->
  _extract_show_episode (pattern :: rest) title = Ok (Some show_name, None).
Proof.
  intros He Ht Hm Hs Hsn Her Hne H. simpl.
  rewrite (try_pattern_matched pattern title m He Ht Hm), Hs.
  rewrite (resolve_episode_none pattern title er Her Hne H). simpl.
  rewrite bool_decide_false by exact Hsn. reflexivity.
Qed.

(** A selected group that took no part in the episode match makes the
    whole call raise [TypeError]. *)
Lemma episode_group_unset_raises
    (pattern : Pattern) (rest : list Pattern) (title : string)
    (m em : Match) (show_name : option string) (er : string) :
  default true (enabled pattern) = true ->
  truthy (title_regex pattern) = true ->
  re_search (default "" (title_regex pattern)) title = Ok (Some m) ->
  resolve_show pattern m = Ok show_name ->
  episode_regex pattern = Some er -> er <> "" ->
  re_search er title = Ok (Some em) ->
  group em (default 1 (episode_group pattern)) = Ok None ->
  _extract_show_episode (pattern :: rest) title = Raise TypeError.
Proof.
  intros He Ht Hm Hs Her Hne Hem Hg. simpl.
  rewrite (try_pattern_matched pattern title m He Ht Hm), Hs. simpl.
  unfold resolve_episode. rewrite Her, bool_decide_false by exact Hne.
  rewrite Hem. simpl. rewrite Hg.
  destruct (Z.geb_spec (Z.of_nat (length (groups em)))
              (default 1 (episode_group pattern))) as [_|Hlt]; [reflexivity|].
  exfalso. unfold group in Hg.
  destruct (default 1 (episode_group pattern) =? 0); [discriminate|].
  destruct (Z.ltb_spec 0 (default 1 (episode_group pattern))); simpl in Hg.
  - destruct (Z.leb_spec (default 1 (episode_group pattern))
                (Z.of_nat (length (groups em)))); [lia | discriminate].
  - discriminate.
Qed.

End Resolve.

(** ** A model of [re.search] for running the code on examples

    Python's [re] module is a library the code calls; the statements
    above hold for every engine.  To run the code on concrete titles,
    this is a backtracking engine for a fragment of the pattern syntax:
    literal characters, [.], [\d], an escaped punctuation character,
    capture groups, [(?:...)], [|], and the greedy [*], [+] and [?]
    (applied to a part that cannot match the empty text).  Any other
    pattern is answered with [ReError]. *)

Inductive regex : Type :=
| REmpty
| RChar (c : ascii)
| RAny
| RDigit
| RSeq (r1 r2 : regex)
| RAlt (r1 r2 : regex)
| RStar (r : regex)
| RGroup (n : nat) (r : regex).

Definition captures : Type := list (option str).

(** The backtracking matcher: [k] is what remains to be matched after
    [r], given the rest of the text and the captures so far. *)
Fixpoint rmatch {A : Type} (r : regex) (s : str) (caps : captures)
    (k : str -> captures -> option A) {struct r} : option A :=
  match r with
  | REmpty => k s caps
  | RChar c =>
      match s with
      | x :: s' => if ascii_eqb x c then k s' caps else None
      | [] => None
      end
  | RAny =>
      match s with
      | x :: s' => if ascii_eqb x newline then None else k s' caps
      | [] => None
      end
  | RDigit =>
      match s with
      | x :: s' => if is_digit x then k s' caps else None
      | [] => None
      end
  | RSeq r1 r2 => rmatch r1 s caps (fun s' caps' => rmatch r2 s' caps' k)
  | RAlt r1 r2 =>
      match rmatch r1 s caps k with
      | Some a => Some a
      | None => rmatch r2 s caps k
      end
  | RStar r1 =>
      (fix star (fuel : nat) (s : str) (caps : captures) : option A :=
         match fuel with
         | O => k s caps
         | S fuel' =>
             match rmatch r1 s caps
                     (fun s' caps' =>
                        if (length s' <? length s)%nat
                        then star fuel' s' caps' else None) with
             | Some a => Some a
             | None => k s caps
             end
         end) (length s) s caps
  | RGroup n r1 =>
      rmatch r1 s caps
        (fun s' caps' =>
           k s' (<[n := Some (take (length s - length s') s)]> caps'))
  end.

(** The pattern parser: the regex, the unread rest of the pattern and
    the number of capture groups opened so far. *)
Definition is_special (c : ascii) : bool := ascii_in c (of_string "()|*+?.\[]{}^$").

Fixpoint parse_alt (fuel : nat) (p : str) (ngroups : nat)
  : option (regex * str * nat) :=
  match fuel with
  | O => None
  | S fuel' =>
      match parse_seq fuel' p ngroups with
      | Some (r1, "|"%char :: p', n') =>
          match parse_alt fuel' p' n' with
          | Some (r2, p'', n'') => Some (RAlt r1 r2, p'', n'')
          | None => None
          end
      | other => other
      end
  end
with parse_seq (fuel : nat) (p : str) (ngroups : nat)
  : option (regex * str * nat) :=
  match fuel with
  | O => None
  | S fuel' =>
      match p with
      | [] => Some (REmpty, [], ngroups)
      | c :: _ =>
          if ascii_eqb c "|"%char || ascii_eqb c ")"%char
          then Some (REmpty, p, ngroups)
          else
            match parse_atom fuel' p ngroups with
            | Some (r1, p', n') =>
                let '(r1q, p'') :=
                  match p' with
                  | q :: rest =>
                      if ascii_eqb q "*"%char then (RStar r1, rest)
                      else if ascii_eqb q "+"%char then (RSeq r1 (RStar r1), rest)
                      else if ascii_eqb q "?"%char then (RAlt r1 REmpty, rest)
                      else (r1, p')
                  | [] => (r1, p')
                  end in
                match parse_seq fuel' p'' n' with
                | Some (r2, p3, n3) => Some (RSeq r1q r2, p3, n3)
                | None => None
                end
            | None => None
            end
      end
  end
with parse_atom (fuel : nat) (p : str) (ngroups : nat)
  : option (regex * str * nat) :=
  match fuel with
  | O => None
  | S fuel' =>
      match p with
      | [] => None
      | c :: rest =>
          if ascii_eqb c "("%char then
            match rest with
            | "?"%char :: ":"%char :: inner =>
                match parse_alt fuel' inner ngroups with
                | Some (r, ")"%char :: p', n') => Some (r, p', n')
                | _ => None
                end
            | _ =>
                match parse_alt fuel' rest (S ngroups) with
                | Some (r, ")"%char :: p', n') => Some (RGroup ngroups r, p', n')
                | _ => None
                end
            end
          else if ascii_eqb c "."%char then Some (RAny, rest, ngroups)
          else if ascii_eqb c "\"%char then
            match rest with
            | d :: rest' =>
                if ascii_eqb d "d"%char then Some (RDigit, rest', ngroups)
                else if is_special d then Some (RChar d, rest', ngroups)
                else None
            | [] => None
            end
          else if is_special c then None
          else Some (RChar c, rest, ngroups)
      end
  end.

Definition compile (pattern : string) : option (regex * nat) :=
  let p := of_string pattern in
  match parse_alt (3 * length p + 3) p 0 with
  | Some (r, [], n) => Some (r, n)
  | _ => None
  end.

(** The leftmost match, trying each start position in turn. *)
Fixpoint search_from (r : regex) (ngroups : nat) (s : str) : option Match :=
  match rmatch r s (repeat None ngroups)
          (fun s' caps => Some (s', caps)) with
  | Some (s', caps) =>
      Some {| whole := to_string (take (length s - length s') s);
              groups := map (option_map to_string) caps |}
  | None =>
      match s with
      | [] => None
      | _ :: rest => search_from r ngroups rest
      end
  end.

Definition model_search (pattern text : string) : result (option Match) :=
  match compile pattern with
  | Some (r, n) => Ok (search_from r n (of_string text))
  | None => Raise ReError
  end.

(** ** The matcher on concrete patterns *)

(** A pattern with a label and a show group, whose expression has no
    group. *)
Definition labelled_gate : Pattern :=
  {| enabled := Some true; title_regex := Some "News"; name := Some "Evening News";
     show_group := Some 1; episode_regex := None; episode_group := None |}.

(** C3, as stated, fails: the show-group index 1 exceeds the 0 groups of
    the match, and the pattern still resolves a show name, its static
    one. *)
Lemma static_name_resolves_despite_missing_group :
  ~ (forall (pattern : Pattern) (title : string) (m : Match) (g : Z),
       default true (enabled pattern) = true ->
       truthy (title_regex pattern) = true ->
       model_search (default "" (title_regex pattern)) title = Ok (Some m) ->
       show_group pattern = Some g ->
       Z.of_nat (length (groups m)) < g ->
       try_pattern model_search pattern title = Ok None).
Proof.
  intros H.
  specialize (H labelled_gate "Evening News 5"
                {| whole := "News"; groups := [] |} 1).
  vm_compute in H.
  specialize (H eq_refl eq_refl eq_refl eq_refl eq_refl). discriminate H.
Qed.

(** Rule A gates on the title without naming the show, rule B names
    it. *)
Definition rule_A : Pattern :=
  {| enabled := None; title_regex := Some "Tech Talk"; name := None;
     show_group := Some 1; episode_regex := None; episode_group := None |}.

Definition rule_B : Pattern :=
  {| enabled := None; title_regex := Some "Talk"; name := Some "Talks";
     show_group := None; episode_regex := Some "#(\d+)"; episode_group := None |}.

Lemma show_group_out_of_range_falls_back_witness :
  _extract_show_episode model_search [rule_A; rule_B] "Tech Talk #12"
  = _extract_show_episode model_search [rule_B] "Tech Talk #12"
  /\ _extract_show_episode model_search [rule_A; rule_B] "Tech Talk #12"
     = Ok (Some "Talks", Some 12).
Proof.
  destruct (show_group_out_of_range_falls_back model_search rule_A
              "Tech Talk #12" {| whole := "Tech Talk"; groups := [] |} 1 None)
    as (_ & Hfall & _); try reflexivity.
  destruct (Hfall eq_refl) as [_ Hrest].
  split; [apply Hrest|]. rewrite Hrest. reflexivity.
Defined.

(** A pattern whose episode expression offers two spellings, each with
    its own group. *)
Definition two_spellings : Pattern :=
  {| enabled := None; title_regex := Some "My Show"; name := Some "My Show";
     show_group := None; episode_regex := Some "#(\d+)|Episode (\d+)";
     episode_group := None |}.

(** C6: the title matches the show pattern, the episode expression
    matches through its second spelling, the selected group 1 took no
    part in the match, and the call raises [TypeError] instead of
    returning the show with episode [None]. *)
Theorem unset_episode_group_raises_type_error :
  model_search "#(\d+)|Episode (\d+)" "My Show Episode 7"
    = Ok (Some {| whole := "Episode 7"; groups := [None; Some "7"] |})
  /\ _extract_show_episode model_search [two_spellings] "My Show Episode 7"
     = Raise TypeError.
Proof. split; vm_compute; reflexivity. Qed.

(** The same pattern on a title in the first spelling, and a pattern
    whose episode text is not a number. *)
Example two_spellings_first :
  _extract_show_episode model_search [two_spellings] "My Show #7"
  = Ok (Some "My Show", Some 7).
Proof. vm_compute. reflexivity. Qed.

Example episode_not_a_number :
  _extract_show_episode model_search
    [{| enabled := None; title_regex := Some "My Show"; name := Some "My Show";
        show_group := None; episode_regex := Some "Episode (.+)";
        episode_group := Some 1 |}] "My Show Episode Seven"
  = Ok (Some "My Show", None).
Proof. vm_compute. reflexivity. Qed.

End ShowMapper.

(* ================================================================== *)
(** * Caption batch: [CaptionDownloader.download_captions_batch]        *)
(* ================================================================== *)

Module Captions.
Import Py.

(** What a request to the platform answers: the body, or an [HttpError]
    with its status. *)
Inductive http_response (A : Type) : Type :=
| Http200 (body : A)
| HttpError (status : Z).
Arguments Http200 {A} body.
Arguments HttpError {A} status.

(** One item of [captions().list]. *)
Record CaptionTrack : Type := {
  track_id : string;
  language : option string;
  trackKind : option string
}.

(** What the batch does to the outside world, in the order it does
    it. *)
Inductive event : Type :=
| Glob (video_id format : string)        (* output_dir.glob("*_<id>.<format>") *)
| VideosList (video_id : string)         (* youtube.videos().list *)
| CaptionsList (video_id : string)       (* youtube.captions().list *)
| CaptionsDownload (caption_id tfmt : string)
| PathExists (filename : string)         (* filepath.exists() *)
| OpenWrite (filename : string).         (* open(filepath, 'w') and write *)

Definition is_provider_call (e : event) : bool :=
  match e with
  | VideosList _ | CaptionsList _ | CaptionsDownload _ _ => true
  | _ => false
  end.

Definition provider_calls (log : list event) : list event :=
  List.filter is_provider_call log.

Definition is_glob (e : event) : bool :=
  match e with
  | Glob _ _ => true
  | _ => false
  end.

(** The collaborators: each answer may depend on everything that
    happened before.  [videos_list] gives the titles of the returned
    items; [open_error] is the exception, if any, of opening the file
    for writing. *)
Record Provider : Type := {
  videos_list : list event -> string -> http_response (list string);
  captions_list : list event -> string -> http_response (list CaptionTrack);
  captions_download : list event -> string -> string -> http_response string;
  open_error : list event -> string -> option exn
}.

(** The dictionary [stats]. *)
Record Stats : Type := {
  successful : nat;
  failed : nat;
  no_captions : nat;
  skipped : nat;
  permission_denied : nat;
  failed_ids : list string;
  no_captions_ids : list string;
  permission_denied_ids : list string
}.

Definition stats_init : Stats :=
  {| successful := 0; failed := 0; no_captions := 0; skipped := 0;
     permission_denied := 0; failed_ids := []; no_captions_ids := [];
     permission_denied_ids := [] |}.

(** The files of [output_dir], the trace, and [stats]. *)
Record State : Type := {
  files : list string;
  log : list event;
  stats : Stats
}.

(** Sequential code that reads and writes the state and may raise. *)
Definition M (A : Type) : Type := State -> result A * State.

Definition ret {A} (a : A) : M A := fun st => (Ok a, st).
Definition raise {A} (e : exn) : M A := fun st => (Raise e, st).
Definition bind {A B} (m : M A) (k : A -> M B) : M B :=
  fun st =>
    match m st with
    | (Ok a, st') => k a st'
    | (Raise e, st') => (Raise e, st')
    end.

Notation "x <- m ;; k" := (bind m (fun x => k))
  (at level 100, m at next level, right associativity).
Notation "m ;;; k" := (bind m (fun _ => k))
  (at level 100, right associativity).

Definition emit (e : event) : M unit :=
  fun st => (Ok tt, {| files := files st; log := log st ++ [e]; stats := stats st |}).

Definition get_log : M (list event) := fun st => (Ok (log st), st).
Definition get_files : M (list string) := fun st => (Ok (files st), st).

Definition add_file (filename : string) : M unit :=
  fun st => (Ok tt, {| files := files st ++ [filename]; log := log st; stats := stats st |}).

Definition update_stats (f : Stats -> Stats) : M unit :=
  fun st => (Ok tt, {| files := files st; log := log st; stats := f (stats st) |}).

(** [isinstance(e, cls)] on the exceptions of the model. *)
Definition isinstance (e cls : exn) : bool :=
  match cls, e with
  | Exception_, _ => true
  | OSError, (OSError | PermissionError) => true
  | PermissionError, PermissionError => true
  | ValueError, ValueError => true
  | IndexError, IndexError => true
  | TypeError, TypeError => true
  | AttributeError, AttributeError => true
  | ReError, ReError => true
  | _, _ => false
  end.

(** [try: body  except cls1: h1  except cls2: h2 ...]: the first clause
    whose class the exception is an instance of handles it; with none,
    the exception goes on. *)
Fixpoint find_handler (e : exn) (clauses : list (exn * M unit)) : option (M unit) :=
  match clauses with
  | [] => None
  | (cls, h) :: rest => if isinstance e cls then Some h else find_handler e rest
  end.

Definition try_except (body : M unit) (clauses : list (exn * M unit)) : M unit :=
  fun st =>
    match body st with
    | (Ok tt, st') => (Ok tt, st')
    | (Raise e, st') =>
        match find_handler e clauses with
        | Some h => h st'
        | None => (Raise e, st')
        end
    end.

(** The five counters of [stats]. *)
Inductive counter : Type :=
| Successful
| Failed
| NoCaptions
| Skipped
| PermissionDenied.

#[global] Instance counter_eq_dec : EqDecision counter.
Proof. solve_decision. Defined.

Section Downloader.

Variable provider : Provider.

(** [list_caption_tracks] *)
Definition list_caption_tracks (video_id : string) : M (list CaptionTrack) :=
  history <- get_log ;;
  emit (CaptionsList video_id) ;;;
  match captions_list provider history video_id with
  | Http200 items => ret items
  | HttpError status =>
      if status =? 403 then raise PermissionError
      else if status =? 404 then raise ValueError
      else raise Exception_
  end.

(** [find_caption_track]: the id of the first auto-generated track in
    the language. *)
Definition find_caption_track (video_id language_code : string)
  : M (option string) :=
  caption_tracks <- list_caption_tracks video_id ;;
  ret (option_map track_id
         (List.find (fun item =>
                  bool_decide (language item = Some language_code)
                  && bool_decide (trackKind item = Some "asr"))
               caption_tracks)).

(** [download_caption] *)
Definition download_caption (caption_id format : string) : M string :=
  let download_format := if bool_decide (format = "txt") then "vtt" else format in
  history <- get_log ;;
  emit (CaptionsDownload caption_id download_format) ;;;
  match captions_download provider history caption_id download_format with
  | Http200 subtitle_content =>
      if bool_decide (format = "txt")
      then ret (Vtt.extract_text_from_vtt subtitle_content)
      else ret subtitle_content
  | HttpError _ => raise Exception_
  end.

(** [sanitize_filename] *)
Definition invalid_chars : str :=
  of_string "<>:/\|?*" ++ [ascii_of_nat 34].

Definition sanitize_filename (title : string) : string :=
  let sanitized :=
    map (fun c => if ascii_in c invalid_chars then "_"%char else c)
        (of_string title) in
  let sanitized := take 200 sanitized in
  to_string (strip_with (fun c => ascii_in c (of_string ". ")) sanitized).

(** [get_video_title] *)
Definition get_video_title (video_id : string) : M string :=
  history <- get_log ;;
  emit (VideosList video_id) ;;;
  match videos_list provider history video_id with
  | Http200 [] => raise ValueError
  | Http200 (title :: _) => ret title
  | HttpError _ => raise Exception_
  end.

(** [s.endswith(suffix)] *)
Definition endswith (suffix s : string) : bool :=
  startswith (rev (of_string suffix)) (rev (of_string s)).

(** [caption_file_exists]: some file of the directory matches
    ["*_<video_id>.<format>"], that is, ends with ["_<video_id>.<format>"]
    (video ids and formats hold no glob metacharacter). *)
Definition caption_file_exists (video_id format : string) : M bool :=
  emit (Glob video_id format) ;;;
  directory <- get_files ;;
  ret (existsb (endswith ("_" +:+ video_id +:+ "." +:+ format)) directory).

(** [save_caption]: [None] when the file is already there. *)
Definition save_caption (content video_id video_title format : string)
  : M (option string) :=
  let sanitized_title := sanitize_filename video_title in
  let filename := sanitized_title +:+ "_" +:+ video_id +:+ "." +:+ format in
  emit (PathExists filename) ;;;
  directory <- get_files ;;
  if bool_decide (filename ∈ directory) then ret None
  else
    history <- get_log ;;
    emit (OpenWrite filename) ;;;
    match open_error provider history filename with
    | Some e => raise e
    | None => add_file filename ;;; ret (Some filename)
    end.

(** The updates of [stats] the loop makes. *)
Definition count_skipped (s : Stats) : Stats :=
  {| successful := successful s; failed := failed s;
     no_captions := no_captions s; skipped := skipped s + 1;
     permission_denied := permission_denied s; failed_ids := failed_ids s;
     no_captions_ids := no_captions_ids s;
     permission_denied_ids := permission_denied_ids s |}.

Definition count_successful (s : Stats) : Stats :=
  {| successful := successful s + 1; failed := failed s;
     no_captions := no_captions s; skipped := skipped s;
     permission_denied := permission_denied s; failed_ids := failed_ids s;
     no_captions_ids := no_captions_ids s;
     permission_denied_ids := permission_denied_ids s |}.

Definition count_no_captions (video_id : string) (s : Stats) : Stats :=
  {| successful := successful s; failed := failed s;
     no_captions := no_captions s + 1; skipped := skipped s;
     permission_denied := permission_denied s; failed_ids := failed_ids s;
     no_captions_ids := no_captions_ids s ++ [video_id];
     permission_denied_ids := permission_denied_ids s |}.

Definition count_permission_denied (video_id : string) (s : Stats) : Stats :=
  {| successful := successful s; failed := failed s;
     no_captions := no_captions s; skipped := skipped s;
     permission_denied := permission_denied s + 1; failed_ids := failed_ids s;
     no_captions_ids := no_captions_ids s;
     permission_denied_ids := permission_denied_ids s ++ [video_id] |}.

Definition count_failed (video_id : string) (s : Stats) : Stats :=
  {| successful := successful s; failed := failed s + 1;
     no_captions := no_captions s; skipped := skipped s;
     permission_denied := permission_denied s;
     failed_ids := failed_ids s ++ [video_id];
     no_captions_ids := no_captions_ids s;
     permission_denied_ids := permission_denied_ids s |}.

(** The update that increments counter [c] for a video id. *)
Definition bump (c : counter) (video_id : string) (s : Stats) : Stats :=
  match c with
  | Successful => count_successful s
  | Failed => count_failed video_id s
  | NoCaptions => count_no_captions video_id s
  | Skipped => count_skipped s
  | PermissionDenied => count_permission_denied video_id s
  end.

Definition count_of (c : counter) (s : Stats) : nat :=
  match c with
  | Successful => successful s
  | Failed => failed s
  | NoCaptions => no_captions s
  | Skipped => skipped s
  | PermissionDenied => permission_denied s
  end.

(** [stats] after the ids of [labelled] have each incremented the
    counter they are paired with, in order. *)
Definition tally (labelled : list (string * counter)) (s : Stats) : Stats :=
  fold_left (fun s p => bump p.2 p.1 s) labelled s.

(** The ids paired with counter [c], in order. *)
Definition ids_under (c : counter) (labelled : list (string * counter))
  : list string :=
  map fst (List.filter (fun p => bool_decide (p.2 = c)) labelled).

Variables language_code format : string.

(** The [try] block of the loop for one video id (the output to the
    terminal is left out). *)
Definition try_block (video_id : string) : M unit :=
  already <- caption_file_exists video_id format ;;
  if already then update_stats count_skipped
  else
    video_title <- get_video_title video_id ;;
    caption_id <- find_caption_track video_id language_code ;;
    if negb (truthy caption_id) then
      update_stats (count_no_captions video_id)
    else
      caption_content <- download_caption (default "" caption_id) format ;;
      filepath <- save_caption caption_content video_id video_title format ;;
      match filepath with
      | Some _ => update_stats count_successful
      | None => update_stats count_skipped
      end.

(** One iteration: the [try] block with its two [except] clauses. *)
Definition iteration (video_id : string) : M unit :=
  try_except (try_block video_id)
    [ (PermissionError, update_stats (count_permission_denied video_id));
      (Exception_, update_stats (count_failed video_id)) ].

Fixpoint for_each (video_ids : list string) : M unit :=
  match video_ids with
  | [] => ret tt
  | video_id :: rest => iteration video_id ;;; for_each rest
  end.

(** [download_captions_batch(video_ids, language_code, format)] run in a
    directory holding [directory], with the trace so far [history]: the
    returned [stats] (or the exception that escapes), and the state at
    the end. *)
Definition download_captions_batch (video_ids : list string)
    (directory : list string) (history : list event)
  : result Stats * State :=
  match for_each video_ids
          {| files := directory; log := history; stats := stats_init |} with
  | (Ok tt, st) => (Ok (stats st), st)
  | (Raise e, st) => (Raise e, st)
  end.

End Downloader.

(** Some file of the directory matches ["*_<video_id>.<format>"]. *)
Definition file_saved (format video_id : string) (directory : list string) : Prop :=
  existsb (endswith ("_" +:+ video_id +:+ "." +:+ format)) directory = true.

(** ** Facts about one iteration and about the loop *)

(** The name [save_caption] gives the file matches the pattern
    [caption_file_exists] looks for. *)
Lemma of_string_app (a b : string) : of_string (a +:+ b) = of_string a ++ of_string b.
Proof. induction a as [|c a IH]; simpl; [reflexivity | now rewrite IH]. Qed.

Lemma startswith_app (p r : str) : startswith p (p ++ r) = true.
Proof. apply startswith_spec. now exists r. Qed.

Lemma endswith_app (a suffix : string) : endswith suffix (a +:+ suffix) = true.
Proof.
  unfold endswith. rewrite of_string_app, rev_app_distr. apply startswith_app.
Qed.

Lemma saved_name_matches (sanitized video_id format : string) :
  endswith ("_" +:+ video_id +:+ "." +:+ format)
    (sanitized +:+ "_" +:+ video_id +:+ "." +:+ format) = true.
Proof. apply endswith_app. Qed.

Section BatchFacts.

Variable provider : Provider.
Variables language_code format : string.

Abbreviation try_block := (try_block provider language_code format).
Abbreviation iteration := (iteration provider language_code format).
Abbreviation for_each := (for_each provider language_code format).

(** Case analysis on every test the unfolded code makes, innermost
    first. *)
Ltac unfold_block :=
  cbv [Captions.try_block Captions.iteration try_except find_handler isinstance
       caption_file_exists get_video_title find_caption_track
       list_caption_tracks download_caption save_caption
       bind ret raise emit get_log get_files add_file update_stats] in *.

Ltac split_test :=
  match goal with
  | |- context [match ?x with _ => _ end] =>
      lazymatch x with
      | context [match _ with _ => _ end] => fail
      | _ => destruct x eqn:?
      end
  end.

Ltac run_block :=
  unfold_block;
  repeat (cbn beta iota; cbn [files log stats fst snd]; try split_test).

Lemma file_saved_app video_id directory new_files :
  file_saved format video_id directory -> file_saved format video_id (directory ++ new_files).
Proof. unfold file_saved. rewrite existsb_app. now intros ->. Qed.

(** What one [try] block does to the state: the directory only grows,
    the trace grows by the existence check followed by events that are
    not existence checks, and [stats] is either untouched (an exception
    is on its way) or has one of three counters incremented. *)
Lemma try_block_effect (video_id : string) (st : State) :
  exists r st' new_files evs,
    try_block video_id st = (r, st')
    /\ files st' = files st ++ new_files
    /\ log st' = log st ++ Glob video_id format :: evs
    /\ List.filter is_glob evs = []
    /\ match r with
       | Ok _ =>
           stats st' = count_skipped (stats st)
           \/ stats st' = count_no_captions video_id (stats st)
           \/ (stats st' = count_successful (stats st)
               /\ file_saved format video_id (files st'))
       | Raise _ => stats st' = stats st
       end.
Proof.
  destruct (try_block video_id st) as [r st'] eqn:E.
  exists r, st'. revert E. run_block.
  all: intros [= <- <-]; cbn [files log stats].
  all: try (exists []; eexists; rewrite ?app_nil_r, <- ?app_assoc; simpl;
            repeat split; try reflexivity; auto; fail).
  all: eexists; eexists; rewrite <- ?app_assoc; simpl.
  all: split; [reflexivity|]; split; [reflexivity|]; split; [reflexivity|].
  all: split; [reflexivity|]; right; right; split; [reflexivity|].
  all: unfold file_saved; rewrite existsb_app; simpl.
  all: now rewrite saved_name_matches, orb_true_r.
Qed.

(** With the file already there the block checks, counts the id as
    skipped and does nothing else. *)
Lemma try_block_saved (video_id : string) (st : State) :
  file_saved format video_id (files st) ->
  try_block video_id st =
  (Ok tt, {| files := files st; log := log st ++ [Glob video_id format];
             stats := count_skipped (stats st) |}).
Proof. unfold file_saved. intros H. unfold_block. cbn. now rewrite H. Qed.

(** The two [except] clauses: an exception out of the block is counted,
    a [PermissionError] under [permission_denied] and any other under
    [failed], and the iteration ends normally. *)
Lemma iteration_caught (video_id : string) (st st1 : State) (e : exn) :
  try_block video_id st = (Raise e, st1) ->
  iteration video_id st =
  (Ok tt,
   {| files := files st1; log := log st1;
      stats := if isinstance e PermissionError
               then count_permission_denied video_id (stats st1)
               else count_failed video_id (stats st1) |}).
Proof.
  intros H. unfold Captions.iteration, try_except. rewrite H.
  destruct e; reflexivity.
Qed.

Lemma iteration_passed (video_id : string) (st st1 : State) :
  try_block video_id st = (Ok tt, st1) ->
  iteration video_id st = (Ok tt, st1).
Proof. intros H. unfold Captions.iteration, try_except. now rewrite H. Qed.

(** A download refused by the provider, whatever the status, comes out
    of [download_caption] as a plain [Exception] and is counted under
    [failed]. *)
Lemma download_refused_counts_failed
    (video_id : string) (st : State) (title caption_id : string)
    (more : list string) (items : list CaptionTrack) (status : Z) :
  existsb (endswith ("_" +:+ video_id +:+ "." +:+ format)) (files st) = false ->
  videos_list provider (log st ++ [Glob video_id format]) video_id
    = Http200 (title :: more) ->
  captions_list provider
    (log st ++ [Glob video_id format; VideosList video_id]) video_id
    = Http200 items ->
  option_map track_id
    (List.find (fun item =>
             bool_decide (language item = Some language_code)
             && bool_decide (trackKind item = Some "asr")) items)
    = Some caption_id ->
  caption_id <> "" ->
  captions_download provider
    (log st ++ [Glob video_id format; VideosList video_id; CaptionsList video_id])
    caption_id (if bool_decide (format = "txt") then "vtt" else format)
    = HttpError status ->
  exists st',
    iteration video_id st = (Ok tt, st')
    /\ stats st' = count_failed video_id (stats st).
Proof.
  intros Hnone Htitle Hitems Hfind Hid Hrefused.
  eexists. split.
  - unfold_block. cbn [files log stats]. rewrite Hnone. cbn [files log stats].
    rewrite Htitle. cbn [files log stats].
    rewrite <- !app_assoc. cbn [app]. rewrite Hitems. cbn [files log stats].
    rewrite Hfind. cbn [truthy]. rewrite (bool_decide_eq_false_2 _ Hid).
    cbn [negb]. cbn beta iota. cbn [default files log stats].
    rewrite <- !app_assoc. cbn [app]. unfold id. rewrite Hrefused. reflexivity.
  - reflexivity.
Qed.

(** One iteration always ends normally, with exactly one counter
    incremented for the id. *)
Lemma iteration_effect (video_id : string) (st : State) :
  exists st' c new_files evs,
    iteration video_id st = (Ok tt, st')
    /\ files st' = files st ++ new_files
    /\ log st' = log st ++ Glob video_id format :: evs
    /\ List.filter is_glob evs = []
    /\ stats st' = bump c video_id (stats st)
    /\ (c = Successful -> file_saved format video_id (files st')).
Proof.
  destruct (try_block_effect video_id st)
    as (r & st1 & new_files & evs & Hrun & Hf & Hl & Hg & Hs).
  destruct r as [[]|e].
  - exists st1. rewrite (iteration_passed _ _ _ Hrun).
    destruct Hs as [Hs | [Hs | [Hs Hsaved]]].
    + exists Skipped, new_files, evs. repeat split; auto. discriminate.
    + exists NoCaptions, new_files, evs. repeat split; auto. discriminate.
    + exists Successful, new_files, evs. repeat split; auto.
  - rewrite (iteration_caught _ _ _ _ Hrun). eexists.
    exists (if isinstance e PermissionError then PermissionDenied else Failed),
      new_files, evs.
    cbn [files log stats]. rewrite Hs.
    repeat split; auto; destruct (isinstance e PermissionError); try reflexivity;
      discriminate.
Qed.

Lemma iteration_saved (video_id : string) (st : State) :
  file_saved format video_id (files st) ->
  iteration video_id st =
  (Ok tt, {| files := files st; log := log st ++ [Glob video_id format];
             stats := count_skipped (stats st) |}).
Proof. intros H. apply iteration_passed. now apply try_block_saved. Qed.

(** The whole loop: it ends normally; the ids have each incremented one
    counter, in order; the existence checks of the trace are those of
    the ids, in order; the directory has only grown. *)
Lemma for_each_effect (video_ids : list string) (st : State) :
  exists st' labels new_files,
    for_each video_ids st = (Ok tt, st')
    /\ length labels = length video_ids
    /\ stats st' = tally (zip video_ids labels) (stats st)
    /\ List.filter is_glob (log st')
       = List.filter is_glob (log st) ++ map (fun v => Glob v format) video_ids
    /\ files st' = files st ++ new_files.
Proof.
  revert st. induction video_ids as [|v vs IH]; intros st.
  - exists st, [], []. simpl. rewrite !app_nil_r. auto.
  - destruct (iteration_effect v st) as (st1 & c & nf & evs & Hit & Hf & Hl & Hg & Hs & _).
    destruct (IH st1) as (st2 & labels & nf2 & Hrun & Hlen & Hst & Hglob & Hf2).
    exists st2, (c :: labels), (nf ++ nf2).
    split. { simpl. unfold bind. now rewrite Hit. }
    split. { simpl. now rewrite Hlen. }
    split. { simpl. now rewrite Hst, Hs. }
    split.
    { rewrite Hglob, Hl, List.filter_app. simpl. rewrite Hg.
      now rewrite <- app_assoc. }
    now rewrite Hf2, Hf, app_assoc.
Qed.


(** ** Tallies *)

Definition total (s : Stats) : nat :=
  (successful s + failed s + no_captions s + skipped s + permission_denied s)%nat.

Lemma tally_total (labelled : list (string * counter)) (s : Stats) :
  total (tally labelled s) = (total s + length labelled)%nat.
Proof.
  revert s. induction labelled as [|[v c] l IH]; intros s; simpl.
  - unfold total. lia.
  - unfold tally in *. simpl. rewrite IH. destruct c; unfold total; simpl; lia.
Qed.

Lemma tally_count (c : counter) (labelled : list (string * counter)) (s : Stats) :
  count_of c (tally labelled s)
  = (count_of c s + length (ids_under c labelled))%nat.
Proof.
  revert s. induction labelled as [|[v c'] l IH]; intros s.
  - simpl. lia.
  - unfold tally, ids_under in *. simpl. rewrite IH.
    destruct c, c'; simpl; lia.
Qed.

Lemma tally_ids (labelled : list (string * counter)) (s : Stats) :
  failed_ids (tally labelled s) = failed_ids s ++ ids_under Failed labelled
  /\ no_captions_ids (tally labelled s)
     = no_captions_ids s ++ ids_under NoCaptions labelled
  /\ permission_denied_ids (tally labelled s)
     = permission_denied_ids s ++ ids_under PermissionDenied labelled.
Proof.
  revert s. induction labelled as [|[v c] l IH]; intros s.
  - simpl. now rewrite !app_nil_r.
  - unfold tally, ids_under in *. simpl.
    destruct (IH (bump c v s)) as (H1 & H2 & H3). rewrite H1, H2, H3.
    destruct c; simpl; rewrite <- ?app_assoc; auto.
Qed.

(** C10: the batch returns statistics in which every id of the input
    has incremented exactly one of the five counters: for some labelling
    of the ids by counters, in input order, the statistics are the tally
    of the labelled ids, where the update for one id adds one to its
    counter and nothing to the other four; so the five counters add up
    to the length of the input, each counter is the number of ids under
    it, and the three id lists are the ids under their counters. *)
Theorem batch_counters_partition
    (video_ids directory : list string) (history : list event) :
  exists (result_stats : Stats) (st : State) (labels : list counter),
    download_captions_batch provider language_code format
      video_ids directory history = (Ok result_stats, st)
    /\ length labels = length video_ids
    /\ result_stats = tally (zip video_ids labels) stats_init
    /\ (successful result_stats + failed result_stats
        + no_captions result_stats + skipped result_stats
        + permission_denied result_stats)%nat = length video_ids
    /\ (forall c c' v s,
          count_of c' (bump c v s)
          = (count_of c' s + if decide (c = c') then 1 else 0)%nat)
    /\ (forall c, count_of c result_stats
                  = length (ids_under c (zip video_ids labels)))
    /\ failed_ids result_stats = ids_under Failed (zip video_ids labels)
    /\ no_captions_ids result_stats = ids_under NoCaptions (zip video_ids labels)
    /\ permission_denied_ids result_stats
       = ids_under PermissionDenied (zip video_ids labels).
Proof.
  destruct (for_each_effect video_ids
              {| files := directory; log := history; stats := stats_init |})
    as (st & labels & nf & Hrun & Hlen & Hst & _).
  exists (stats st), st, labels. cbn [stats] in Hst.
  split. { unfold download_captions_batch. now rewrite Hrun. }
  split; [exact Hlen|]. split; [exact Hst|]. rewrite Hst.
  split.
  { pose proof (tally_total (zip video_ids labels) stats_init) as Ht.
    unfold total in Ht. rewrite Ht. simpl.
    rewrite length_zip_with. lia. }
  split. { intros c c' v s. destruct c, c'; simpl; lia. }
  split. { intros c. rewrite tally_count. now destruct c. }
  destruct (tally_ids (zip video_ids labels) stats_init) as (H1 & H2 & H3).
  now rewrite H1, H2, H3.
Qed.


Fixpoint skipped_times (n : nat) (s : Stats) : Stats :=
  match n with
  | O => s
  | S n' => skipped_times n' (count_skipped s)
  end.

Lemma skipped_n (n : nat) (s : Stats) :
  skipped (skipped_times n s) = (skipped s + n)%nat.
Proof.
  revert s. induction n as [|n IH]; intros s; simpl; [lia|].
  rewrite IH. simpl. lia.
Qed.

Lemma map_glob_no_calls (video_ids : list string) :
  List.filter is_glob (map (fun v => Glob v format) video_ids)
    = map (fun v => Glob v format) video_ids
  /\ List.filter is_provider_call (map (fun v => Glob v format) video_ids) = [].
Proof.
  induction video_ids as [|v vs [IH1 IH2]]; [now split|].
  simpl. now rewrite IH1, IH2.
Qed.

(** With a file for every id the loop is the existence checks alone. *)
Lemma for_each_all_saved (video_ids : list string) (st : State) :
  Forall (fun v => file_saved format v (files st)) video_ids ->
  for_each video_ids st =
  (Ok tt, {| files := files st;
             log := log st ++ map (fun v => Glob v format) video_ids;
             stats := skipped_times (length video_ids) (stats st) |}).
Proof.
  revert st. induction video_ids as [|v vs IH]; intros st Hall.
  - simpl. rewrite app_nil_r. now destruct st.
  - inversion Hall as [|? ? Hv Hvs]; subst.
    cbn [Captions.for_each]. unfold bind at 1.
    rewrite (iteration_saved v st Hv).
    rewrite IH by exact Hvs. cbn [files log stats length skipped_times].
    now rewrite <- app_assoc.
Qed.

Lemma batch_single (video_id : string) (directory : list string)
    (history : list event) (st' : State) :
  iteration video_id {| files := directory; log := history; stats := stats_init |}
    = (Ok tt, st') ->
  download_captions_batch provider language_code format
    [video_id] directory history = (Ok (stats st'), st').
Proof.
  intros H. unfold download_captions_batch. cbn [Captions.for_each].
  unfold bind at 1. rewrite H. reflexivity.
Qed.

(** C7, amended: with a file for the id and format in the directory, an
    iteration is the existence check alone, counted as skipped; the
    existence check is the first event of every [try] block; a batch
    over ids that all have their file makes no provider call and counts
    them all skipped; and after a run over one id that counted it
    successful, a second run over that id makes no provider call and
    counts it skipped. *)
Theorem saved_caption_short_circuits :
  (forall (video_id : string) (st : State),
     file_saved format video_id (files st) ->
     iteration video_id st =
     (Ok tt, {| files := files st; log := log st ++ [Glob video_id format];
                stats := count_skipped (stats st) |}))
  /\ (forall (video_id : string) (st : State),
        exists r st' evs,
          try_block video_id st = (r, st')
          /\ log st' = log st ++ Glob video_id format :: evs)
  /\ (forall (video_ids directory : list string) (history : list event),
        Forall (fun v => file_saved format v directory) video_ids ->
        exists (result_stats : Stats) (st : State),
          download_captions_batch provider language_code format
            video_ids directory history = (Ok result_stats, st)
          /\ log st = history ++ map (fun v => Glob v format) video_ids
          /\ provider_calls (log st) = provider_calls history
          /\ skipped result_stats = length video_ids)
  /\ (forall (video_id : string) (directory : list string)
             (history : list event) (first : Stats) (st1 : State),
        download_captions_batch provider language_code format
          [video_id] directory history = (Ok first, st1) ->
        successful first = 1%nat ->
        exists (second : Stats) (st2 : State),
          download_captions_batch provider language_code format
            [video_id] (files st1) (log st1) = (Ok second, st2)
          /\ provider_calls (log st2) = provider_calls (log st1)
          /\ log st2 = log st1 ++ [Glob video_id format]
          /\ files st2 = files st1
          /\ second = count_skipped stats_init).
Proof.
  split; [exact iteration_saved|]. split; [|split].
  - intros video_id st.
    destruct (try_block_effect video_id st) as (r & st' & _ & evs & H & _ & Hl & _).
    now exists r, st', evs.
  - intros video_ids directory history Hall.
    pose proof (for_each_all_saved video_ids
                  {| files := directory; log := history; stats := stats_init |}
                  Hall) as Hrun.
    cbn [files log stats] in Hrun.
    eexists. eexists. split.
    { unfold download_captions_batch. rewrite Hrun. reflexivity. }
    cbn [files log stats]. split; [reflexivity|]. split.
    + unfold provider_calls. rewrite List.filter_app.
      rewrite (proj2 (map_glob_no_calls video_ids)). apply app_nil_r.
    + rewrite skipped_n. simpl. lia.
  - intros video_id directory history first st1 Hfirst Hone.
    destruct (iteration_effect video_id
                {| files := directory; log := history; stats := stats_init |})
      as (st' & c & nf & evs & Hit & _ & _ & _ & Hs & Hsaved).
    rewrite (batch_single _ _ _ _ Hit) in Hfirst. injection Hfirst as <- <-.
    assert (c = Successful) as ->.
    { rewrite Hs in Hone. destruct c; simpl in Hone; congruence. }
    specialize (Hsaved eq_refl).
    pose proof (iteration_saved video_id
                  {| files := files st'; log := log st'; stats := stats_init |}
                  Hsaved) as Hskip.
    apply batch_single in Hskip. cbn [files log stats] in Hskip.
    eexists. eexists. split; [exact Hskip|]. cbn [log files stats].
    repeat split. unfold provider_calls. rewrite List.filter_app. simpl.
    now rewrite app_nil_r.
Qed.

End BatchFacts.

Definition good_provider : Provider :=
  {| videos_list := fun _ _ => Http200 ["Intro: part 1/2?"];
     captions_list := fun _ _ =>
       Http200 [{| track_id := "trk-en"; language := Some "en";
                   trackKind := Some "standard" |};
                {| track_id := "trk-uk"; language := Some "uk";
                   trackKind := Some "asr" |}];
     captions_download := fun _ _ _ => Http200 "WEBVTT";
     open_error := fun _ _ => None |}.

(** A video that has no caption track. *)
Definition no_tracks : Provider :=
  {| videos_list := fun _ _ => Http200 ["A title"];
     captions_list := fun _ _ => Http200 [];
     captions_download := fun _ _ _ => HttpError 404;
     open_error := fun _ _ => None |}.


(** C7, as stated, fails: for a video without a caption track nothing is
    saved, and the second run asks the provider again. *)
Lemma second_run_asks_again_when_nothing_was_saved :
  ~ (forall (provider : Provider) (language_code format video_id : string)
            (directory : list string) (history : list event),
       let st1 := snd (download_captions_batch provider language_code format
                         [video_id] directory history) in
       let st2 := snd (download_captions_batch provider language_code format
                         [video_id] (files st1) (log st1)) in
       provider_calls (log st2) = provider_calls (log st1)).
Proof.
  intros H. specialize (H no_tracks "uk" "txt" "abc" [] []).
  vm_compute in H. discriminate H.
Qed.

Lemma saved_caption_short_circuits_witness :
  exists st1 st2,
    download_captions_batch good_provider "uk" "txt" ["abc"] [] []
      = (Ok (count_successful stats_init), st1)
    /\ download_captions_batch good_provider "uk" "txt" ["abc"] (files st1) (log st1)
       = (Ok (count_skipped stats_init), st2)
    /\ provider_calls (log st2) = provider_calls (log st1).
Proof.
  destruct (saved_caption_short_circuits good_provider "uk" "txt") as (_ & _ & _ & H).
  destruct (H "abc" [] [] (count_successful stats_init)
              (snd (download_captions_batch good_provider "uk" "txt" ["abc"] [] [])))
    as (second & st2 & Hrun & Hcalls & _ & _ & ->).
  - vm_compute. reflexivity.
  - reflexivity.
  - eexists. exists st2. split; [vm_compute; reflexivity|]. split; assumption.
Defined.


End Captions.

(* ================================================================== *)
(** * youtube_client.py: durations, thumbnails, video records, listing *)
(* ================================================================== *)

Module Client.

Import Py ShowMapper.

(** ** [_parse_duration] *)

(** [pattern.match(text)]: the match anchored at the start of the text. *)
Definition match_at_start (r : regex) (ngroups : nat) (s : str) : option Match :=
  match rmatch r s (repeat None ngroups) (fun s' caps => Some (s', caps)) with
  | Some (s', caps) =>
      Some {| whole := to_string (take (length s - length s') s);
              groups := map (option_map to_string) caps |}
  | None => None
  end.

Definition model_match (pattern text : string) : result (option Match) :=
  match compile pattern with
  | Some (r, n) => Ok (match_at_start r n (of_string text))
  | None => Raise ReError
  end.

(** [int(text)] *)
Definition py_int (text : string) : result Z :=
  match int_of_str (of_string text) with
  | Some n => Ok n
  | None => Raise ValueError
  end.

Definition duration_pattern : string := "PT(?:(\d+)H)?(?:(\d+)M)?(?:(\d+)S)?".

(** [total_seconds += int(part) * factor] under [if part:]. *)
Definition add_part (part : option string) (factor : Z) (total_seconds : Z) : result Z :=
  if truthy part
  then rbind (py_int (default "" part)) (fun n => Ok (total_seconds + n * factor))
  else Ok total_seconds.

(** [_parse_duration(duration_iso)] *)
Definition _parse_duration (duration_iso : string) : result Z :=
  rbind (model_match duration_pattern duration_iso) (fun found =>
    match found with
    | None => Ok 0
    | Some m =>
        match groups m with
        | [hours; minutes; seconds] =>
            rbind (add_part hours 3600 0) (fun total_seconds =>
            rbind (add_part minutes 60 total_seconds) (fun total_seconds =>
            add_part seconds 1 total_seconds))
        | _ => Raise ValueError
        end
    end).


(** ** The scanner the pattern amounts to *)

Fixpoint take_digits (s : str) : str * str :=
  match s with
  | c :: rest =>
      if is_digit c then let '(ds, r) := take_digits rest in (c :: ds, r)
      else ([], s)
  | [] => ([], [])
  end.

(** [(?:(\d+)u)?] at the head of [s]: the digits and what follows the
    unit, or nothing consumed. *)
Definition component (unit : ascii) (s : str) : option str * str :=
  match take_digits s with
  | (d :: ds, u :: rest) =>
      if ascii_eqb u unit then (Some (d :: ds), rest) else (None, s)
  | _ => (None, s)
  end.

Definition scan_duration (s : str) : option (option str * option str * option str) :=
  match s with
  | p :: t :: s0 =>
      if ascii_eqb p "P"%char && ascii_eqb t "T"%char then
        let '(h, s1) := component "H"%char s0 in
        let '(m, s2) := component "M"%char s1 in
        let '(sec, _) := component "S"%char s2 in
        Some (h, m, sec)
      else None
  | _ => None
  end.

Lemma take_digits_app s : s = (take_digits s).1 ++ (take_digits s).2.
Proof.
  induction s as [|c s IH]; [reflexivity|]. simpl.
  destruct (is_digit c); [|reflexivity].
  destruct (take_digits s) as [ds r]. simpl in *. now rewrite <- IH.
Qed.

Lemma take_consumed {X} (a b : list X) :
  take (length (a ++ b) - length b) (a ++ b) = a.
Proof.
  rewrite length_app.
  replace (length a + length b - length b)%nat with (length a) by lia.
  apply take_app_length.
Qed.

Lemma take_digits_take s :
  take (length s - length (take_digits s).2) s = (take_digits s).1.
Proof.
  pose proof (take_consumed (take_digits s).1 (take_digits s).2) as H.
  now rewrite <- take_digits_app in H.
Qed.

Section Star.

Context {A : Type} (k : str -> captures -> option A).

Fixpoint greedy_digits (s : str) (caps : captures) : option A :=
  match s with
  | x :: s' =>
      if is_digit x then
        match greedy_digits s' caps with
        | Some a => Some a
        | None => k s caps
        end
      else k s caps
  | [] => k [] caps
  end.

Lemma star_digit_fuel (fuel : nat) (s : str) (caps : captures) :
  (length s <= fuel)%nat ->
  (fix star (fuel : nat) (s : str) (caps : captures) : option A :=
     match fuel with
     | O => k s caps
     | S fuel' =>
         match rmatch RDigit s caps
                 (fun s' caps' =>
                    if (length s' <? length s)%nat
                    then star fuel' s' caps' else None) with
         | Some a => Some a
         | None => k s caps
         end
     end) fuel s caps = greedy_digits s caps.
Proof.
  revert s. induction fuel as [|fuel IH]; intros s Hlen.
  - destruct s; [reflexivity | simpl in Hlen; lia].
  - destruct s as [|x s']; [reflexivity|].
    cbn [rmatch greedy_digits]. destruct (is_digit x); [|reflexivity].
    replace (length s' <? length (x :: s'))%nat with true
      by (symmetry; apply Nat.ltb_lt; simpl; lia).
    rewrite IH by (simpl in Hlen; lia). reflexivity.
Qed.

Lemma star_digit (s : str) (caps : captures) :
  rmatch (RStar RDigit) s caps k = greedy_digits s caps.
Proof. apply star_digit_fuel. reflexivity. Qed.

Lemma greedy_digits_end (s : str) (caps : captures) :
  (forall x s' c, is_digit x = true -> k (x :: s') c = None) ->
  greedy_digits s caps = k (take_digits s).2 caps.
Proof.
  intros Hk. induction s as [|x s IH]; [reflexivity|]. simpl.
  destruct (is_digit x) eqn:Ex; [|reflexivity].
  rewrite IH. destruct (take_digits s) as [ds r]. simpl.
  destruct (k r caps) eqn:Er; [reflexivity|]. now apply Hk.
Qed.

End Star.

(** The piece [(?:(\d+)u)?] of the pattern, with group number [n]. *)
Definition comp_re (n : nat) (u : ascii) : regex :=
  RAlt (RSeq (RGroup n (RSeq (RSeq RDigit (RStar RDigit)) REmpty))
             (RSeq (RChar u) REmpty))
       REmpty.

Lemma rmatch_seq {A : Type} r1 r2 s caps (k : str -> captures -> option A) :
  rmatch (RSeq r1 r2) s caps k
  = rmatch r1 s caps (fun s' caps' => rmatch r2 s' caps' k).
Proof. reflexivity. Qed.

Lemma rmatch_alt {A : Type} r1 r2 s caps (k : str -> captures -> option A) :
  rmatch (RAlt r1 r2) s caps k
  = match rmatch r1 s caps k with
    | Some a => Some a
    | None => rmatch r2 s caps k
    end.
Proof. reflexivity. Qed.

Lemma rmatch_group {A : Type} n r1 s caps (k : str -> captures -> option A) :
  rmatch (RGroup n r1) s caps k
  = rmatch r1 s caps
      (fun s' caps' => k s' (<[n := Some (take (length s - length s') s)]> caps')).
Proof. reflexivity. Qed.

Lemma rmatch_digit {A : Type} x s caps (k : str -> captures -> option A) :
  rmatch RDigit (x :: s) caps k = if is_digit x then k s caps else None.
Proof. reflexivity. Qed.

Lemma rmatch_char {A : Type} c s caps (k : str -> captures -> option A) :
  rmatch (RChar c) s caps k
  = match s with
    | x :: s' => if ascii_eqb x c then k s' caps else None
    | [] => None
    end.
Proof. reflexivity. Qed.

Lemma rmatch_empty {A : Type} s caps (k : str -> captures -> option A) :
  rmatch REmpty s caps k = k s caps.
Proof. reflexivity. Qed.

Lemma comp_match {A : Type} (n : nat) (u : ascii) (s : str) (caps : captures)
    (K : str -> captures -> option A) :
  is_digit u = false ->
  (forall s' c, K s' c <> None) ->
  rmatch (comp_re n u) s caps K =
  match component u s with
  | (Some ds, rest) => K rest (<[n := Some ds]> caps)
  | (None, _) => K s caps
  end.
Proof.
  intros Hu HK. unfold comp_re, component.
  rewrite rmatch_alt, rmatch_seq, rmatch_group, !rmatch_seq, rmatch_empty.
  destruct s as [|x s1].
  { reflexivity. }
  rewrite rmatch_digit.
  cbn [take_digits]. destruct (is_digit x) eqn:Ex; [|reflexivity].
  rewrite star_digit, greedy_digits_end.
  - pose proof (take_digits_take (x :: s1)) as Htake.
    cbn [take_digits] in Htake. rewrite Ex in Htake.
    destruct (take_digits s1) as [ds r] eqn:Et. cbn [fst snd] in *.
    rewrite rmatch_empty, rmatch_seq, rmatch_char.
    destruct r as [|y r']; [reflexivity|].
    destruct (ascii_eqb y u) eqn:Ey; [|reflexivity].
    rewrite rmatch_empty, Htake. destruct (K r' _) eqn:EK; [reflexivity|].
    now apply HK in EK.
  - intros y s' c Hy. rewrite rmatch_empty, rmatch_seq, rmatch_char.
    destruct (ascii_eqb y u) eqn:Ey; [|reflexivity].
    apply ascii_eqb_eq in Ey. congruence.
Qed.

Lemma comp_match_some {A : Type} (n : nat) (u : ascii) (s : str) (caps : captures)
    (K : str -> captures -> option A) :
  is_digit u = false ->
  (forall s' c, K s' c <> None) ->
  rmatch (comp_re n u) s caps K <> None.
Proof.
  intros Hu HK. rewrite comp_match by assumption.
  destruct (component u s) as [[ds|] rest]; apply HK.
Qed.

Lemma component_none u s rest : component u s = (None, rest) -> rest = s.
Proof.
  unfold component. destruct (take_digits s) as [[|d ds] [|x r]];
    try (now intros [= <-]).
  destruct (ascii_eqb x u); [discriminate | now intros [= <-]].
Qed.

Definition duration_regex : regex :=
  RSeq (RChar "P") (RSeq (RChar "T")
    (RSeq (comp_re 0 "H") (RSeq (comp_re 1 "M") (RSeq (comp_re 2 "S") REmpty)))).

Lemma duration_pattern_compiled : compile duration_pattern = Some (duration_regex, 3%nat).
Proof. vm_compute. reflexivity. Qed.

(** The groups of the anchored match are what the scanner finds. *)
Lemma duration_match_scan (s : str) :
  option_map groups (match_at_start duration_regex 3 s)
  = option_map (fun '(h, m, sec) => map (option_map to_string) [h; m; sec])
      (scan_duration s).
Proof.
  unfold match_at_start, scan_duration, duration_regex.
  rewrite rmatch_seq, rmatch_char.
  destruct s as [|p [|t s0]]; try reflexivity.
  { rewrite rmatch_seq, rmatch_char. now destruct (ascii_eqb p "P"). }
  destruct (ascii_eqb p "P"); [|reflexivity].
  rewrite rmatch_seq, rmatch_char.
  destruct (ascii_eqb t "T"); [|reflexivity]. cbn [andb].
  rewrite rmatch_seq.
  assert (H3 : forall s' c,
             rmatch (comp_re 2 "S") s' c
               (fun s'' c'' => rmatch REmpty s'' c''
                  (fun s3 caps => Some (s3, caps))) <> None).
  { intros s' c. apply comp_match_some; [reflexivity | discriminate]. }
  assert (H2 : forall s' c,
             rmatch (comp_re 1 "M") s' c
               (fun s'' c'' => rmatch (RSeq (comp_re 2 "S") REmpty) s'' c''
                  (fun s3 caps => Some (s3, caps))) <> None).
  { intros s' c. apply comp_match_some; [reflexivity | exact H3]. }
  assert (Hchain : forall s1 caps1,
            option_map snd
              (rmatch (RSeq (comp_re 1 "M") (RSeq (comp_re 2 "S") REmpty)) s1 caps1
                 (fun s3 caps => Some (s3, caps)))
            = (let '(m, s2) := component "M" s1 in
               let '(sec, _) := component "S" s2 in
               Some (match sec with
                     | Some d => <[2%nat := Some d]> | None => fun c => c
                     end
                       (match m with
                        | Some d => <[1%nat := Some d]> | None => fun c => c
                        end caps1)))).
  { intros s1 caps1. rewrite rmatch_seq.
    rewrite comp_match by (reflexivity || exact H3).
    destruct (component "M" s1) as [[m|] s2] eqn:EM;
      [|apply component_none in EM; subst s2];
      rewrite rmatch_seq, comp_match by (reflexivity || discriminate);
      destruct (component "S" _) as [[sec|] s3]; reflexivity. }
  rewrite comp_match by (reflexivity || exact H2).
  destruct (component "H" s0) as [[h|] s1] eqn:EH;
    [|apply component_none in EH; subst s1].
  - specialize (Hchain s1 (<[0%nat := Some h]> (repeat None 3))).
    destruct (rmatch _ s1 _ _) as [[s' c]|];
      destruct (component "M" s1) as [[m|] s2];
      destruct (component "S" s2) as [[sec|] s3];
      simpl in Hchain; try discriminate; injection Hchain as ->; reflexivity.
  - specialize (Hchain s0 (repeat None 3)).
    destruct (rmatch _ s0 _ _) as [[s' c]|];
      destruct (component "M" s0) as [[m|] s2];
      destruct (component "S" s2) as [[sec|] s3];
      simpl in Hchain; try discriminate; injection Hchain as ->; reflexivity.
Qed.

(** ** What [_parse_duration] computes *)

Definition digit_string (ds : str) : Prop :=
  ds <> [] /\ forallb is_digit ds = true.

Lemma is_digit_not_space c : is_digit c = true -> is_space c = false.
Proof.
  unfold is_digit, is_space. cbv zeta.
  destruct (Nat.leb_spec 48 (nat_of_ascii c)), (Nat.leb_spec (nat_of_ascii c) 57),
    (Nat.leb_spec 9 (nat_of_ascii c)), (Nat.leb_spec (nat_of_ascii c) 13),
    (Nat.leb_spec 28 (nat_of_ascii c)), (Nat.leb_spec (nat_of_ascii c) 32);
    simpl; intros; try reflexivity; try discriminate; lia.
Qed.

Lemma drop_while_none p s :
  forallb (fun c => negb (p c)) s = true -> drop_while p s = s.
Proof.
  destruct s as [|c s]; [reflexivity|]. simpl.
  intros H. apply andb_true_iff in H as [H _].
  apply negb_true_iff in H. now rewrite H.
Qed.

Lemma forallb_rev {X} (f : X -> bool) (l : list X) :
  forallb f (rev l) = forallb f l.
Proof.
  induction l as [|x l IH]; [reflexivity|]. simpl.
  rewrite forallb_app, IH. simpl. rewrite andb_true_r. apply andb_comm.
Qed.

Lemma strip_digits ds : forallb is_digit ds = true -> strip ds = ds.
Proof.
  intros H.
  assert (Hn : forallb (fun c => negb (is_space c)) ds = true).
  { rewrite forallb_forall in *. intros c Hc.
    now rewrite (is_digit_not_space c (H c Hc)). }
  unfold strip, strip_with, lstrip_with, rstrip_with.
  rewrite (drop_while_none _ _ Hn), drop_while_none, rev_involutive; [reflexivity|].
  now rewrite forallb_rev.
Qed.

Lemma int_body_digits b ds :
  forallb is_digit ds = true -> (b = true \/ ds <> []) -> int_body b ds = Some ds.
Proof.
  revert b. induction ds as [|c ds IH]; intros b H Hb.
  - destruct Hb as [->|Hb]; [reflexivity | congruence].
  - simpl in *. apply andb_true_iff in H as [Hc H]. rewrite Hc.
    rewrite (IH true H); [reflexivity | now left].
Qed.

Lemma is_digit_not_sign c :
  is_digit c = true -> ascii_eqb c "-" = false /\ ascii_eqb c "+" = false.
Proof.
  intros H. split; apply ascii_eqb_neq; intros ->; discriminate H.
Qed.

Lemma int_of_digits ds :
  digit_string ds -> int_of_str ds = Some (digits_val 0 ds).
Proof.
  intros [Hne Hd]. unfold int_of_str. rewrite (strip_digits _ Hd).
  destruct ds as [|c ds]; [congruence|].
  pose proof Hd as Hd'. simpl in Hd'. apply andb_true_iff in Hd' as [Hc _].
  destruct (is_digit_not_sign c Hc) as [-> ->].
  rewrite int_body_digits; [reflexivity | exact Hd | now right].
Qed.

Lemma digit_val_nonneg c : is_digit c = true -> 0 <= digit_val c.
Proof.
  unfold is_digit, digit_val. cbv zeta.
  destruct (Nat.leb_spec 48 (nat_of_ascii c)); simpl; [lia | discriminate].
Qed.

Lemma digits_val_nonneg acc ds :
  forallb is_digit ds = true -> 0 <= acc -> 0 <= digits_val acc ds.
Proof.
  revert acc. induction ds as [|c ds IH]; intros acc H Hacc; [exact Hacc|].
  simpl in *. apply andb_true_iff in H as [Hc H].
  apply IH; [exact H|]. pose proof (digit_val_nonneg c Hc). lia.
Qed.

Lemma take_digits_all s : forallb is_digit (take_digits s).1 = true.
Proof.
  induction s as [|c s IH]; [reflexivity|]. simpl.
  destruct (is_digit c) eqn:E; [|reflexivity].
  destruct (take_digits s) as [ds r]. simpl in *. now rewrite E.
Qed.

Lemma component_digits u s ds rest :
  component u s = (Some ds, rest) -> digit_string ds /\ s = ds ++ u :: rest.
Proof.
  unfold component. pose proof (take_digits_all s) as Hall.
  pose proof (take_digits_app s) as Happ.
  destruct (take_digits s) as [[|d ds'] [|x r]]; try discriminate.
  destruct (ascii_eqb x u) eqn:Ex; [|discriminate].
  intros [= <- <-]. apply ascii_eqb_eq in Ex. subst x.
  split; [split; [discriminate | exact Hall] | exact Happ].
Qed.

(** The value of a group: 0 when the group is unset. *)
Definition part_value (part : option str) : Z :=
  match part with
  | Some ds => digits_val 0 ds
  | None => 0
  end.

Lemma to_string_nonempty (ds : str) : ds <> [] -> to_string ds <> "".
Proof. destruct ds; [congruence | discriminate]. Qed.

Lemma add_part_digits (part : option str) (factor total : Z) :
  match part with Some ds => digit_string ds | None => True end ->
  add_part (option_map to_string part) factor total
  = Ok (total + part_value part * factor).
Proof.
  destruct part as [ds|]; simpl.
  - intros Hd. unfold add_part. simpl.
    rewrite bool_decide_false by (apply to_string_nonempty, Hd). simpl.
    unfold py_int. rewrite of_to_string, (int_of_digits _ Hd). reflexivity.
  - intros _. unfold add_part. simpl. f_equal. lia.
Qed.

(** [_parse_duration] in terms of the scanner. *)
Lemma parse_duration_scan (duration_iso : string) :
  _parse_duration duration_iso =
  match scan_duration (of_string duration_iso) with
  | None => Ok 0
  | Some (h, m, sec) =>
      Ok (part_value h * 3600 + part_value m * 60 + part_value sec)
  end.
Proof.
  unfold _parse_duration, model_match. rewrite duration_pattern_compiled.
  cbn [rbind]. pose proof (duration_match_scan (of_string duration_iso)) as H.
  destruct (match_at_start duration_regex 3 (of_string duration_iso)) as [mt|];
    destruct (scan_duration (of_string duration_iso)) as [[[h m] sec]|] eqn:Es;
    simpl in H; try discriminate; [|reflexivity].
  injection H as ->.
  assert (Hparts : match h with Some ds => digit_string ds | None => True end
                   /\ match m with Some ds => digit_string ds | None => True end
                   /\ match sec with Some ds => digit_string ds | None => True end).
  { unfold scan_duration in Es.
    destruct (of_string duration_iso) as [|p [|t s0]]; try discriminate.
    destruct (ascii_eqb p "P" && ascii_eqb t "T"); [|discriminate].
    destruct (component "H" s0) as [h' s1] eqn:E1.
    destruct (component "M" s1) as [m' s2] eqn:E2.
    destruct (component "S" s2) as [sec' s3] eqn:E3.
    injection Es as <- <- <-.
    repeat split.
    - destruct h'; [apply (component_digits _ _ _ _ E1) | exact I].
    - destruct m'; [apply (component_digits _ _ _ _ E2) | exact I].
    - destruct sec'; [apply (component_digits _ _ _ _ E3) | exact I]. }
  destruct Hparts as (Hh & Hm & Hs).
  change (map (option_map to_string) [h; m; sec])
    with [option_map to_string h; option_map to_string m; option_map to_string sec].
  cbv beta iota.
  rewrite (add_part_digits h 3600 0 Hh). cbn [rbind].
  rewrite (add_part_digits m 60 _ Hm). cbn [rbind].
  rewrite (add_part_digits sec 1 _ Hs). f_equal. lia.
Qed.

Lemma part_value_nonneg part :
  match part with Some ds => digit_string ds | None => True end ->
  0 <= part_value part.
Proof.
  destruct part as [ds|]; simpl; [|lia].
  intros [_ H]. apply digits_val_nonneg; [exact H | lia].
Qed.

Lemma scan_duration_parts s h m sec :
  scan_duration s = Some (h, m, sec) ->
  match h with Some ds => digit_string ds | None => True end
  /\ match m with Some ds => digit_string ds | None => True end
  /\ match sec with Some ds => digit_string ds | None => True end.
Proof.
  unfold scan_duration.
  destruct s as [|p [|t s0]]; try discriminate.
  destruct (ascii_eqb p "P" && ascii_eqb t "T"); [|discriminate].
  destruct (component "H" s0) as [h' s1] eqn:E1.
  destruct (component "M" s1) as [m' s2] eqn:E2.
  destruct (component "S" s2) as [sec' s3] eqn:E3.
  intros [= <- <- <-].
  repeat split.
  - destruct h'; [apply (component_digits _ _ _ _ E1) | exact I].
  - destruct m'; [apply (component_digits _ _ _ _ E2) | exact I].
  - destruct sec'; [apply (component_digits _ _ _ _ E3) | exact I].
Qed.

(** The number of seconds [_parse_duration] computes, read off the
    scanner. *)
Definition scanned_seconds (s : str) : Z :=
  match scan_duration s with
  | None => 0
  | Some (h, m, sec) => part_value h * 3600 + part_value m * 60 + part_value sec
  end.

Lemma parse_duration_scanned (duration_iso : string) :
  _parse_duration duration_iso = Ok (scanned_seconds (of_string duration_iso)).
Proof.
  rewrite parse_duration_scan. unfold scanned_seconds.
  now destruct (scan_duration (of_string duration_iso)) as [[[h m] sec]|].
Qed.

Lemma scanned_seconds_nonneg (s : str) : 0 <= scanned_seconds s.
Proof.
  unfold scanned_seconds.
  destruct (scan_duration s) as [[[h m] sec]|] eqn:Es; [|lia].
  destruct (scan_duration_parts _ _ _ _ Es) as (Hh & Hm & Hs).
  pose proof (part_value_nonneg h Hh). pose proof (part_value_nonneg m Hm).
  pose proof (part_value_nonneg sec Hs). lia.
Qed.

Lemma scanned_seconds_needs_PT (s : str) :
  startswith (of_string "PT") s = false -> scanned_seconds s = 0.
Proof.
  intros H. unfold scanned_seconds, scan_duration.
  destruct s as [|p [|t s0]]; try reflexivity.
  simpl in H. rewrite andb_true_r in H.
  rewrite (ascii_eqb_sym p), (ascii_eqb_sym t), H. reflexivity.
Qed.


(** X2.  A duration that does not begin with PT, such as one with a day part,
    is read as 0 seconds. *)
Theorem parse_duration_needs_PT (duration_iso : string) :
  startswith (of_string "PT") (of_string duration_iso) = false ->
  _parse_duration duration_iso = Ok 0.
Proof.
  intros H. rewrite parse_duration_scanned. f_equal.
  now apply scanned_seconds_needs_PT.
Qed.

Lemma parse_duration_needs_PT_witness :
  startswith (of_string "PT") (of_string "P1DT2H30M") = false
  /\ _parse_duration "P1DT2H30M" = Ok 0.
Proof.
  split; [reflexivity|]. apply (parse_duration_needs_PT "P1DT2H30M"). reflexivity.
Defined.

(** The text of one part of a duration: its digits and its unit. *)
Definition part_text (part : option str) (unit : ascii) : str :=
  match part with
  | Some ds => ds ++ [unit]
  | None => []
  end.

Lemma take_digits_stop ds r :
  forallb is_digit ds = true ->
  match r with [] => True | x :: _ => is_digit x = false end ->
  take_digits (ds ++ r) = (ds, r).
Proof.
  intros Hd Hr. induction ds as [|c ds IH]; simpl.
  - destruct r as [|x r]; [reflexivity|]. simpl. now rewrite Hr.
  - simpl in Hd. apply andb_true_iff in Hd as [Hc Hd]. rewrite Hc.
    now rewrite (IH Hd).
Qed.

Lemma component_hit u ds rest :
  digit_string ds -> is_digit u = false ->
  component u (ds ++ u :: rest) = (Some ds, rest).
Proof.
  intros [Hne Hd] Hu. unfold component.
  rewrite (take_digits_stop ds (u :: rest) Hd Hu).
  destruct ds as [|d ds]; [congruence|].
  replace (ascii_eqb u u) with true by (symmetry; now apply ascii_eqb_eq).
  reflexivity.
Qed.

Lemma component_miss u ds x rest :
  forallb is_digit ds = true -> is_digit x = false -> x <> u ->
  component u (ds ++ x :: rest) = (None, ds ++ x :: rest).
Proof.
  intros Hd Hx Hne. unfold component.
  rewrite (take_digits_stop ds (x :: rest) Hd Hx).
  destruct ds as [|d ds]; [reflexivity|].
  replace (ascii_eqb x u) with false by (symmetry; now apply ascii_eqb_neq).
  reflexivity.
Qed.

Lemma component_nil u : component u [] = (None, []).
Proof. reflexivity. Qed.

(** X3.  On a duration written PT, then any of hours, minutes and seconds in
    that order, each as digits and its unit letter, the result is the
    total number of seconds. *)
Theorem parse_duration_well_formed (hours minutes seconds : option str) :
  match hours with Some ds => digit_string ds | None => True end ->
  match minutes with Some ds => digit_string ds | None => True end ->
  match seconds with Some ds => digit_string ds | None => True end ->
  _parse_duration
    (to_string (of_string "PT" ++ part_text hours "H" ++ part_text minutes "M"
                ++ part_text seconds "S"))
  = Ok (part_value hours * 3600 + part_value minutes * 60 + part_value seconds).
Proof.
  intros Hh Hm Hs. rewrite parse_duration_scan, of_to_string.
  unfold scan_duration. cbn [of_string list_ascii_of_string app].
  replace (ascii_eqb "P" "P" && ascii_eqb "T" "T") with true by reflexivity.
  destruct hours as [h|], minutes as [m|], seconds as [s|];
    cbn [part_text app]; rewrite <- ?app_assoc; cbn [app];
    rewrite ?app_nil_r;
    repeat first
      [ rewrite component_nil
      | rewrite component_hit by (assumption || reflexivity)
      | rewrite component_miss by
          (first [apply Hh | apply Hm | apply Hs | reflexivity | discriminate]) ];
    reflexivity.
Qed.

Lemma parse_duration_well_formed_witness :
  _parse_duration "PT1H30M5S" = Ok 5405 /\ _parse_duration "PT45S" = Ok 45.
Proof.
  split.
  - apply (parse_duration_well_formed (Some (of_string "1")) (Some (of_string "30"))
             (Some (of_string "5"))); split; (discriminate || reflexivity).
  - apply (parse_duration_well_formed None None (Some (of_string "45")));
      try exact I; split; (discriminate || reflexivity).
Defined.

(** ** [_get_best_thumbnail] *)

(** One entry of the API's [thumbnails] object. *)
Record Thumbnail : Type := {
  url : option string
}.

(** A dictionary with string keys, by its items in iteration order; a
    key occurs once. *)
Definition dict (V : Type) : Type := list (string * V).

(** [d.get(key)] *)
Fixpoint dict_get {V : Type} (key : string) (d : dict V) : option V :=
  match d with
  | [] => None
  | (k, v) :: rest => if bool_decide (k = key) then Some v else dict_get key rest
  end.

Definition preferred_sizes : list string := ["maxres"; "high"; "medium"; "default"].

(** The first loop: the first preferred size that is a key. *)
Fixpoint first_preferred (sizes : list string) (thumbnails : dict Thumbnail)
  : option Thumbnail :=
  match sizes with
  | [] => None
  | size :: rest =>
      match dict_get size thumbnails with
      | Some thumbnail => Some thumbnail
      | None => first_preferred rest thumbnails
      end
  end.

(** The second loop: the first entry that has a url. *)
Fixpoint first_with_url (thumbnails : dict Thumbnail) : option string :=
  match thumbnails with
  | [] => None
  | (_, thumbnail) :: rest =>
      match url thumbnail with
      | Some u => Some u
      | None => first_with_url rest
      end
  end.

Definition _get_best_thumbnail (thumbnails : option (dict Thumbnail))
  : option string :=
  match thumbnails with
  | None | Some [] => None
  | Some thumbnails =>
      match first_preferred preferred_sizes thumbnails with
      | Some thumbnail => url thumbnail
      | None => first_with_url thumbnails
      end
  end.

Lemma dict_get_in {V} key (d : dict V) v : dict_get key d = Some v -> In (key, v) d.
Proof.
  induction d as [|[k w] d IH]; simpl; [discriminate|].
  destruct (bool_decide_reflect (k = key)) as [->|Hne].
  - intros [= ->]. now left.
  - intros H. right. now apply IH.
Qed.

Lemma first_preferred_in sizes thumbnails t :
  first_preferred sizes thumbnails = Some t ->
  exists size, In size sizes /\ In (size, t) thumbnails.
Proof.
  induction sizes as [|size sizes IH]; simpl; [discriminate|].
  destruct (dict_get size thumbnails) as [t'|] eqn:E.
  - intros [= ->]. exists size. split; [now left | now apply dict_get_in].
  - intros H. destruct (IH H) as (sz & Hin & Ht). exists sz. split; [now right | exact Ht].
Qed.

Lemma first_with_url_in thumbnails u :
  first_with_url thumbnails = Some u ->
  exists size t, In (size, t) thumbnails /\ url t = Some u.
Proof.
  induction thumbnails as [|[size t] rest IH]; simpl; [discriminate|].
  destruct (url t) as [u'|] eqn:E.
  - intros [= ->]. exists size, t. split; [now left | exact E].
  - intros H. destruct (IH H) as (sz & t' & Hin & Hu). exists sz, t'. split; [now right | exact Hu].
Qed.

Lemma first_with_url_none thumbnails :
  first_with_url thumbnails = None <->
  (forall size t, In (size, t) thumbnails -> url t = None).
Proof.
  induction thumbnails as [|[size t] rest IH]; simpl.
  - split; [intros _ ? ? [] | reflexivity].
  - destruct (url t) as [u|] eqn:E.
    + split; [discriminate|]. intros H. specialize (H size t (or_introl eq_refl)). congruence.
    + rewrite IH. split.
      * intros H sz t' [[= <- <-]|Hin]; [exact E | now apply (H sz)].
      * intros H sz t' Hin. apply (H sz). now right.
Qed.

Lemma first_preferred_split before size after thumbnails t :
  Forall (fun s => dict_get s thumbnails = None) before ->
  dict_get size thumbnails = Some t ->
  first_preferred (before ++ size :: after) thumbnails = Some t.
Proof.
  intros Hb Hs. induction Hb as [|s before Hnone _ IH];
    cbn [app first_preferred].
  - now rewrite Hs.
  - now rewrite Hnone.
Qed.

(** X4.  The thumbnail of the first of maxres, high, medium, default that is
    a key of the object decides: its url is the result, and when it has
    no url the result is [None], whatever the other entries hold. *)
Theorem best_thumbnail_priority
    (thumbnails : dict Thumbnail) (before after : list string)
    (size : string) (t : Thumbnail) :
  preferred_sizes = before ++ size :: after ->
  Forall (fun s => dict_get s thumbnails = None) before ->
  dict_get size thumbnails = Some t ->
  _get_best_thumbnail (Some thumbnails) = url t.
Proof.
  intros Hp Hb Hs. unfold _get_best_thumbnail.
  destruct thumbnails as [|e rest]; [discriminate Hs|].
  rewrite Hp, (first_preferred_split _ _ _ _ _ Hb Hs). reflexivity.
Qed.

Lemma best_thumbnail_priority_witness :
  _get_best_thumbnail
    (Some [("default", {| url := Some "d.jpg" |});
           ("high", {| url := None |});
           ("medium", {| url := Some "m.jpg" |})]) = None.
Proof.
  apply (best_thumbnail_priority _ ["maxres"] ["medium"; "default"] "high"
           {| url := None |}).
  - reflexivity.
  - repeat constructor.
  - reflexivity.
Defined.

(** X5.  A url the function returns is the url of an entry of the object;
    without any of the four preferred sizes it is that of the first
    entry that has one, and [None] only if no entry has one; no object,
    or an empty one, gives [None]. *)
Theorem best_thumbnail_from_object :
  _get_best_thumbnail None = None
  /\ _get_best_thumbnail (Some []) = None
  /\ (forall thumbnails u,
        _get_best_thumbnail (Some thumbnails) = Some u ->
        exists size t, In (size, t) thumbnails /\ url t = Some u)
  /\ (forall thumbnails,
        Forall (fun s => dict_get s thumbnails = None) preferred_sizes ->
        _get_best_thumbnail (Some thumbnails) = first_with_url thumbnails
        /\ (_get_best_thumbnail (Some thumbnails) = None <->
            forall size t, In (size, t) thumbnails -> url t = None)).
Proof.
  split; [reflexivity|]. split; [reflexivity|]. split.
  - intros thumbnails u. unfold _get_best_thumbnail.
    destruct thumbnails as [|e rest]; [discriminate|].
    destruct (first_preferred preferred_sizes (e :: rest)) as [t|] eqn:E.
    + intros Hu. destruct (first_preferred_in _ _ _ E) as (size & _ & Hin).
      now exists size, t.
    + apply first_with_url_in.
  - intros thumbnails Hnone.
    assert (H : _get_best_thumbnail (Some thumbnails) = first_with_url thumbnails).
    { unfold _get_best_thumbnail. destruct thumbnails as [|e rest]; [reflexivity|].
      replace (first_preferred preferred_sizes (e :: rest)) with (@None Thumbnail);
        [reflexivity|].
      symmetry. clear -Hnone.
      induction Hnone as [|s sizes Hs _ IH]; cbn [first_preferred];
        [reflexivity | now rewrite Hs]. }
    split; [exact H|]. rewrite H. apply first_with_url_none.
Qed.

Lemma best_thumbnail_from_object_witness :
  _get_best_thumbnail
    (Some [("tiny", {| url := None |}); ("standard", {| url := Some "s.jpg" |})])
  = Some "s.jpg".
Proof.
  destruct best_thumbnail_from_object as (_ & _ & _ & H).
  destruct (H [("tiny", {| url := None |}); ("standard", {| url := Some "s.jpg" |})])
    as [Heq _].
  - repeat constructor.
  - exact (eq_trans Heq eq_refl).
Defined.

(** ** [get_video_stats] *)

(** The parts of a [videos().list] item the method reads.  The API
    gives the statistics as decimal strings. *)
Record Statistics : Type := {
  viewCount : option string;
  likeCount : option string;
  dislikeCount : option string;
  commentCount : option string
}.

Record VideoSnippet : Type := {
  channelId : string;
  title : string;
  description : option string;
  publishedAt : string;
  thumbnails : option (dict Thumbnail);
  tags : option (list string)
}.

Record VideoItem : Type := {
  snippet : VideoSnippet;
  statistics : Statistics;
  duration : string;                       (* contentDetails.duration *)
  privacyStatus : option string;          (* status.privacyStatus *)
  recordingDetails : option Short.RecordingDetails
}.

(** [int(statistics.get(key, 0))] *)
Definition stat_int (value : option string) : result Z :=
  match value with
  | Some text => py_int text
  | None => Ok 0
  end.

(** [', '.join(tags) if tags else None] *)
Definition tags_string (tags : option (list string)) : option string :=
  match tags with
  | None | Some [] => None
  | Some tags => Some (String.concat ", " tags)
  end.

(** The [snippet] dictionary as [_detect_youtube_short] reads it. *)
Definition short_snippet (sn : VideoSnippet) : Short.Snippet :=
  {| Short.description := description sn;
     Short.title := Some (title sn);
     Short.tags := tags sn |}.

(** [get_video_stats(video_id)], given what [request.execute()]
    answers. *)
Definition get_video_stats (response : Captions.http_response (list VideoItem))
    (video_id : string) : result Storage.VideoStats :=
  match response with
  | Captions.HttpError _ => Raise Exception_
  | Captions.Http200 [] => Raise ValueError
  | Captions.Http200 (video :: _) =>
      let sn := snippet video in
      let visibility := privacyStatus video in
      let thumbnail_url := _get_best_thumbnail (thumbnails sn) in
      rbind (_parse_duration (duration video)) (fun duration_seconds =>
      let is_short :=
        Short._detect_youtube_short duration_seconds (short_snippet sn)
          (recordingDetails video) in
      rbind (stat_int (viewCount (statistics video))) (fun view_count =>
      rbind (stat_int (likeCount (statistics video))) (fun like_count =>
      rbind (stat_int (dislikeCount (statistics video))) (fun dislike_count =>
      rbind (stat_int (commentCount (statistics video))) (fun comment_count =>
      Ok {| Storage.vs_video_id := video_id;
            Storage.vs_channel_id := channelId sn;
            Storage.vs_title := title sn;
            Storage.vs_description := Some (default "" (description sn));
            Storage.vs_upload_time := publishedAt sn;
            Storage.vs_duration_seconds := duration_seconds;
            Storage.vs_watch_url := "https://www.youtube.com/watch?v=" +:+ video_id;
            Storage.vs_view_count := view_count;
            Storage.vs_like_count := like_count;
            Storage.vs_dislike_count := Some dislike_count;
            Storage.vs_comment_count := comment_count;
            Storage.vs_visibility := visibility;
            Storage.vs_is_short := Some is_short;
            Storage.vs_thumbnail_url := thumbnail_url;
            Storage.vs_tags := tags_string (tags sn);
            Storage.vs_subscriber_count := None |})))))
  end.

(** The statistics of an item all read as integers. *)
Definition statistics_readable (st : Statistics) : Prop :=
  (exists n, stat_int (viewCount st) = Ok n)
  /\ (exists n, stat_int (likeCount st) = Ok n)
  /\ (exists n, stat_int (dislikeCount st) = Ok n)
  /\ (exists n, stat_int (commentCount st) = Ok n).

Lemma stat_int_cases value :
  (exists n, stat_int value = Ok n) \/ stat_int value = Raise ValueError.
Proof.
  destruct value as [text|]; simpl; [|left; now exists 0].
  unfold py_int. destruct (int_of_str (of_string text)) as [n|]; [left; now exists n | now right].
Qed.

(** X6.  [get_video_stats] returns exactly when the request answers with an
    item whose statistics all read as integers (a missing one counts as
    0, a text that is no integer raises [ValueError]); an HTTP error
    comes out as a plain [Exception] and an empty answer as
    [ValueError].  The record returned is that of the requested id, its
    duration is not negative and its subscriber count is unset. *)
Theorem get_video_stats_outcome
    (response : Captions.http_response (list VideoItem)) (video_id : string) :
  ((exists vs, get_video_stats response video_id = Ok vs) <->
   (exists video more,
      response = Captions.Http200 (video :: more)
      /\ statistics_readable (statistics video)))
  /\ (forall status, response = Captions.HttpError status ->
        get_video_stats response video_id = Raise Exception_)
  /\ (response = Captions.Http200 [] ->
        get_video_stats response video_id = Raise ValueError)
  /\ (forall video more,
        response = Captions.Http200 (video :: more) ->
        ~ statistics_readable (statistics video) ->
        get_video_stats response video_id = Raise ValueError)
  /\ (forall vs,
        get_video_stats response video_id = Ok vs ->
        Storage.vs_video_id vs = video_id
        /\ 0 <= Storage.vs_duration_seconds vs
        /\ Storage.vs_subscriber_count vs = None
        /\ exists video more,
             response = Captions.Http200 (video :: more)
             /\ stat_int (viewCount (statistics video)) = Ok (Storage.vs_view_count vs)
             /\ stat_int (likeCount (statistics video)) = Ok (Storage.vs_like_count vs)
             /\ stat_int (commentCount (statistics video))
                = Ok (Storage.vs_comment_count vs)).
Proof.
  assert (Hrun : forall video more,
            response = Captions.Http200 (video :: more) ->
            (statistics_readable (statistics video) /\
             exists vs, get_video_stats response video_id = Ok vs
               /\ Storage.vs_video_id vs = video_id
               /\ 0 <= Storage.vs_duration_seconds vs
               /\ Storage.vs_subscriber_count vs = None
               /\ stat_int (viewCount (statistics video)) = Ok (Storage.vs_view_count vs)
               /\ stat_int (likeCount (statistics video)) = Ok (Storage.vs_like_count vs)
               /\ stat_int (commentCount (statistics video))
                  = Ok (Storage.vs_comment_count vs))
            \/ (~ statistics_readable (statistics video)
                /\ get_video_stats response video_id = Raise ValueError)).
  { intros video more ->. unfold get_video_stats, statistics_readable.
    rewrite parse_duration_scanned.
    pose proof (scanned_seconds_nonneg (of_string (duration video))) as Hd.
    cbn [rbind].
    destruct (stat_int_cases (viewCount (statistics video))) as [[v Hv]|Hv];
      rewrite Hv; cbn [rbind];
      [|right; split; [intros ([n Hn] & _); congruence | reflexivity]].
    destruct (stat_int_cases (likeCount (statistics video))) as [[l Hl]|Hl];
      rewrite Hl; cbn [rbind];
      [|right; split; [intros (_ & [n Hn] & _); congruence | reflexivity]].
    destruct (stat_int_cases (dislikeCount (statistics video))) as [[dl Hdl]|Hdl];
      rewrite Hdl; cbn [rbind];
      [|right; split; [intros (_ & _ & [n Hn] & _); congruence | reflexivity]].
    destruct (stat_int_cases (commentCount (statistics video))) as [[c Hc]|Hc];
      rewrite Hc; cbn [rbind];
      [|right; split; [intros (_ & _ & _ & [n Hn]); congruence | reflexivity]].
    left. split; [repeat split; eauto|].
    eexists. split; [reflexivity|]. simpl. repeat split; auto. }
  split; [split|].
  - intros [vs Hvs]. destruct response as [[|video more]|status];
      try discriminate Hvs.
    exists video, more. split; [reflexivity|].
    destruct (Hrun video more eq_refl) as [[H _]|[_ H]]; [exact H | congruence].
  - intros (video & more & Hr & Hs).
    destruct (Hrun video more Hr) as [[_ (vs & H & _)]|[H _]]; [eauto | contradiction].
  - split; [now intros status ->|]. split; [now intros ->|]. split.
    + intros video more Hr Hn.
      destruct (Hrun video more Hr) as [[H _]|[_ H]]; [contradiction | exact H].
    + intros vs Hvs. destruct response as [[|video more]|status];
        try discriminate Hvs.
      destruct (Hrun video more eq_refl)
        as [[_ (vs' & H & H1 & H2 & H3 & H4 & H5 & H6)]|[_ H]]; [|congruence].
      rewrite Hvs in H. injection H as <-.
      repeat split; auto. exists video, more. repeat split; auto.
Qed.

(** X7.  A video whose duration does not begin with PT is recorded with 0
    seconds, and with two or more indicators it is recorded as a
    Short. *)
Theorem long_video_recorded_as_short
    (video : VideoItem) (more : list VideoItem) (video_id : string) :
  startswith (of_string "PT") (of_string (duration video)) = false ->
  (2 <= length (Short.additional_indicators (short_snippet (snippet video))
                  (recordingDetails video)))%nat ->
  statistics_readable (statistics video) ->
  exists vs,
    get_video_stats (Captions.Http200 (video :: more)) video_id = Ok vs
    /\ Storage.vs_duration_seconds vs = 0
    /\ Storage.vs_is_short vs = Some true.
Proof.
  intros Hpt Hind ([v Hv] & [l Hl] & [dl Hdl] & [c Hc]).
  unfold get_video_stats.
  rewrite parse_duration_scanned, (scanned_seconds_needs_PT _ Hpt), Hv, Hl, Hdl, Hc.
  cbn [rbind].
  eexists. split; [reflexivity|]. simpl. split; [reflexivity|].
  f_equal. unfold Short._detect_youtube_short.
  rewrite Short.decide_short_char.
  destruct (Nat.leb_spec 2 (length (Short.additional_indicators
                                      (short_snippet (snippet video))
                                      (recordingDetails video)))); [|lia].
  simpl. rewrite ?orb_true_r. reflexivity.
Qed.

Definition day_long_clip : VideoItem :=
  {| snippet := {| channelId := "UC123"; title := "Marathon #shorts";
                   description := Some "All day long #Shorts";
                   publishedAt := "2024-01-01T00:00:00Z";
                   thumbnails := None; tags := None |};
     statistics := {| viewCount := Some "12"; likeCount := None;
                      dislikeCount := None; commentCount := Some "0" |};
     duration := "P1DT2H";
     privacyStatus := Some "public";
     recordingDetails := None |}.

Lemma long_video_recorded_as_short_witness :
  exists vs,
    get_video_stats (Captions.Http200 [day_long_clip]) "abc" = Ok vs
    /\ Storage.vs_duration_seconds vs = 0
    /\ Storage.vs_is_short vs = Some true.
Proof.
  apply (long_video_recorded_as_short day_long_clip [] "abc").
  - reflexivity.
  - vm_compute. lia.
  - unfold statistics_readable. simpl.
    repeat split; eexists; vm_compute; reflexivity.
Defined.

Lemma get_video_stats_outcome_witness :
  exists vs,
    get_video_stats (Captions.Http200 [day_long_clip]) "abc" = Ok vs
    /\ Storage.vs_view_count vs = 12 /\ Storage.vs_like_count vs = 0.
Proof.
  destruct (get_video_stats_outcome (Captions.Http200 [day_long_clip]) "abc")
    as ([_ Hok] & _ & _ & _ & Hrec).
  destruct Hok as [vs Hvs].
  - exists day_long_clip, []. split; [reflexivity|].
    unfold statistics_readable. simpl.
    repeat split; eexists; vm_compute; reflexivity.
  - exists vs. split; [exact Hvs|].
    destruct (Hrec vs Hvs) as (_ & _ & _ & video & more & Hr & Hv & Hl & _).
    injection Hr as <- <-.
    change (Ok 12 = Ok (Storage.vs_view_count vs)) in Hv.
    change (Ok 0 = Ok (Storage.vs_like_count vs)) in Hl.
    split; congruence.
Defined.


(** ** [get_channel_videos] *)

(** The requests the listing makes, in the order it makes them. *)
Inductive request : Type :=
| ChannelsMine                                        (* channels().list(mine=True) *)
| ChannelsById (channel_id : string)                  (* channels().list(id=...) *)
| PlaylistItems (playlist_id : string) (maxResults : Z) (pageToken : option string)
| VideosList (video_id : string)                      (* videos().list(id=...) *)
| TrafficQuery (channel_id video_id startDate endDate : string)
| SubscriberQuery (channel_id video_id startDate endDate : string).

Record VideoInfo : Type := {
  vi_video_id : string;
  vi_title : string;
  vi_published_at : string;
  vi_description : string
}.

(** One answer of [playlistItems().list]. *)
Record Page : Type := {
  items : list VideoInfo;
  nextPageToken : option string
}.

(** The platform: each answer may depend on the requests made before.
    [channels_mine] gives the ids of the returned items and
    [channels_by_id] their uploads playlists; the two reports give their
    rows, for a channel and a video. *)
Record Api : Type := {
  channels_mine : list request -> Captions.http_response (list string);
  channels_by_id : list request -> string -> Captions.http_response (list string);
  playlist_items :
    list request -> string -> Z -> option string -> Captions.http_response Page;
  videos_list : list request -> string -> Captions.http_response (list VideoItem);
  traffic_report :
    list request -> string -> string -> Captions.http_response (list (string * Z));
  subscriber_report :
    list request -> string -> string -> Captions.http_response (list Z)
}.

Section Listing.

Variable api : Api.

(** [_get_my_channel_id()]: the result and the requests made. *)
Definition _get_my_channel_id (history : list request)
  : result string * list request :=
  let history' := history ++ [ChannelsMine] in
  match channels_mine api history with
  | Captions.Http200 [] => (Raise ValueError, history')
  | Captions.Http200 (id :: _) => (Ok id, history')
  | Captions.HttpError _ => (Raise Exception_, history')
  end.

(** The [while len(videos) < max_results] loop.  [fuel] bounds the
    number of iterations; [None] stands for running out of it. *)
Fixpoint fetch_pages (fuel : nat) (uploads_playlist_id : string) (max_results : Z)
    (videos : list VideoInfo) (next_page_token : option string)
    (history : list request)
  : option (result (list VideoInfo) * list request) :=
  if Z.of_nat (length videos) <? max_results then
    match fuel with
    | O => None
    | S fuel' =>
        let per_page := Z.min 50 (max_results - Z.of_nat (length videos)) in
        let page_token :=
          if truthy next_page_token then next_page_token else None in
        let history' :=
          history ++ [PlaylistItems uploads_playlist_id per_page page_token] in
        match playlist_items api history uploads_playlist_id per_page page_token with
        | Captions.HttpError _ => Some (Raise Exception_, history')
        | Captions.Http200 response =>
            let page_videos := items response in
            let videos := videos ++ page_videos in
            let next_page_token := nextPageToken response in
            if negb (truthy next_page_token) then Some (Ok videos, history')
            else if Z.of_nat (length page_videos) <? per_page
                 then Some (Ok videos, history')
                 else fetch_pages fuel' uploads_playlist_id max_results
                        videos next_page_token history'
        end
    end
  else Some (Ok videos, history).

(** [get_channel_videos(channel_id, max_results)] *)
Definition get_channel_videos (fuel : nat) (channel_id : option string)
    (max_results : Z) (history : list request)
  : option (result (list VideoInfo) * list request) :=
  let '(resolved, history) :=
    if truthy channel_id then (Ok (default "" channel_id), history)
    else _get_my_channel_id history in
  match resolved with
  | Raise e => Some (Raise e, history)
  | Ok channel_id =>
      let history' := history ++ [ChannelsById channel_id] in
      match channels_by_id api history channel_id with
      | Captions.HttpError _ => Some (Raise Exception_, history')
      | Captions.Http200 [] => Some (Raise ValueError, history')
      | Captions.Http200 (uploads_playlist_id :: _) =>
          fetch_pages fuel uploads_playlist_id max_results [] None history'
      end
  end.

(** A page request asks for between 1 and 50 items, and no more than
    the listing was asked for. *)
Definition page_request_ok (max_results : Z) (r : request) : Prop :=
  match r with
  | PlaylistItems _ n _ => 1 <= n <= 50 /\ n <= max_results
  | _ => False
  end.

(** The platform never returns more items than a request asks for. *)
Definition respects_page_size : Prop :=
  forall history playlist n token response,
    playlist_items api history playlist n token = Captions.Http200 response ->
    Z.of_nat (length (items response)) <= n.

Lemma fetch_pages_effect (fuel : nat) (playlist : string) (max_results : Z)
    (videos : list VideoInfo) (token : option string) (history : list request) :
  (Z.to_nat (max_results - Z.of_nat (length videos)) <= fuel)%nat ->
  exists r requests,
    fetch_pages fuel playlist max_results videos token history
      = Some (r, history ++ requests)
    /\ Forall (page_request_ok max_results) requests
    /\ (length requests <= Z.to_nat (max_results - Z.of_nat (length videos)))%nat
    /\ match r with
       | Ok result_videos =>
           (exists fetched, result_videos = videos ++ fetched)
           /\ (respects_page_size ->
               Z.of_nat (length result_videos)
               <= Z.max (Z.of_nat (length videos)) max_results)
       | Raise e => e = Exception_
       end.
Proof.
  revert videos token history.
  induction fuel as [|fuel IH]; intros videos token history Hfuel;
    cbn [fetch_pages];
    destruct (Z.ltb_spec (Z.of_nat (length videos)) max_results) as [Hlt|Hge];
    try lia.
  - exists (Ok videos), []. rewrite app_nil_r. split; [reflexivity|].
    split; [constructor|]. split; [simpl; lia|]. split.
    + exists []. now rewrite app_nil_r.
    + lia.
  - set (per_page := Z.min 50 (max_results - Z.of_nat (length videos))).
    set (page_token := if truthy token then token else None).
    assert (Hreq : page_request_ok max_results
                     (PlaylistItems playlist per_page page_token)).
    { simpl. unfold per_page. lia. }
    destruct (playlist_items api history playlist per_page page_token)
      as [response|status] eqn:Eresp.
    + cbv zeta.
      assert (Hstop : exists r requests,
                 Some (Ok (videos ++ items response),
                       history ++ [PlaylistItems playlist per_page page_token])
                   = Some (r, history ++ requests)
                 /\ Forall (page_request_ok max_results) requests
                 /\ (length requests
                     <= Z.to_nat (max_results - Z.of_nat (length videos)))%nat
                 /\ match r with
                    | Ok result_videos =>
                        (exists fetched, result_videos = videos ++ fetched)
                        /\ (respects_page_size ->
                            Z.of_nat (length result_videos)
                            <= Z.max (Z.of_nat (length videos)) max_results)
                    | Raise e => e = Exception_
                    end).
      { eexists. exists [PlaylistItems playlist per_page page_token].
        split; [reflexivity|]. split; [now constructor|].
        split; [simpl; lia|]. split; [now exists (items response)|].
        intros Hresp. specialize (Hresp _ _ _ _ _ Eresp).
        rewrite length_app. unfold per_page in Hresp. lia. }
      destruct (truthy (nextPageToken response)); cbn [negb]; [|exact Hstop].
      destruct (Z.ltb_spec (Z.of_nat (length (items response))) per_page)
        as [Hshort|Hfull]; [exact Hstop|]. clear Hstop.
      assert (Hlen : Z.of_nat (length (videos ++ items response))
                     >= Z.of_nat (length videos) + per_page).
      { rewrite length_app. lia. }
      destruct (IH (videos ++ items response) (nextPageToken response)
                  (history ++ [PlaylistItems playlist per_page page_token]))
        as (r & requests & Hrun & Hok & Hcount & Hres).
      { unfold per_page in Hlen. lia. }
      exists r, (PlaylistItems playlist per_page page_token :: requests).
      split; [now rewrite Hrun, <- app_assoc|].
      split; [now constructor|].
      split; [simpl; unfold per_page in Hlen; lia|].
      destruct r as [result_videos|e]; [|exact Hres].
      destruct Hres as [[fetched ->] Hbound]. split.
      * exists (items response ++ fetched). now rewrite app_assoc.
      * intros Hresp. specialize (Hbound Hresp).
        pose proof (Hresp _ _ _ _ _ Eresp) as Hpage.
        rewrite !length_app in Hbound |- *. unfold per_page in Hpage. lia.
    + exists (Raise Exception_), [PlaylistItems playlist per_page page_token].
      split; [reflexivity|]. split; [now constructor|].
      split; [simpl; lia | reflexivity].
  - exists (Ok videos), []. rewrite app_nil_r. split; [reflexivity|].
    split; [constructor|]. split; [simpl; lia|]. split.
    + exists []. now rewrite app_nil_r.
    + lia.
Qed.

End Listing.

(** The requests that look a channel up, before any page is asked for. *)
Definition is_lookup (r : request) : Prop :=
  match r with
  | ChannelsMine | ChannelsById _ => True
  | _ => False
  end.

(** [get_channel_videos] looks the channel up with at most two
    requests; it then raises, or goes through the pages of the uploads
    playlist. *)
Lemma get_channel_videos_cases (api : Api) (fuel : nat)
    (channel_id : option string) (max_results : Z) (history : list request) :
  exists lookups,
    Forall is_lookup lookups /\ (length lookups <= 2)%nat
    /\ ((exists e, get_channel_videos api fuel channel_id max_results history
                   = Some (Raise e, history ++ lookups))
        \/ (exists uploads,
              get_channel_videos api fuel channel_id max_results history
              = fetch_pages api fuel uploads max_results [] None
                  (history ++ lookups))).
Proof.
  unfold get_channel_videos.
  assert (Hgo : forall channel before,
             Forall is_lookup before -> (length before <= 1)%nat ->
             exists lookups,
               Forall is_lookup lookups /\ (length lookups <= 2)%nat
               /\ ((exists e,
                      match channels_by_id api (history ++ before) channel with
                      | Captions.Http200 [] =>
                          Some (Raise ValueError,
                                (history ++ before) ++ [ChannelsById channel])
                      | Captions.Http200 (uploads_playlist_id :: _) =>
                          fetch_pages api fuel uploads_playlist_id max_results
                            [] None ((history ++ before) ++ [ChannelsById channel])
                      | Captions.HttpError _ =>
                          Some (Raise Exception_,
                                (history ++ before) ++ [ChannelsById channel])
                      end = Some (Raise e, history ++ lookups))
                   \/ (exists uploads,
                         match channels_by_id api (history ++ before) channel with
                         | Captions.Http200 [] =>
                             Some (Raise ValueError,
                                   (history ++ before) ++ [ChannelsById channel])
                         | Captions.Http200 (uploads_playlist_id :: _) =>
                             fetch_pages api fuel uploads_playlist_id max_results
                               [] None
                               ((history ++ before) ++ [ChannelsById channel])
                         | Captions.HttpError _ =>
                             Some (Raise Exception_,
                                   (history ++ before) ++ [ChannelsById channel])
                         end
                         = fetch_pages api fuel uploads max_results [] None
                             (history ++ lookups)))).
  { intros channel before Hb Hn.
    exists (before ++ [ChannelsById channel]).
    split; [apply Forall_app; split; [exact Hb | now constructor]|].
    split; [rewrite length_app; simpl; lia|].
    rewrite <- (app_assoc history).
    destruct (channels_by_id api (history ++ before) channel)
      as [[|uploads more]|status]; eauto. }
  destruct (truthy channel_id).
  - specialize (Hgo (default "" channel_id) []).
    rewrite app_nil_r in Hgo. apply Hgo; [constructor | simpl; lia].
  - unfold _get_my_channel_id.
    destruct (channels_mine api history) as [[|id more]|status].
    + exists [ChannelsMine]. split; [now repeat constructor|].
      split; [simpl; lia | eauto].
    + apply (Hgo id [ChannelsMine]); [now repeat constructor | simpl; lia].
    + exists [ChannelsMine]. split; [now repeat constructor|].
      split; [simpl; lia | eauto].
Qed.

(** X8.  [get_channel_videos] ends after at most [max_results] page
    requests, each for between 1 and 50 items and never for more than
    [max_results]; at most two lookups come before them.  If the
    platform returns no more items than a request asks for, the list
    returned has at most [max_results] videos. *)
Theorem channel_listing_bounded (api : Api) (fuel : nat)
    (channel_id : option string) (max_results : Z) (history : list request) :
  (Z.to_nat max_results <= fuel)%nat ->
  exists r lookups pages,
    get_channel_videos api fuel channel_id max_results history
      = Some (r, history ++ lookups ++ pages)
    /\ Forall is_lookup lookups /\ (length lookups <= 2)%nat
    /\ Forall (page_request_ok max_results) pages
    /\ (length pages <= Z.to_nat max_results)%nat
    /\ (respects_page_size api ->
        forall videos, r = Ok videos ->
          Z.of_nat (length videos) <= Z.max 0 max_results).
Proof.
  intros Hfuel.
  destruct (get_channel_videos_cases api fuel channel_id max_results history)
    as (lookups & Hl & Hn & [[e Hrun]|[uploads Hrun]]).
  - exists (Raise e), lookups, []. rewrite app_nil_r.
    split; [exact Hrun|]. repeat split; auto; try constructor; try (simpl; lia).
    intros _ videos Hv. discriminate Hv.
  - destruct (fetch_pages_effect api fuel uploads max_results [] None
                (history ++ lookups))
      as (r & pages & Hpages & Hok & Hcount & Hres).
    { simpl. rewrite Z.sub_0_r. exact Hfuel. }
    exists r, lookups, pages.
    split; [now rewrite Hrun, Hpages, <- app_assoc|].
    simpl in Hcount. rewrite Z.sub_0_r in Hcount. repeat split; auto.
    intros Hresp videos ->. destruct Hres as [_ Hbound]. apply (Hbound Hresp).
Qed.

(** A platform that answers every lookup with one channel and every
    page request with [page]. *)
Definition constant_api (page : Page) : Api :=
  {| channels_mine := fun _ => Captions.Http200 ["UC1"];
     channels_by_id := fun _ _ => Captions.Http200 ["UU1"];
     playlist_items := fun _ _ _ _ => Captions.Http200 page;
     videos_list := fun _ _ => Captions.Http200 [];
     traffic_report := fun _ _ _ => Captions.Http200 [];
     subscriber_report := fun _ _ _ => Captions.Http200 [] |}.

Definition a_video (id : string) : VideoInfo :=
  {| vi_video_id := id; vi_title := "t"; vi_published_at := "2024-01-01T00:00:00Z";
     vi_description := "" |}.

Lemma channel_listing_bounded_witness :
  exists r lookups pages,
    get_channel_videos
      (constant_api {| items := [a_video "a"; a_video "b"];
                       nextPageToken := Some "next" |})
      3 None 3 [] = Some (r, [] ++ lookups ++ pages)
    /\ Forall is_lookup lookups /\ (length lookups <= 2)%nat
    /\ Forall (page_request_ok 3) pages
    /\ (length pages <= Z.to_nat 3)%nat
    /\ (respects_page_size
          (constant_api {| items := [a_video "a"; a_video "b"];
                           nextPageToken := Some "next" |}) ->
        forall videos, r = Ok videos ->
          Z.of_nat (length videos) <= Z.max 0 3).
Proof.
  apply (channel_listing_bounded _ 3%nat None 3 []). simpl. lia.
Defined.

(** X9.  The list is never cut to [max_results]: when the first page comes
    without a continuation token, all of its items are returned, however
    many were asked for. *)
Theorem channel_listing_keeps_whole_page (api : Api) (fuel : nat)
    (channel_id uploads : string) (more : list string) (max_results : Z)
    (history : list request) (page : Page) :
  truthy (Some channel_id) = true ->
  1 <= max_results ->
  channels_by_id api history channel_id = Captions.Http200 (uploads :: more) ->
  playlist_items api (history ++ [ChannelsById channel_id]) uploads
    (Z.min 50 max_results) None = Captions.Http200 page ->
  truthy (nextPageToken page) = false ->
  get_channel_videos api (S fuel) (Some channel_id) max_results history
    = Some (Ok (items page),
            history ++ [ChannelsById channel_id;
                        PlaylistItems uploads (Z.min 50 max_results) None]).
Proof.
  intros Hid Hmax Hchannel Hpage Htoken. unfold get_channel_videos.
  rewrite Hid. cbn [default]. unfold id. rewrite Hchannel.
  cbn [fetch_pages length truthy]. rewrite Z.sub_0_r.
  destruct (Z.ltb_spec (Z.of_nat 0) max_results) as [_|Hge]; [|simpl in Hge; lia].
  rewrite Hpage. cbv zeta. rewrite Htoken. cbn [negb app].
  now rewrite <- app_assoc.
Qed.

Lemma channel_listing_keeps_whole_page_witness :
  get_channel_videos
    (constant_api {| items := [a_video "a"; a_video "b"; a_video "c"];
                     nextPageToken := None |})
    1 (Some "UC1") 1 []
  = Some (Ok [a_video "a"; a_video "b"; a_video "c"],
          [] ++ [ChannelsById "UC1"; PlaylistItems "UU1" (Z.min 50 1) None]).
Proof.
  apply (channel_listing_keeps_whole_page
           (constant_api {| items := [a_video "a"; a_video "b"; a_video "c"];
                            nextPageToken := None |})
           0 "UC1" "UU1" [] 1 []
           {| items := [a_video "a"; a_video "b"; a_video "c"];
              nextPageToken := None |});
    first [reflexivity | lia].
Defined.

(** ** [get_video_analytics] *)

(** [d[key] = value] on a dictionary kept in insertion order: a key that
    is present keeps its place. *)
Fixpoint dict_set {V : Type} (key : string) (value : V) (d : dict V) : dict V :=
  match d with
  | [] => [(key, value)]
  | (k, v) :: rest =>
      if bool_decide (k = key) then (k, value) :: rest
      else (k, v) :: dict_set key value rest
  end.

(** The dictionary the method returns: a key it does not set is
    [None]; [subscribers_gained] can be set to [None]. *)
Record AnalyticsData : Type := {
  ad_traffic_sources : option (dict Z);
  ad_subscribers_gained : option (option Z)
}.

Definition no_analytics : AnalyticsData :=
  {| ad_traffic_sources := None; ad_subscribers_gained := None |}.

(** The default reporting window of the method; no caller passes
    another. *)
Definition start_date : string := "2023-01-01".
Definition end_date : string := "2025-12-31".

(** The loop that fills [traffic_sources] from the rows of the
    report. *)
Definition traffic_dict (rows : list (string * Z)) : dict Z :=
  fold_left (fun d row => dict_set row.1 row.2 d) rows [].

Definition sum_rows (rows : list Z) : Z := fold_left Z.add rows 0.

Section Analytics.

Variable api : Api.

(** [self.analytics] is set or not. *)
Variable has_analytics : bool.

(** [get_video_analytics(video_id, channel_id)] *)
Definition get_video_analytics (video_id : string) (channel_id : option string)
    (history : list request) : result AnalyticsData * list request :=
  if negb has_analytics then (Ok no_analytics, history)
  else
    let '(resolved, history) :=
      if truthy channel_id then (Ok (default "" channel_id), history)
      else _get_my_channel_id api history in
    match resolved with
    | Raise e => (Raise e, history)
    | Ok channel_id =>
        let history1 :=
          history ++ [TrafficQuery channel_id video_id start_date end_date] in
        match traffic_report api history channel_id video_id with
        | Captions.HttpError _ => (Ok no_analytics, history1)
        | Captions.Http200 rows =>
            let traffic_sources := traffic_dict rows in
            let history2 :=
              history1 ++ [SubscriberQuery channel_id video_id start_date end_date] in
            match subscriber_report api history1 channel_id video_id with
            | Captions.HttpError _ =>
                (Ok {| ad_traffic_sources := Some traffic_sources;
                       ad_subscribers_gained := Some None |}, history2)
            | Captions.Http200 rows =>
                (Ok {| ad_traffic_sources := Some traffic_sources;
                       ad_subscribers_gained := Some (Some (sum_rows rows)) |},
                 history2)
            end
        end
    end.

(** [video_stats['subscriber_count'] = subscribers_gained] *)
Definition set_subscriber_count (n : Z) (vs : Storage.VideoStats)
  : Storage.VideoStats :=
  {| Storage.vs_video_id := Storage.vs_video_id vs;
     Storage.vs_channel_id := Storage.vs_channel_id vs;
     Storage.vs_title := Storage.vs_title vs;
     Storage.vs_description := Storage.vs_description vs;
     Storage.vs_upload_time := Storage.vs_upload_time vs;
     Storage.vs_duration_seconds := Storage.vs_duration_seconds vs;
     Storage.vs_watch_url := Storage.vs_watch_url vs;
     Storage.vs_view_count := Storage.vs_view_count vs;
     Storage.vs_like_count := Storage.vs_like_count vs;
     Storage.vs_dislike_count := Storage.vs_dislike_count vs;
     Storage.vs_comment_count := Storage.vs_comment_count vs;
     Storage.vs_visibility := Storage.vs_visibility vs;
     Storage.vs_is_short := Storage.vs_is_short vs;
     Storage.vs_thumbnail_url := Storage.vs_thumbnail_url vs;
     Storage.vs_tags := Storage.vs_tags vs;
     Storage.vs_subscriber_count := Some n |}.

(** The statements both callers run for one video before they save:
    the statistics, then, when asked for and possible, the analytics.
    The result is the pair [video_stats], [traffic_sources]. *)
Definition collect (include_analytics : bool) (video_id : string)
    (channel_id : option string) (history : list request)
  : result (Storage.VideoStats * dict Z) * list request :=
  let history1 := history ++ [VideosList video_id] in
  match get_video_stats (videos_list api history video_id) video_id with
  | Raise e => (Raise e, history1)
  | Ok video_stats =>
      if include_analytics && has_analytics then
        match get_video_analytics video_id channel_id history1 with
        | (Raise e, history2) => (Raise e, history2)
        | (Ok analytics_data, history2) =>
            let traffic_sources := default [] (ad_traffic_sources analytics_data) in
            let subscribers_gained := mjoin (ad_subscribers_gained analytics_data) in
            (Ok (match subscribers_gained with
                 | Some n => set_subscriber_count n video_stats
                 | None => video_stats
                 end, traffic_sources), history2)
        end
      else (Ok (video_stats, []), history1)
  end.

(** ** [get_channel_video_stats] *)

Section ChannelVideoStats.

(** What the callback works on, and the callback: it is called in
    iteration [i] of the loop and may raise. *)
Context {Store : Type}.
Variable save_callback :
  option (nat -> Storage.VideoStats * dict Z -> Store -> result unit * Store).

Variable include_analytics : bool.

Record Progress : Type := {
  requests : list request;
  store : Store;
  saved_count : nat;
  detailed_videos : list (Storage.VideoStats * dict Z)
}.

(** One iteration of the loop: the outer [try] with its
    [except Exception: continue], the inner one around the callback. *)
Definition iteration (channel_id : string) (i : nat) (video : VideoInfo)
    (p : Progress) : Progress :=
  match collect include_analytics (vi_video_id video) (Some channel_id)
          (requests p) with
  | (Raise _, history) =>
      {| requests := history; store := store p; saved_count := saved_count p;
         detailed_videos := detailed_videos p |}
  | (Ok video_data, history) =>
      match save_callback with
      | Some save =>
          match save i video_data (store p) with
          | (Ok _, store') =>
              {| requests := history; store := store';
                 saved_count := S (saved_count p);
                 detailed_videos := detailed_videos p |}
          | (Raise _, store') =>
              {| requests := history; store := store';
                 saved_count := saved_count p;
                 detailed_videos := detailed_videos p |}
          end
      | None =>
          {| requests := history; store := store p; saved_count := saved_count p;
             detailed_videos := detailed_videos p ++ [video_data] |}
      end
  end.

Fixpoint for_each_video (channel_id : string) (i : nat) (videos : list VideoInfo)
    (p : Progress) : Progress :=
  match videos with
  | [] => p
  | video :: rest =>
      for_each_video channel_id (S i) rest (iteration channel_id i video p)
  end.

(** [get_channel_video_stats(channel_id, max_results, include_analytics,
    save_callback)]: the count of saved videos with a callback, the
    collected data without one. *)
Definition get_channel_video_stats (fuel : nat) (channel_id : option string)
    (max_results : Z) (s : Store) (history : list request)
  : option (result (nat + list (Storage.VideoStats * dict Z))
            * (Store * list request)) :=
  match get_channel_videos api fuel channel_id max_results history with
  | None => None
  | Some (Raise e, history) => Some (Raise e, (s, history))
  | Some (Ok videos, history) =>
      let '(resolved, history) :=
        if truthy channel_id then (Ok (default "" channel_id), history)
        else _get_my_channel_id api history in
      match resolved with
      | Raise e => Some (Raise e, (s, history))
      | Ok channel_id =>
          let p := for_each_video channel_id 1 videos
                     {| requests := history; store := s; saved_count := 0;
                        detailed_videos := [] |} in
          Some (Ok (match save_callback with
                    | Some _ => inl (saved_count p)
                    | None => inr (detailed_videos p)
                    end), (store p, requests p))
      end
  end.

End ChannelVideoStats.

End Analytics.

(** ** Facts about the analytics and the loop over a channel's videos *)

Definition is_videos_list (r : request) : bool :=
  match r with
  | VideosList _ => true
  | _ => false
  end.

Lemma filter_videos_list_none (l : list request) :
  Forall (fun r => is_videos_list r = false) l ->
  List.filter is_videos_list l = [].
Proof.
  induction 1 as [|r l Hr _ IH]; simpl; [reflexivity|]. now rewrite Hr.
Qed.

Section AnalyticsFacts.

Variable api : Api.
Variable has_analytics : bool.

Lemma my_channel_id_requests history :
  (_get_my_channel_id api history).2 = history ++ [ChannelsMine].
Proof.
  unfold _get_my_channel_id.
  now destruct (channels_mine api history) as [[|? ?]|?].
Qed.

(** The requests of [get_video_analytics]: none is for a video's
    statistics. *)
Lemma analytics_requests video_id channel_id history :
  exists more,
    (get_video_analytics api has_analytics video_id channel_id history).2
    = history ++ more
    /\ Forall (fun r => is_videos_list r = false) more.
Proof.
  unfold get_video_analytics.
  destruct has_analytics; cbn [negb];
    [|exists []; now rewrite app_nil_r].
  assert (Hquery : forall channel before,
            Forall (fun r => is_videos_list r = false) before ->
            exists more,
              (match traffic_report api (history ++ before) channel video_id with
               | Captions.Http200 rows =>
                   match subscriber_report api
                           ((history ++ before)
                            ++ [TrafficQuery channel video_id start_date end_date])
                           channel video_id with
                   | Captions.Http200 rows0 =>
                       (Ok {| ad_traffic_sources := Some (traffic_dict rows);
                              ad_subscribers_gained := Some (Some (sum_rows rows0)) |},
                        ((history ++ before)
                         ++ [TrafficQuery channel video_id start_date end_date])
                        ++ [SubscriberQuery channel video_id start_date end_date])
                   | Captions.HttpError _ =>
                       (Ok {| ad_traffic_sources := Some (traffic_dict rows);
                              ad_subscribers_gained := Some None |},
                        ((history ++ before)
                         ++ [TrafficQuery channel video_id start_date end_date])
                        ++ [SubscriberQuery channel video_id start_date end_date])
                   end
               | Captions.HttpError _ =>
                   (Ok no_analytics,
                    (history ++ before)
                    ++ [TrafficQuery channel video_id start_date end_date])
               end).2 = history ++ more
              /\ Forall (fun r => is_videos_list r = false) more).
  { intros channel before Hb.
    destruct (traffic_report api (history ++ before) channel video_id)
      as [rows|status].
    - exists (before ++ [TrafficQuery channel video_id start_date end_date;
                         SubscriberQuery channel video_id start_date end_date]).
      split.
      + destruct (subscriber_report api _ channel video_id); cbn [snd];
          now rewrite <- !app_assoc.
      + apply Forall_app. split; [exact Hb | now repeat constructor].
    - exists (before ++ [TrafficQuery channel video_id start_date end_date]).
      split; [cbn [snd]; now rewrite <- !app_assoc|].
      apply Forall_app. split; [exact Hb | now repeat constructor]. }
  destruct (truthy channel_id).
  - specialize (Hquery (default "" channel_id) []).
    rewrite app_nil_r in Hquery. apply Hquery. constructor.
  - pose proof (my_channel_id_requests history) as Hmine.
    destruct (_get_my_channel_id api history) as [[channel|e] history'];
      cbn [snd] in Hmine; subst history'.
    + apply (Hquery channel [ChannelsMine]). now repeat constructor.
    + exists [ChannelsMine]. split; [reflexivity | now repeat constructor].
Qed.

(** The requests of the statements run for one video: the one for its
    statistics, then those of the analytics. *)
Lemma collect_requests include_analytics video_id channel_id history :
  exists more,
    (collect api has_analytics include_analytics video_id channel_id history).2
    = history ++ VideosList video_id :: more
    /\ Forall (fun r => is_videos_list r = false) more.
Proof.
  unfold collect.
  destruct (get_video_stats (videos_list api history video_id) video_id)
    as [video_stats|e].
  - destruct (include_analytics && has_analytics).
    + destruct (analytics_requests video_id channel_id
                  (history ++ [VideosList video_id])) as (more & Hmore & Hnone).
      exists more.
      destruct (get_video_analytics api has_analytics video_id channel_id
                  (history ++ [VideosList video_id])) as [[data|e] history2];
        cbn [snd] in Hmore; subst history2; cbn [snd];
        (split; [now rewrite <- app_assoc | exact Hnone]).
    + exists []. split; [reflexivity | constructor].
  - exists []. split; [reflexivity | constructor].
Qed.

Section LoopFacts.

Context {Store : Type}.
Variable save_callback :
  option (nat -> Storage.VideoStats * dict Z -> Store -> result unit * Store).
Variable include_analytics : bool.

#[local] Abbreviation step := (iteration api has_analytics save_callback include_analytics).
#[local] Abbreviation steps :=
  (for_each_video api has_analytics save_callback include_analytics).

Lemma collect_and_save_effect channel_id i video (p : Progress) :
  List.filter is_videos_list (requests (step channel_id i video p))
  = List.filter is_videos_list (requests p) ++ [VideosList (vi_video_id video)]
  /\ (exists more, requests (step channel_id i video p) = requests p ++ more)
  /\ (saved_count p <= saved_count (step channel_id i video p)
      <= S (saved_count p))%nat
  /\ (save_callback = None ->
      store (step channel_id i video p) = store p
      /\ saved_count (step channel_id i video p) = saved_count p)
  /\ (save_callback <> None ->
      detailed_videos (step channel_id i video p) = detailed_videos p)
  /\ (length (detailed_videos (step channel_id i video p))
      + saved_count (step channel_id i video p)
      <= S (length (detailed_videos p) + saved_count p))%nat.
Proof.
  unfold iteration.
  destruct (collect_requests include_analytics (vi_video_id video)
              (Some channel_id) (requests p)) as (more & Hreq & Hnone).
  assert (Hfilter : List.filter is_videos_list
                      (requests p ++ VideosList (vi_video_id video) :: more)
                    = List.filter is_videos_list (requests p)
                      ++ [VideosList (vi_video_id video)]).
  { rewrite List.filter_app. cbn [List.filter is_videos_list].
    now rewrite (filter_videos_list_none _ Hnone). }
  destruct (collect api has_analytics include_analytics (vi_video_id video)
              (Some channel_id) (requests p)) as [[video_data|e] history];
    cbn [snd] in Hreq; subst history.
  - destruct save_callback as [save|].
    + destruct (save i video_data (store p)) as [[[]|e] store'];
        cbn [requests saved_count store detailed_videos];
        (split; [exact Hfilter|]); (split; [eauto|]); (split; [lia|]);
        (split; [discriminate|]); (split; [reflexivity | lia]).
    + cbn [requests saved_count store detailed_videos].
      split; [exact Hfilter|]. split; [eauto|]. split; [lia|]. split; [auto|].
      split; [congruence|]. rewrite length_app. simpl. lia.
  - cbn [requests saved_count store detailed_videos].
    split; [exact Hfilter|]. split; [eauto|]. split; [lia|]. split; [auto|].
    split; [reflexivity | lia].
Qed.

(** A video whose statistics or analytics raise is passed over: nothing
    is saved or collected for it, and the loop goes on. *)
Lemma iteration_failure channel_id i video (p : Progress) e history :
  collect api has_analytics include_analytics (vi_video_id video)
    (Some channel_id) (requests p) = (Raise e, history) ->
  step channel_id i video p
  = {| requests := history; store := store p; saved_count := saved_count p;
       detailed_videos := detailed_videos p |}.
Proof. unfold iteration. now intros ->. Qed.

(** The loop asks for the statistics of every listed video, in the
    order of the list, whatever happened to the videos before it; the
    count of saved videos grows by at most one per video; with a
    callback nothing is collected, and without one nothing is saved. *)
Lemma for_each_video_effect
    (channel_id : string) (i : nat) (videos : list VideoInfo) (p : Progress) :
  List.filter is_videos_list (requests (steps channel_id i videos p))
  = List.filter is_videos_list (requests p)
    ++ map (fun video => VideosList (vi_video_id video)) videos
  /\ (exists more, requests (steps channel_id i videos p) = requests p ++ more)
  /\ (saved_count p <= saved_count (steps channel_id i videos p)
      <= saved_count p + length videos)%nat
  /\ (save_callback = None ->
      store (steps channel_id i videos p) = store p
      /\ saved_count (steps channel_id i videos p) = saved_count p)
  /\ (save_callback <> None ->
      detailed_videos (steps channel_id i videos p) = detailed_videos p)
  /\ (length (detailed_videos (steps channel_id i videos p))
      + saved_count (steps channel_id i videos p)
      <= length (detailed_videos p) + saved_count p + length videos)%nat.
Proof.
  revert i p. induction videos as [|video rest IH]; intros i p;
    cbn [for_each_video map length].
  - rewrite app_nil_r. split; [reflexivity|].
    split; [exists []; now rewrite app_nil_r|]. repeat split; auto; lia.
  - destruct (collect_and_save_effect channel_id i video p)
      as (Hreq & [more Hmore] & Hcount & Hnone & Hsome & Hlen).
    destruct (IH (S i) (step channel_id i video p))
      as (Hreq' & [more' Hmore'] & Hcount' & Hnone' & Hsome' & Hlen').
    split; [now rewrite Hreq', Hreq, <- app_assoc|].
    split; [exists (more ++ more'); now rewrite Hmore', Hmore, <- app_assoc|].
    split; [lia|]. split.
    { intros Hcb. destruct (Hnone Hcb) as [H1 H2].
      destruct (Hnone' Hcb) as [H1' H2']. split; congruence. }
    split; [intros Hcb; now rewrite (Hsome' Hcb), (Hsome Hcb) | lia].
Qed.

End LoopFacts.

End AnalyticsFacts.

Lemma page_request_not_videos_list max_results pages :
  Forall (page_request_ok max_results) pages ->
  Forall (fun r => is_videos_list r = false) pages.
Proof.
  intros H. eapply Forall_impl; [exact H|].
  intros r Hr. destruct r; simpl in *; (reflexivity || contradiction).
Qed.

Lemma lookup_not_videos_list lookups :
  Forall is_lookup lookups -> Forall (fun r => is_videos_list r = false) lookups.
Proof.
  intros H. eapply Forall_impl; [exact H|].
  intros r Hr. destruct r; simpl in *; (reflexivity || contradiction).
Qed.

(** X10.  With enough fuel for the listing, [get_channel_video_stats] returns.
    An exception comes from the listing or from looking the channel up,
    before the statistics of any video were asked for, and leaves the
    store as it was.  Otherwise the statistics of every listed video
    were asked for, in the order of the list, and the count of saved
    videos (with a callback) or the list of collected videos (without
    one, the store being left alone) is no longer than the list.  If
    the platform returns no more items than a request asks for, the
    statistics of at most [max_results] videos are asked for. *)
Theorem channel_video_stats_bounded (api : Api) (has_analytics : bool)
    {Store : Type}
    (save_callback :
       option (nat -> Storage.VideoStats * dict Z -> Store -> result unit * Store))
    (include_analytics : bool) (fuel : nat) (channel_id : option string)
    (max_results : Z) (s : Store) (history : list request) :
  (Z.to_nat max_results <= fuel)%nat ->
  exists outcome store' more,
    get_channel_video_stats api has_analytics save_callback include_analytics
      fuel channel_id max_results s history
    = Some (outcome, (store', history ++ more))
    /\ match outcome with
       | Raise _ => store' = s /\ List.filter is_videos_list more = []
       | Ok returned =>
           exists videos listed,
             get_channel_videos api fuel channel_id max_results history
               = Some (Ok videos, listed)
             /\ List.filter is_videos_list more
                = map (fun video => VideosList (vi_video_id video)) videos
             /\ match returned with
                | inl saved =>
                    save_callback <> None /\ (saved <= length videos)%nat
                | inr collected =>
                    save_callback = None /\ store' = s
                    /\ (length collected <= length videos)%nat
                end
       end
    /\ (respects_page_size api ->
        (length (List.filter is_videos_list more) <= Z.to_nat max_results)%nat).
Proof.
  intros Hfuel. unfold get_channel_video_stats.
  destruct (get_channel_videos_cases api fuel channel_id max_results history)
    as (lookups & Hl & _ & [[e Hrun]|[uploads Hrun]]).
  { rewrite Hrun. exists (Raise e), s, lookups. split; [reflexivity|].
    rewrite (filter_videos_list_none _ (lookup_not_videos_list _ Hl)).
    split; [auto | simpl; lia]. }
  destruct (fetch_pages_effect api fuel uploads max_results [] None
              (history ++ lookups))
    as (r & pages & Hpages & Hok & _ & Hres).
  { simpl. rewrite Z.sub_0_r. exact Hfuel. }
  rewrite Hrun, Hpages.
  assert (Hlisting : List.filter is_videos_list (lookups ++ pages) = []).
  { apply filter_videos_list_none, Forall_app.
    split; [now apply lookup_not_videos_list
           | now apply (page_request_not_videos_list max_results)]. }
  destruct r as [videos|e]; cycle 1.
  { exists (Raise e), s, (lookups ++ pages).
    split; [now rewrite <- app_assoc|]. rewrite Hlisting.
    split; [auto | simpl; lia]. }
  destruct Hres as [_ Hbound].
  assert (Hloop : forall channel before,
            List.filter is_videos_list before = [] ->
            exists outcome store' more,
              Some (Ok (match save_callback with
                        | Some _ =>
                            inl (saved_count
                                   (for_each_video api has_analytics save_callback
                                      include_analytics channel 1 videos
                                      {| requests := history ++ before; store := s;
                                         saved_count := 0; detailed_videos := [] |}))
                        | None =>
                            inr (detailed_videos
                                   (for_each_video api has_analytics save_callback
                                      include_analytics channel 1 videos
                                      {| requests := history ++ before; store := s;
                                         saved_count := 0; detailed_videos := [] |}))
                        end),
                    (store (for_each_video api has_analytics save_callback
                              include_analytics channel 1 videos
                              {| requests := history ++ before; store := s;
                                 saved_count := 0; detailed_videos := [] |}),
                     requests (for_each_video api has_analytics save_callback
                                 include_analytics channel 1 videos
                                 {| requests := history ++ before; store := s;
                                    saved_count := 0; detailed_videos := [] |})))
              = Some (outcome, (store', history ++ more))
              /\ match outcome with
                 | Raise _ => store' = s /\ List.filter is_videos_list more = []
                 | Ok returned =>
                     exists videos0 listed,
                       Some (Ok videos, (history ++ lookups) ++ pages)
                         = Some (Ok videos0, listed)
                       /\ List.filter is_videos_list more
                          = map (fun video => VideosList (vi_video_id video)) videos0
                       /\ match returned with
                          | inl saved =>
                              save_callback <> None /\ (saved <= length videos0)%nat
                          | inr collected =>
                              save_callback = None /\ store' = s
                              /\ (length collected <= length videos0)%nat
                          end
                 end
              /\ (respects_page_size api ->
                  (length (List.filter is_videos_list more)
                   <= Z.to_nat max_results)%nat)).
  { intros channel before Hbefore.
    set (p0 := {| requests := history ++ before; store := s;
                  saved_count := 0; detailed_videos := [] |}).
    destruct (for_each_video_effect api has_analytics save_callback
                include_analytics channel 1 videos p0)
      as (Hreq & [more Hmore] & Hcount & Hnone & Hsome & Hlen).
    assert (Hfilter : List.filter is_videos_list (before ++ more)
                      = map (fun video => VideosList (vi_video_id video)) videos).
    { rewrite Hmore in Hreq. cbn [requests p0] in Hreq.
      rewrite !List.filter_app, Hbefore in Hreq.
      rewrite List.filter_app, Hbefore.
      exact (app_inv_head _ _ _ Hreq). }
    eexists _, _, (before ++ more).
    split; [rewrite Hmore; cbn [requests p0]; now rewrite <- app_assoc|].
    split.
    - exists videos, ((history ++ lookups) ++ pages).
      split; [reflexivity|]. split; [exact Hfilter|].
      destruct save_callback as [save|].
      + split; [discriminate | cbn [saved_count p0] in Hcount; lia].
      + destruct (Hnone eq_refl) as [Hstore _]. split; [reflexivity|].
        split; [exact Hstore | cbn [saved_count detailed_videos p0 length] in Hlen; lia].
    - intros Hresp. rewrite Hfilter, length_map.
      specialize (Hbound Hresp). simpl in Hbound. lia. }
  destruct (truthy channel_id).
  - destruct (Hloop (default "" channel_id) (lookups ++ pages) Hlisting)
      as (outcome & store' & more & Hrun' & Hrest).
    exists outcome, store', more. split; [|exact Hrest].
    rewrite <- Hrun'. now rewrite <- app_assoc.
  - pose proof (my_channel_id_requests api ((history ++ lookups) ++ pages))
      as Hmine.
    destruct (_get_my_channel_id api ((history ++ lookups) ++ pages))
      as [[channel|e] history'] eqn:Emine; cbn [snd] in Hmine; subst history'.
    + destruct (Hloop channel ((lookups ++ pages) ++ [ChannelsMine]))
        as (outcome & store' & more & Hrun' & Hrest).
      { rewrite List.filter_app, Hlisting. reflexivity. }
      exists outcome, store', more. split; [|exact Hrest].
      rewrite <- Hrun'. now rewrite <- !app_assoc.
    + exists (Raise e), s, ((lookups ++ pages) ++ [ChannelsMine]).
      split; [now rewrite <- !app_assoc|].
      rewrite List.filter_app, Hlisting. split; [auto | simpl; lia].
Qed.

(** A channel with two uploads: the statistics of the first are served,
    those of the second are refused. *)
Definition two_uploads : Api :=
  {| channels_mine := fun _ => Captions.Http200 ["UC1"];
     channels_by_id := fun _ _ => Captions.Http200 ["UU1"];
     playlist_items := fun _ _ _ _ =>
       Captions.Http200 {| items := [a_video "a"; a_video "b"];
                           nextPageToken := None |};
     videos_list := fun _ video_id =>
       if bool_decide (video_id = "a") then Captions.Http200 [day_long_clip]
       else Captions.HttpError 500;
     traffic_report := fun _ _ _ =>
       Captions.Http200 [("SEARCH", 5); ("SUGGESTED", 7); ("SEARCH", 6)];
     subscriber_report := fun _ _ _ => Captions.Http200 [1; 2] |}.

(** A callback that keeps what it is given. *)
Definition keep_video_data
  : nat -> Storage.VideoStats * dict Z -> list (string * dict Z)
    -> result unit * list (string * dict Z) :=
  fun _ video_data kept =>
    (Ok tt, kept ++ [(Storage.vs_video_id video_data.1, video_data.2)]).

Lemma channel_video_stats_bounded_witness :
  exists outcome store' more,
    get_channel_video_stats two_uploads true (Some keep_video_data) true
      2 None 2 [] []
    = Some (outcome, (store', [] ++ more))
    /\ match outcome with
       | Raise _ => store' = [] /\ List.filter is_videos_list more = []
       | Ok returned =>
           exists videos listed,
             get_channel_videos two_uploads 2 None 2 [] = Some (Ok videos, listed)
             /\ List.filter is_videos_list more
                = map (fun video => VideosList (vi_video_id video)) videos
             /\ match returned with
                | inl saved =>
                    Some keep_video_data <> None /\ (saved <= length videos)%nat
                | inr collected =>
                    Some keep_video_data = None /\ store' = []
                    /\ (length collected <= length videos)%nat
                end
       end
    /\ (respects_page_size two_uploads ->
        (length (List.filter is_videos_list more) <= Z.to_nat 2)%nat).
Proof.
  apply (channel_video_stats_bounded two_uploads true (Some keep_video_data)
           true 2%nat None 2 [] []).
  simpl. lia.
Defined.

(** On that channel one video is saved, with the traffic sources of the
    report, a source reported twice holding its last value at its first
    place. *)
Example two_uploads_saved :
  get_channel_video_stats two_uploads true (Some keep_video_data) true
    2 None 2 [] []
  = Some (Ok (inl 1%nat),
          ([("a", [("SEARCH", 6); ("SUGGESTED", 7)])],
           [ChannelsMine; ChannelsById "UC1"; PlaylistItems "UU1" 2 None;
            ChannelsMine; VideosList "a";
            TrafficQuery "UC1" "a" "2023-01-01" "2025-12-31";
            SubscriberQuery "UC1" "a" "2023-01-01" "2025-12-31";
            VideosList "b"])).
Proof. vm_compute. reflexivity. Qed.

(** ** The traffic sources of a report *)

Lemma dict_get_set_same {V} key (value : V) d :
  dict_get key (dict_set key value d) = Some value.
Proof.
  induction d as [|[k v] d IH]; simpl.
  - now rewrite bool_decide_eq_true_2.
  - destruct (bool_decide (k = key)) eqn:E; simpl; rewrite E; [reflexivity | exact IH].
Qed.

Lemma dict_get_set_other {V} key key' (value : V) d :
  key <> key' -> dict_get key' (dict_set key value d) = dict_get key' d.
Proof.
  intros Hne. induction d as [|[k v] d IH]; simpl.
  - now rewrite (bool_decide_eq_false_2 _ Hne).
  - destruct (bool_decide (k = key)) eqn:E; simpl.
    + apply bool_decide_eq_true_1 in E. subst k.
      now rewrite (bool_decide_eq_false_2 _ Hne).
    + destruct (bool_decide (k = key')); [reflexivity | exact IH].
Qed.

Lemma dict_set_keys {V} key (value : V) d :
  map fst (dict_set key value d)
  = if bool_decide (key ∈ map fst d) then map fst d else map fst d ++ [key].
Proof.
  induction d as [|[k v] d IH]; cbn [dict_set map fst].
  - destruct (bool_decide (key ∈ [])) eqn:E; [|reflexivity].
    apply bool_decide_eq_true_1, elem_of_nil in E. contradiction.
  - destruct (bool_decide (k = key)) eqn:E; cbn [map fst].
    + apply bool_decide_eq_true_1 in E. subst k.
      rewrite bool_decide_eq_true_2; [reflexivity | apply elem_of_cons; now left].
    + apply bool_decide_eq_false_1 in E. rewrite IH.
      destruct (bool_decide (key ∈ map fst d)) eqn:Ein.
      * apply bool_decide_eq_true_1 in Ein.
        rewrite bool_decide_eq_true_2; [reflexivity | apply elem_of_cons; now right].
      * apply bool_decide_eq_false_1 in Ein.
        rewrite bool_decide_eq_false_2; [reflexivity|].
        intros H. apply elem_of_cons in H as [H|H]; [congruence | contradiction].
Qed.

Lemma dict_set_length {V} key (value : V) d :
  (length (dict_set key value d) <= S (length d))%nat.
Proof.
  induction d as [|[k v] d IH]; simpl; [lia|].
  destruct (bool_decide (k = key)); simpl; lia.
Qed.

Lemma traffic_dict_snoc rows row :
  traffic_dict (rows ++ [row]) = dict_set row.1 row.2 (traffic_dict rows).
Proof. unfold traffic_dict. now rewrite fold_left_app. Qed.

(** X11.  The dictionary of traffic sources has one entry for each source of
    the report; a source the report lists more than once has the views
    of its last row, not their sum. *)
Theorem traffic_dict_last_row_wins (rows : list (string * Z)) :
  NoDup (map fst (traffic_dict rows))
  /\ (forall source,
        dict_get source (traffic_dict rows)
        = option_map snd
            (List.find (fun row => bool_decide (row.1 = source)) (rev rows)))
  /\ (forall source, source ∈ map fst (traffic_dict rows) <-> source ∈ map fst rows)
  /\ (length (traffic_dict rows) <= length rows)%nat.
Proof.
  induction rows as [|[source views] rows (Hnodup & Hget & Hkeys & Hlen)]
    using rev_ind.
  - split; [constructor|]. split; [reflexivity|]. split; [reflexivity | simpl; lia].
  - rewrite traffic_dict_snoc. cbn [fst snd]. split; [|split; [|split]].
    + rewrite dict_set_keys.
      destruct (bool_decide (source ∈ map fst (traffic_dict rows))) eqn:E;
        [exact Hnodup|].
      apply bool_decide_eq_false_1 in E.
      apply NoDup_app. split; [exact Hnodup|]. split; [|apply NoDup_singleton].
      intros k Hk Hin. apply list_elem_of_singleton in Hin. congruence.
    + intros k. rewrite rev_app_distr. cbn [rev app List.find fst].
      destruct (bool_decide (source = k)) eqn:E.
      * apply bool_decide_eq_true_1 in E. subst k. apply dict_get_set_same.
      * apply bool_decide_eq_false_1 in E.
        rewrite dict_get_set_other by exact E. apply Hget.
    + intros k. rewrite dict_set_keys, map_app. cbn [map fst].
      rewrite elem_of_app, list_elem_of_singleton, <- Hkeys.
      destruct (bool_decide (source ∈ map fst (traffic_dict rows))) eqn:E.
      * apply bool_decide_eq_true_1 in E. split; [auto|]. intros [H|H]; congruence.
      * rewrite elem_of_app, list_elem_of_singleton. tauto.
    + pose proof (dict_set_length source views (traffic_dict rows)).
      rewrite length_app. simpl. lia.
Qed.

(** ** What the callback keeps, the loop keeps *)

Section StoreInvariant.

Variable api : Api.
Variable has_analytics : bool.
Context {Store : Type}.
Variable save : nat -> Storage.VideoStats * dict Z -> Store -> result unit * Store.
Variable include_analytics : bool.
Variable kept : Store -> Prop.

Hypothesis save_keeps : forall i video_data s, kept s -> kept (save i video_data s).2.

Lemma for_each_video_invariant channel_id i videos (p : Progress) :
  kept (store p) ->
  kept (store (for_each_video api has_analytics (Some save) include_analytics
                 channel_id i videos p)).
Proof.
  revert i p. induction videos as [|video rest IH]; intros i p Hp;
    cbn [for_each_video]; [exact Hp|].
  apply IH. unfold iteration.
  destruct (collect api has_analytics include_analytics (vi_video_id video)
              (Some channel_id) (requests p)) as [[video_data|e] history];
    [|exact Hp].
  pose proof (save_keeps i video_data (store p) Hp) as Hs.
  destruct (save i video_data (store p)) as [[[]|e] store']; exact Hs.
Qed.

Lemma get_channel_video_stats_invariant fuel channel_id max_results s history :
  (Z.to_nat max_results <= fuel)%nat ->
  kept s ->
  exists outcome store' history',
    get_channel_video_stats api has_analytics (Some save) include_analytics
      fuel channel_id max_results s history
    = Some (outcome, (store', history'))
    /\ kept store'
    /\ (forall returned, outcome = Ok returned -> exists saved, returned = inl saved).
Proof.
  intros Hfuel Hs. unfold get_channel_video_stats.
  destruct (get_channel_videos_cases api fuel channel_id max_results history)
    as (lookups & _ & _ & [[e Hrun]|[uploads Hrun]]).
  { rewrite Hrun. eexists _, _, _. split; [reflexivity|].
    split; [exact Hs | discriminate]. }
  destruct (fetch_pages_effect api fuel uploads max_results [] None
              (history ++ lookups)) as (r & pages & Hpages & _).
  { simpl. rewrite Z.sub_0_r. exact Hfuel. }
  rewrite Hrun, Hpages. destruct r as [videos|e]; cycle 1.
  { eexists _, _, _. split; [reflexivity|]. split; [exact Hs | discriminate]. }
  destruct (if truthy channel_id
            then (Ok (default "" channel_id), (history ++ lookups) ++ pages)
            else _get_my_channel_id api ((history ++ lookups) ++ pages))
    as [[channel|e] history1].
  - eexists _, _, _. split; [reflexivity|].
    split; [now apply for_each_video_invariant|].
    intros returned [= <-]. eauto.
  - eexists _, _, _. split; [reflexivity|]. split; [exact Hs | discriminate].
Qed.

End StoreInvariant.

(** ** The loop as a run from an initial state *)

Section LoopRun.

Variable api : Api.
Variable has_analytics : bool.
Context {Store : Type}.
Variable save : nat -> Storage.VideoStats * dict Z -> Store -> result unit * Store.
Variable include_analytics : bool.

(** With a callback, [get_channel_video_stats] either raises with the
    store as it was, or returns the count of the loop run from the
    store as it was. *)
Lemma get_channel_video_stats_run fuel channel_id max_results s history :
  (Z.to_nat max_results <= fuel)%nat ->
  (exists e history',
     get_channel_video_stats api has_analytics (Some save) include_analytics
       fuel channel_id max_results s history = Some (Raise e, (s, history')))
  \/ (exists channel videos history1,
        get_channel_video_stats api has_analytics (Some save) include_analytics
          fuel channel_id max_results s history
        = Some (Ok (inl (saved_count
                           (for_each_video api has_analytics (Some save)
                              include_analytics channel 1 videos
                              {| requests := history1; store := s;
                                 saved_count := 0; detailed_videos := [] |}))),
                (store (for_each_video api has_analytics (Some save)
                          include_analytics channel 1 videos
                          {| requests := history1; store := s;
                             saved_count := 0; detailed_videos := [] |}),
                 requests (for_each_video api has_analytics (Some save)
                             include_analytics channel 1 videos
                             {| requests := history1; store := s;
                                saved_count := 0; detailed_videos := [] |})))).
Proof.
  intros Hfuel. unfold get_channel_video_stats.
  destruct (get_channel_videos_cases api fuel channel_id max_results history)
    as (lookups & _ & _ & [[e Hrun]|[uploads Hrun]]).
  { rewrite Hrun. left. eauto. }
  destruct (fetch_pages_effect api fuel uploads max_results [] None
              (history ++ lookups)) as (r & pages & Hpages & _).
  { simpl. rewrite Z.sub_0_r. exact Hfuel. }
  rewrite Hrun, Hpages. destruct r as [videos|e]; [|left; eauto].
  destruct (if truthy channel_id
            then (Ok (default "" channel_id), (history ++ lookups) ++ pages)
            else _get_my_channel_id api ((history ++ lookups) ++ pages))
    as [[channel|e] history1]; [right | left]; eauto.
Qed.

(** What every iteration keeps, the loop keeps. *)
Lemma for_each_video_keeps (kept : @Progress Store -> Prop)
    (save_callback :
       option (nat -> Storage.VideoStats * dict Z -> Store -> result unit * Store)) :
  (forall channel_id i video p,
     kept p ->
     kept (iteration api has_analytics save_callback include_analytics
             channel_id i video p)) ->
  forall channel_id i videos p,
    kept p ->
    kept (for_each_video api has_analytics save_callback include_analytics
            channel_id i videos p).
Proof.
  intros Hstep channel_id i videos. revert i.
  induction videos as [|video rest IH]; intros i p Hp; cbn [for_each_video];
    [exact Hp|]. apply IH, Hstep, Hp.
Qed.

End LoopRun.

(** ** The traffic sources collected for a video *)

Lemma traffic_dict_nodup (rows : list (string * Z)) :
  NoDup (map fst (traffic_dict rows)).
Proof.
  induction rows as [|[source views] rows IH] using rev_ind; [constructor|].
  rewrite traffic_dict_snoc, dict_set_keys. cbn [fst snd].
  destruct (bool_decide (source ∈ map fst (traffic_dict rows))) eqn:E; [exact IH|].
  apply bool_decide_eq_false_1 in E.
  apply NoDup_app. split; [exact IH|]. split; [|apply NoDup_singleton].
  intros k Hk Hin. apply list_elem_of_singleton in Hin. congruence.
Qed.

Lemma analytics_traffic_nodup api has_analytics video_id channel_id history data history' :
  get_video_analytics api has_analytics video_id channel_id history
    = (Ok data, history') ->
  NoDup (map fst (default [] (ad_traffic_sources data))).
Proof.
  unfold get_video_analytics. destruct has_analytics; cbn [negb];
    [|intros [= <- _]; constructor].
  destruct (if truthy channel_id then (Ok (default "" channel_id), history)
            else _get_my_channel_id api history) as [[channel|e] history1];
    [|discriminate].
  destruct (traffic_report api history1 channel video_id) as [rows|status];
    [|intros [= <- _]; constructor].
  destruct (subscriber_report api _ channel video_id);
    intros [= <- _]; apply traffic_dict_nodup.
Qed.

Lemma collect_traffic_nodup api has_analytics include_analytics video_id channel_id
    history vs ts history' :
  collect api has_analytics include_analytics video_id channel_id history
    = (Ok (vs, ts), history') ->
  NoDup (map fst ts).
Proof.
  unfold collect.
  destruct (get_video_stats _ video_id) as [vs0|e]; [|discriminate].
  destruct (include_analytics && has_analytics); [|intros [= _ <- _]; constructor].
  destruct (get_video_analytics api has_analytics video_id channel_id _)
    as [[data|e] h] eqn:Hdata; [|discriminate].
  intros [= _ <- _]. eapply analytics_traffic_nodup, Hdata.
Qed.

End Client.

(* ================================================================== *)
(** * show_mapper.py: selecting and updating videos                     *)
(* ================================================================== *)

Module Mapping.

Import Py ShowMapper Storage.

(** The [options] section of the configuration; an absent key is
    [None]. *)
Record Options : Type := {
  update_only_empty : option bool;
  max_videos : option Z;
  dry_run : option bool
}.

(** The dictionary [stats] of [process_videos]. *)
Record MappingStats : Type := {
  total_processed : nat;
  shows_mapped : nat;
  episodes_mapped : nat;
  no_match : nat
}.

Definition stats_zero : MappingStats :=
  {| total_processed := 0; shows_mapped := 0; episodes_mapped := 0; no_match := 0 |}.

(** [WHERE (show IS NULL OR show = '') AND (episode_num IS NULL OR
    episode_num = 0) AND exclude_from_stats = 0] *)
Definition show_is_empty (r : VideoStatsRow) : bool :=
  match show r with
  | None => true
  | Some s => bool_decide (s = "")
  end.

Definition episode_is_empty (r : VideoStatsRow) : bool :=
  match episode_num r with
  | None => true
  | Some n => n =? 0
  end.

Definition needs_mapping (r : VideoStatsRow) : bool :=
  show_is_empty r && episode_is_empty r && (exclude_from_stats r =? 0).

(** [SET show = ?, episode_num = ?, last_updated = CURRENT_TIMESTAMP] on
    one row. *)
Definition set_show_episode (now : timestamp) (show_name : string)
    (episode : option Z) (r : VideoStatsRow) : VideoStatsRow :=
  {| id := id r;
     video_id := video_id r;
     channel_id := channel_id r;
     title := title r;
     description := description r;
     upload_time := upload_time r;
     duration := duration r;
     watch_url := watch_url r;
     view_count := view_count r;
     like_count := like_count r;
     dislike_count := dislike_count r;
     comment_count := comment_count r;
     visibility := visibility r;
     is_short := is_short r;
     show := Some show_name;
     episode_num := episode;
     thumbnail_url := thumbnail_url r;
     exclude_from_stats := exclude_from_stats r;
     tags := tags r;
     subscriber_count := subscriber_count r;
     collected_at := collected_at r;
     last_updated := now |}.

(** [update_video_show_episode(video_id, show_name, episode_num, dry_run)]
    at clock reading [now]. *)
Definition update_video_show_episode (now : timestamp) (vid show_name : string)
    (episode : option Z) (dry : bool) (rows : list VideoStatsRow)
  : list VideoStatsRow :=
  if dry then rows
  else map (fun r => if bool_decide (video_id r = vid)
                     then set_show_episode now show_name episode r else r) rows.

(** The two branches of the loop body on [stats]. *)
Definition count_mapped (episode : option Z) (s : MappingStats) : MappingStats :=
  {| total_processed := S (total_processed s);
     shows_mapped := S (shows_mapped s);
     episodes_mapped :=
       match episode with
       | Some _ => S (episodes_mapped s)
       | None => episodes_mapped s
       end;
     no_match := no_match s |}.

Definition count_no_match (s : MappingStats) : MappingStats :=
  {| total_processed := S (total_processed s);
     shows_mapped := shows_mapped s;
     episodes_mapped := episodes_mapped s;
     no_match := S (no_match s) |}.

Section Mapper.

Variable re_search : string -> string -> result (option Match).

(** [config['show_patterns']] and [config['options']]. *)
Variable patterns : list Pattern.
Variable options : Options.

(** [ORDER BY upload_time DESC]: SQLite fixes the order of the rows up
    to the rows that share an upload time, so the ordering is taken as
    given. *)
Variable order_rows : list VideoStatsRow -> list VideoStatsRow.

(** [get_videos_to_update()] *)
Definition get_videos_to_update (rows : list VideoStatsRow)
  : list (string * string) :=
  let selected :=
    if default true (update_only_empty options)
    then List.filter needs_mapping rows
    else List.filter (fun r => exclude_from_stats r =? 0) rows in
  let ordered := order_rows selected in
  let max_videos := default 0 (max_videos options) in
  map (fun r => (video_id r, title r))
    (if 0 <? max_videos then take (Z.to_nat max_videos) ordered else ordered).

(** The [for i, (video_id, title) in enumerate(videos, 1)] loop.  The
    update of iteration [i] is made at clock reading [clock i].  An
    exception of [_extract_show_episode] leaves the loop and the method;
    the updates made before it are committed. *)
Fixpoint for_each (dry : bool) (clock : nat -> timestamp) (i : nat)
    (videos : list (string * string)) (rows : list VideoStatsRow)
    (stats : MappingStats) : result MappingStats * list VideoStatsRow :=
  match videos with
  | [] => (Ok stats, rows)
  | (vid, video_title) :: rest =>
      match _extract_show_episode re_search patterns video_title with
      | Raise e => (Raise e, rows)
      | Ok (show_name, episode) =>
          if truthy show_name then
            for_each dry clock (S i) rest
              (update_video_show_episode (clock i) vid (default "" show_name)
                 episode dry rows)
              (count_mapped episode stats)
          else for_each dry clock (S i) rest rows (count_no_match stats)
      end
  end.

(** [process_videos(dry_run)] on table [video_stats]: the returned
    [stats] (or the exception) and the table afterwards. *)
Definition process_videos (dry : option bool) (clock : nat -> timestamp)
    (rows : list VideoStatsRow) : result MappingStats * list VideoStatsRow :=
  let dry :=
    match dry with
    | Some b => b
    | None => default false (dry_run options)
    end in
  let videos := get_videos_to_update rows in
  for_each dry clock 1 videos rows stats_zero.

(** ** The loop, row by row *)

(** What the loop makes of one row. *)
Fixpoint row_after (dry : bool) (clock : nat -> timestamp) (i : nat)
    (videos : list (string * string)) (r : VideoStatsRow) : VideoStatsRow :=
  match videos with
  | [] => r
  | (vid, video_title) :: rest =>
      match _extract_show_episode re_search patterns video_title with
      | Raise _ => r
      | Ok (show_name, episode) =>
          if truthy show_name then
            row_after dry clock (S i) rest
              (if dry then r
               else if bool_decide (video_id r = vid)
                    then set_show_episode (clock i) (default "" show_name) episode r
                    else r)
          else row_after dry clock (S i) rest r
      end
  end.

Lemma for_each_rows dry clock i videos rows stats :
  (for_each dry clock i videos rows stats).2
  = map (row_after dry clock i videos) rows.
Proof.
  revert i rows stats.
  induction videos as [|[vid video_title] rest IH]; intros i rows stats;
    cbn [for_each row_after].
  - now rewrite map_id.
  - destruct (_extract_show_episode re_search patterns video_title)
      as [[show_name episode]|e]; [|now rewrite map_id].
    destruct (truthy show_name); [|apply IH].
    rewrite IH. unfold update_video_show_episode.
    destruct dry; [reflexivity|]. now rewrite map_map.
Qed.



(** The counters of a run that returns. *)
Lemma for_each_counts dry clock i videos rows stats stats' rows' :
  for_each dry clock i videos rows stats = (Ok stats', rows') ->
  (total_processed stats' = total_processed stats + length videos
   /\ shows_mapped stats' + no_match stats'
      = shows_mapped stats + no_match stats + length videos
   /\ shows_mapped stats <= shows_mapped stats'
   /\ no_match stats <= no_match stats'
   /\ episodes_mapped stats <= episodes_mapped stats'
   /\ episodes_mapped stats' - episodes_mapped stats
      <= shows_mapped stats' - shows_mapped stats)%nat.
Proof.
  revert i rows stats.
  induction videos as [|[vid video_title] rest IH]; intros i rows stats;
    cbn [for_each length].
  - intros [= <- _]. lia.
  - destruct (_extract_show_episode re_search patterns video_title)
      as [[show_name episode]|e]; [|discriminate].
    destruct (truthy show_name); intros H; apply IH in H;
      [destruct episode|]; simpl in H; lia.
Qed.

End Mapper.

(** ** What a run does to the table and what it reports *)

Lemma set_show_twice now now' s s' e e' r :
  set_show_episode now' s' e' (set_show_episode now s e r)
  = set_show_episode now' s' e' r.
Proof. reflexivity. Qed.

Lemma truthy_nonempty (o : option string) :
  truthy o = true -> default "" o <> "".
Proof.
  destruct o as [s|]; [|discriminate]. simpl.
  intros H Hs. subst s. discriminate H.
Qed.

Lemma needs_mapping_show now s e r :
  s <> "" -> needs_mapping (set_show_episode now s e r) = false.
Proof.
  intros Hs. unfold needs_mapping, show_is_empty. cbn [show set_show_episode].
  now rewrite (bool_decide_eq_false_2 _ Hs).
Qed.

Section MapperFacts.

Variable re_search : string -> string -> result (option Match).
Variable patterns : list Pattern.
Variable options : Options.
Variable order_rows : list VideoStatsRow -> list VideoStatsRow.

(** The ordering returns the rows it is given. *)
Hypothesis order_permutation :
  forall rows, Permutation (order_rows rows) rows.

#[local] Abbreviation extract := (_extract_show_episode re_search patterns).
#[local] Abbreviation candidates := (get_videos_to_update options order_rows).
#[local] Abbreviation run := (process_videos re_search patterns options order_rows).
#[local] Abbreviation loop := (for_each re_search patterns).
#[local] Abbreviation after := (row_after re_search patterns).

(** A row of the loop's result is the row it was, or that row with the
    three columns of the UPDATE set, the show to a non-empty text. *)
Lemma row_after_shape clock i videos r :
  after false clock i videos r = r
  \/ exists now s e,
       s <> "" /\ after false clock i videos r = set_show_episode now s e r.
Proof.
  revert i r. induction videos as [|[vid video_title] rest IH]; intros i r;
    cbn [row_after]; [now left|].
  destruct (extract video_title) as [[show_name episode]|e]; [|now left].
  destruct (truthy show_name) eqn:Ht; [|apply IH].
  destruct (bool_decide (video_id r = vid)); [|apply IH].
  right.
  destruct (IH (S i) (set_show_episode (clock i) (default "" show_name) episode r))
    as [->|(now & s & e & Hs & ->)].
  - eexists _, _, _. split; [|reflexivity]. now apply truthy_nonempty.
  - exists now, s, e. split; [exact Hs | apply set_show_twice].
Qed.

(** A row whose video id is not among the listed videos is left alone. *)
Lemma row_after_unlisted clock i videos r :
  video_id r ∉ map fst videos -> after false clock i videos r = r.
Proof.
  revert i. induction videos as [|[vid video_title] rest IH]; intros i Hnot;
    cbn [row_after]; [reflexivity|].
  cbn [map fst] in Hnot. apply not_elem_of_cons in Hnot as [Hne Hrest].
  destruct (extract video_title) as [[show_name episode]|e]; [|reflexivity].
  rewrite (bool_decide_eq_false_2 _ Hne).
  destruct (truthy show_name); now apply IH.
Qed.

(** A row that still needs a mapping after a run that returned was not
    updated, and no listed video with its id resolved to a show. *)
Lemma row_after_needs clock i videos r :
  Forall (fun v => exists outcome, extract v.2 = Ok outcome) videos ->
  needs_mapping (after false clock i videos r) = true ->
  after false clock i videos r = r
  /\ forall vid video_title, (vid, video_title) ∈ videos -> vid = video_id r ->
       exists show_name episode,
         extract video_title = Ok (show_name, episode)
         /\ truthy show_name = false.
Proof.
  revert i r. induction videos as [|[vid video_title] rest IH]; intros i r Hok;
    cbn [row_after].
  - intros _. split; [reflexivity|]. intros ? ? H. now apply elem_of_nil in H.
  - apply Forall_cons in Hok as [[[show_name episode] Hhead] Hok].
    cbn [snd] in Hhead. rewrite Hhead.
    destruct (truthy show_name) eqn:Ht.
    + destruct (bool_decide (video_id r = vid)) eqn:Hid.
      * intros Hneeds. exfalso.
        destruct (row_after_shape clock (S i) rest
                    (set_show_episode (clock i) (default "" show_name) episode r))
          as [Hsame|(now & s & e & Hs & Hset)].
        -- rewrite Hsame, needs_mapping_show in Hneeds;
             [discriminate | now apply truthy_nonempty].
        -- rewrite Hset, needs_mapping_show in Hneeds; [discriminate | exact Hs].
      * intros Hneeds. destruct (IH (S i) r Hok Hneeds) as [Hsame Hrest].
        split; [exact Hsame|]. intros vid' title' Hin Hvid.
        apply elem_of_cons in Hin as [[= -> ->]|Hin]; [|exact (Hrest _ _ Hin Hvid)].
        apply bool_decide_eq_false_1 in Hid. congruence.
    + intros Hneeds. destruct (IH (S i) r Hok Hneeds) as [Hsame Hrest].
      split; [exact Hsame|]. intros vid' title' Hin Hvid.
      apply elem_of_cons in Hin as [[= -> ->]|Hin]; [|exact (Hrest _ _ Hin Hvid)].
      eauto.
Qed.

(** A loop that returns read a show or none from every title. *)
Lemma for_each_returned dry clock i videos rows stats stats' rows' :
  loop dry clock i videos rows stats = (Ok stats', rows') ->
  Forall (fun v => exists outcome, extract v.2 = Ok outcome) videos.
Proof.
  revert i rows stats.
  induction videos as [|[vid video_title] rest IH]; intros i rows stats;
    cbn [for_each]; [constructor|].
  destruct (extract video_title) as [[show_name episode]|e] eqn:He;
    [|discriminate].
  intros H. constructor; [eauto|].
  destruct (truthy show_name); eapply IH; exact H.
Qed.

(** On titles that resolve to no show the loop only counts. *)
Lemma for_each_no_show dry clock i videos rows stats :
  Forall (fun v => exists show_name episode,
            extract v.2 = Ok (show_name, episode) /\ truthy show_name = false)
    videos ->
  loop dry clock i videos rows stats
  = (Ok {| total_processed := total_processed stats + length videos;
           shows_mapped := shows_mapped stats;
           episodes_mapped := episodes_mapped stats;
           no_match := no_match stats + length videos |}, rows).
Proof.
  revert i stats.
  induction videos as [|[vid video_title] rest IH]; intros i stats Hall;
    cbn [for_each length].
  - rewrite !Nat.add_0_r. now destruct stats.
  - apply Forall_cons in Hall as [(show_name & episode & He & Ht) Hall].
    cbn [snd] in He. rewrite He, Ht, (IH _ _ Hall). cbn.
    do 2 f_equal. f_equal; lia.
Qed.


(** The listed videos are rows of the table that the selection keeps. *)
Lemma candidates_from_rows rows vid video_title :
  (vid, video_title) ∈ candidates rows ->
  exists r, r ∈ rows /\ video_id r = vid /\ title r = video_title
    /\ exclude_from_stats r = 0
    /\ (default true (update_only_empty options) = true -> needs_mapping r = true).
Proof.
  unfold get_videos_to_update. intros Hin.
  apply list_elem_of_fmap in Hin as (r & [= -> ->] & Hin).
  exists r.
  assert (Hord : r ∈ order_rows
                   (if default true (update_only_empty options)
                    then List.filter needs_mapping rows
                    else List.filter (fun r => exclude_from_stats r =? 0) rows)).
  { destruct (0 <? default 0 (max_videos options)); [|exact Hin].
    exact (elem_of_sublist _ _ _ Hin (sublist_take _ _)). }
  rewrite order_permutation in Hord.
  apply list_elem_of_In in Hord.
  destruct (default true (update_only_empty options));
    apply List.filter_In in Hord as [Hr Hsel]; apply list_elem_of_In in Hr.
  - repeat split; auto. unfold needs_mapping in Hsel.
    apply andb_true_iff in Hsel as [_ Hx]. now apply Z.eqb_eq.
  - repeat split; auto; [now apply Z.eqb_eq | discriminate].
Qed.

(** Without a limit, every row that needs a mapping is listed. *)
Lemma candidates_complete rows r :
  default true (update_only_empty options) = true ->
  default 0 (max_videos options) <= 0 ->
  r ∈ rows -> needs_mapping r = true ->
  (video_id r, title r) ∈ candidates rows.
Proof.
  intros Hempty Hmax Hr Hneeds. unfold get_videos_to_update.
  rewrite Hempty.
  destruct (Z.ltb_spec 0 (default 0 (max_videos options))); [lia|].
  apply (list_elem_of_fmap_2 (fun r => (video_id r, title r))).
  rewrite order_permutation. apply list_elem_of_In, List.filter_In.
  split; [now apply list_elem_of_In | exact Hneeds].
Qed.

Lemma candidates_length rows :
  (length (candidates rows) <= length rows)%nat
  /\ (0 < default 0 (max_videos options) ->
      Z.of_nat (length (candidates rows)) <= default 0 (max_videos options)).
Proof.
  unfold get_videos_to_update. rewrite length_map.
  set (selected := if default true (update_only_empty options)
                   then List.filter needs_mapping rows
                   else List.filter (fun r => exclude_from_stats r =? 0) rows).
  assert (Hsel : (length (order_rows selected) <= length rows)%nat).
  { rewrite (Permutation_length (order_permutation selected)). unfold selected.
    destruct (default true (update_only_empty options)); apply List.filter_length_le. }
  destruct (Z.ltb_spec 0 (default 0 (max_videos options))) as [Hpos|Hnot].
  - rewrite length_take. split; lia.
  - split; [exact Hsel | lia].
Qed.

(** X12.  Every video the run looks at is counted once, as mapped or as
    without match; episodes are counted only for mapped videos; the run
    looks at no more videos than the table has rows, nor than a positive
    [max_videos] allows. *)
Theorem mapping_counters_partition (dry : option bool) (clock : nat -> timestamp)
    (rows rows' : list VideoStatsRow) (stats : MappingStats) :
  process_videos re_search patterns options order_rows dry clock rows
    = (Ok stats, rows') ->
  total_processed stats = length (get_videos_to_update options order_rows rows)
  /\ (total_processed stats = shows_mapped stats + no_match stats)%nat
  /\ (episodes_mapped stats <= shows_mapped stats)%nat
  /\ (total_processed stats <= length rows)%nat
  /\ (0 < default 0 (max_videos options) ->
      Z.of_nat (total_processed stats) <= default 0 (max_videos options)).
Proof.
  unfold process_videos. intros H. apply for_each_counts in H. simpl in H.
  destruct (candidates_length rows) as [Hlen Hmax].
  destruct H as (Ht & Hs & _ & _ & _ & He). rewrite Ht.
  repeat split; lia.
Qed.


(** X14.  Under the default selection a run, whether it returns or raises,
    keeps the number and order of the rows and changes at most the show,
    the episode and the update time of a row; with unique video ids, a
    row that has a show or an episode already, or is excluded, is left
    as it is. *)
Theorem mapping_frame (clock : nat -> timestamp) (rows : list VideoStatsRow)
    (k : nat) (r : VideoStatsRow) :
  default true (update_only_empty options) = true ->
  NoDup (map video_id rows) ->
  rows !! k = Some r ->
  exists r',
    (process_videos re_search patterns options order_rows (Some false) clock rows).2 !! k
      = Some r'
    /\ length (process_videos re_search patterns options order_rows (Some false) clock rows).2
       = length rows
    /\ (r' = r \/ exists now s e, s <> "" /\ r' = set_show_episode now s e r)
    /\ (needs_mapping r = false -> r' = r).
Proof.
  intros Hempty Hunique Hk. unfold process_videos. rewrite for_each_rows.
  exists (after false clock 1%nat (candidates rows) r).
  split; [now rewrite list_lookup_fmap, Hk|].
  split; [apply length_map|]. split; [apply row_after_shape|].
  intros Hneeds. apply row_after_unlisted. intros Hin.
  apply list_elem_of_fmap in Hin as ([vid video_title] & Hvid & Hin).
  cbn [fst] in Hvid. subst vid.
  apply candidates_from_rows in Hin as (r2 & Hr2 & Hid & _ & _ & Hsel).
  specialize (Hsel Hempty).
  assert (r2 = r); [|congruence].
  apply list_elem_of_lookup_1 in Hr2 as [k2 Hk2].
  assert (k2 = k); [|congruence].
  eapply (NoDup_lookup _ k2 k (video_id r) Hunique);
    rewrite list_lookup_fmap; [rewrite Hk2 | rewrite Hk]; simpl; congruence.
Qed.

(** X15.  After a run over all videos that need a mapping has returned, a
    second run maps nothing and changes nothing: the videos it looks at
    are those the first run found no show for. *)
Theorem second_run_maps_nothing (clock clock' : nat -> timestamp)
    (rows rows1 : list VideoStatsRow) (stats1 : MappingStats) :
  default true (update_only_empty options) = true ->
  default 0 (max_videos options) <= 0 ->
  process_videos re_search patterns options order_rows (Some false) clock rows
    = (Ok stats1, rows1) ->
  exists stats2,
    process_videos re_search patterns options order_rows (Some false) clock' rows1
      = (Ok stats2, rows1)
    /\ shows_mapped stats2 = 0%nat
    /\ episodes_mapped stats2 = 0%nat
    /\ no_match stats2 = total_processed stats2.
Proof.
  intros Hempty Hmax Hrun.
  assert (Hrows : rows1 = map (after false clock 1%nat (candidates rows)) rows).
  { unfold process_videos in Hrun.
    pose proof (for_each_rows re_search patterns false clock 1%nat
                  (candidates rows) rows stats_zero) as H.
    now rewrite Hrun in H. }
  pose proof (for_each_returned _ _ _ _ _ _ _ _ Hrun) as Hok.
  assert (Hnone : Forall (fun v => exists show_name episode,
                            extract v.2 = Ok (show_name, episode)
                            /\ truthy show_name = false) (candidates rows1)).
  { apply Forall_forall. intros [vid video_title] Hin. cbn [snd].
    apply candidates_from_rows in Hin as (r' & Hr' & Hid & Htitle & _ & Hsel).
    specialize (Hsel Hempty). rewrite Hrows in Hr'.
    apply list_elem_of_fmap in Hr' as (r & -> & Hr).
    destruct (row_after_needs clock 1%nat (candidates rows) r Hok Hsel)
      as [Hsame Hno].
    rewrite Hsame in Hsel, Hid, Htitle.
    apply (Hno (video_id r) video_title); [|reflexivity].
    rewrite <- Htitle. now apply candidates_complete. }
  unfold process_videos. rewrite (for_each_no_show _ _ _ _ _ _ Hnone).
  eexists. split; [reflexivity|]. simpl. auto.
Qed.


(** ** What a run writes for a listed video *)

Lemma filter_sublist {A} (p : A -> bool) (l : list A) :
  List.filter p l `sublist_of` l.
Proof.
  induction l as [|x l IH]; cbn [List.filter]; [constructor|].
  destruct (p x); [now apply sublist_skip | now apply sublist_cons].
Qed.

Lemma sublist_map {A B} (f : A -> B) (l1 l2 : list A) :
  l1 `sublist_of` l2 -> map f l1 `sublist_of` map f l2.
Proof. induction 1; cbn [map]; [constructor | now apply sublist_skip | now apply sublist_cons]. Qed.

(** With unique video ids in the table, no video is listed twice. *)
Lemma candidates_unique rows :
  NoDup (map video_id rows) -> NoDup (map fst (candidates rows)).
Proof.
  intros Hunique. unfold get_videos_to_update. rewrite map_map. cbn [fst].
  set (selected := if default true (update_only_empty options)
                   then List.filter needs_mapping rows
                   else List.filter (fun r => exclude_from_stats r =? 0) rows).
  assert (Hsel : NoDup (map video_id selected)).
  { apply (sublist_NoDup _ _ Hunique).
    apply sublist_map. unfold selected.
    destruct (default true (update_only_empty options)); apply filter_sublist. }
  assert (Hord : NoDup (map video_id (order_rows selected))).
  { now rewrite (Permutation_map video_id (order_permutation selected)). }
  destruct (0 <? default 0 (max_videos options)); [|exact Hord].
  apply (sublist_NoDup _ _ Hord).
  apply sublist_map, sublist_take.
Qed.

(** Among videos listed once each, a row is updated by the entry with
    its id and by no other. *)
Lemma row_after_listed clock i videos r video_title :
  NoDup (map fst videos) ->
  (video_id r, video_title) ∈ videos ->
  Forall (fun v => exists outcome, extract v.2 = Ok outcome) videos ->
  exists show_name episode,
    extract video_title = Ok (show_name, episode)
    /\ if truthy show_name
       then exists j, after false clock i videos r
                      = set_show_episode (clock j) (default "" show_name) episode r
       else after false clock i videos r = r.
Proof.
  revert i. induction videos as [|[vid title0] rest IH]; intros i Hnodup Hin Hok.
  - now apply elem_of_nil in Hin.
  - cbn [map fst] in Hnodup. apply NoDup_cons in Hnodup as [Hhead Hnodup].
    apply Forall_cons in Hok as [[[show_name episode] Hextract] Hok].
    cbn [snd] in Hextract. cbn [row_after]. rewrite Hextract.
    apply elem_of_cons in Hin as [[= <- <-]|Hin].
    + exists show_name, episode. split; [exact Hextract|].
      rewrite bool_decide_eq_true_2 by reflexivity.
      destruct (truthy show_name).
      * exists i. apply row_after_unlisted. exact Hhead.
      * apply row_after_unlisted. exact Hhead.
    + assert (Hne : video_id r <> vid).
      { intros <-. apply Hhead.
        apply (list_elem_of_fmap_2 fst) in Hin. exact Hin. }
      rewrite (bool_decide_eq_false_2 _ Hne).
      destruct (truthy show_name); apply IH; assumption.
Qed.

(** X17.  With unique video ids, a run that returns has written, for every
    listed video, what the extraction gives for its title: the show and
    the episode, were the episode empty, replace what the row held, and
    a video without a show for its title keeps its row. *)
Theorem mapping_writes_extracted_show (clock : nat -> timestamp)
    (rows rows' : list VideoStatsRow) (stats : MappingStats)
    (k : nat) (r : VideoStatsRow) :
  NoDup (map video_id rows) ->
  process_videos re_search patterns options order_rows (Some false) clock rows
    = (Ok stats, rows') ->
  rows !! k = Some r ->
  (video_id r, title r) ∈ get_videos_to_update options order_rows rows ->
  exists r' show_name episode,
    rows' !! k = Some r'
    /\ _extract_show_episode re_search patterns (title r) = Ok (show_name, episode)
    /\ if truthy show_name
       then show r' = Some (default "" show_name) /\ episode_num r' = episode
            /\ exists j, r' = set_show_episode (clock j) (default "" show_name)
                                episode r
       else r' = r.
Proof.
  intros Hunique Hrun Hk Hlisted.
  pose proof (for_each_returned _ _ _ _ _ _ _ _ Hrun) as Hok.
  assert (Hrows : rows' = map (after false clock 1%nat (candidates rows)) rows).
  { unfold process_videos in Hrun.
    pose proof (for_each_rows re_search patterns false clock 1%nat
                  (candidates rows) rows stats_zero) as H.
    now rewrite Hrun in H. }
  destruct (row_after_listed clock 1%nat (candidates rows) r (title r)
              (candidates_unique rows Hunique) Hlisted Hok)
    as (show_name & episode & Hextract & Hafter).
  exists (after false clock 1%nat (candidates rows) r), show_name, episode.
  split; [now rewrite Hrows, list_lookup_fmap, Hk|]. split; [exact Hextract|].
  destruct (truthy show_name); [|exact Hafter].
  destruct Hafter as [j Hj]. rewrite Hj. repeat split. now exists j.
Qed.

End MapperFacts.

(** ** A concrete ordering and table *)

(** [ORDER BY upload_time DESC] by insertion, rows with equal upload
    times in table order. *)
Fixpoint insert_by_upload_time (r : VideoStatsRow) (sorted : list VideoStatsRow)
  : list VideoStatsRow :=
  match sorted with
  | [] => [r]
  | x :: rest =>
      if String.ltb (upload_time x) (upload_time r)
      then r :: sorted
      else x :: insert_by_upload_time r rest
  end.

Definition sort_by_upload_time_desc (rows : list VideoStatsRow)
  : list VideoStatsRow :=
  fold_right insert_by_upload_time [] rows.

Lemma insert_by_upload_time_permutation r sorted :
  Permutation (insert_by_upload_time r sorted) (r :: sorted).
Proof.
  induction sorted as [|x rest IH]; simpl; [reflexivity|].
  destruct (String.ltb (upload_time x) (upload_time r)); [reflexivity|].
  rewrite IH. apply perm_swap.
Qed.

Lemma sort_by_upload_time_desc_permutation rows :
  Permutation (sort_by_upload_time_desc rows) rows.
Proof.
  induction rows as [|r rows IH]; simpl; [reflexivity|].
  rewrite insert_by_upload_time_permutation. now constructor.
Qed.

Definition stored_video (n : Z) (vid video_title uploaded : string)
    (show_name : option string) (excluded : Z) : VideoStatsRow :=
  {| id := n; video_id := vid; channel_id := "UC1"; title := video_title;
     description := ""; upload_time := uploaded; duration := 600;
     watch_url := "https://www.youtube.com/watch?v=" +:+ vid;
     view_count := 10; like_count := 1; dislike_count := 0; comment_count := 0;
     visibility := Some "public"; is_short := false; show := show_name;
     episode_num := None; thumbnail_url := None; exclude_from_stats := excluded;
     tags := None; subscriber_count := None; collected_at := 50;
     last_updated := 50 |}.

Definition talk_pattern : Pattern :=
  {| enabled := None; title_regex := Some "Tech Talk"; name := Some "Tech Talk";
     show_group := None; episode_regex := Some "#(\d+)"; episode_group := None |}.


Definition default_options : Options :=
  {| update_only_empty := None; max_videos := None; dry_run := None |}.

Definition library : list VideoStatsRow :=
  [ stored_video 1 "v1" "Tech Talk #12" "2024-01-01T00:00:00Z" None 0;
    stored_video 2 "v2" "Cooking at home" "2024-03-01T00:00:00Z" None 0;
    stored_video 3 "v3" "Tech Talk #3" "2024-02-01T00:00:00Z" (Some "Old name") 0;
    stored_video 4 "v4" "Tech Talk #4" "2024-04-01T00:00:00Z" None 1 ].

Definition tick (i : nat) : timestamp := 100 + Z.of_nat i.

(** What a run on [library] reports. *)
Definition library_stats : MappingStats :=
  {| total_processed := 2; shows_mapped := 1; episodes_mapped := 1; no_match := 1 |}.

Lemma mapping_counters_partition_witness :
  total_processed library_stats
    = length (get_videos_to_update default_options sort_by_upload_time_desc library)
  /\ (total_processed library_stats
      = shows_mapped library_stats + no_match library_stats)%nat
  /\ (episodes_mapped library_stats <= shows_mapped library_stats)%nat
  /\ (total_processed library_stats <= length library)%nat
  /\ (0 < default 0 (max_videos default_options) ->
      Z.of_nat (total_processed library_stats)
      <= default 0 (max_videos default_options)).
Proof.
  apply (mapping_counters_partition model_search [talk_pattern] default_options
           sort_by_upload_time_desc sort_by_upload_time_desc_permutation
           (Some false) tick library
           (process_videos model_search [talk_pattern] default_options
              sort_by_upload_time_desc (Some false) tick library).2).
  vm_compute. reflexivity.
Defined.

Lemma mapping_frame_witness :
  exists r',
    (process_videos model_search [talk_pattern] default_options
       sort_by_upload_time_desc (Some false) tick library).2 !! 2%nat = Some r'
    /\ length (process_videos model_search [talk_pattern] default_options
                 sort_by_upload_time_desc (Some false) tick library).2
       = length library
    /\ (r' = stored_video 3 "v3" "Tech Talk #3" "2024-02-01T00:00:00Z"
               (Some "Old name") 0
        \/ exists now s e,
             s <> "" /\
             r' = set_show_episode now s e
                    (stored_video 3 "v3" "Tech Talk #3" "2024-02-01T00:00:00Z"
                       (Some "Old name") 0))
    /\ (needs_mapping (stored_video 3 "v3" "Tech Talk #3" "2024-02-01T00:00:00Z"
                         (Some "Old name") 0) = false ->
        r' = stored_video 3 "v3" "Tech Talk #3" "2024-02-01T00:00:00Z"
               (Some "Old name") 0).
Proof.
  apply (mapping_frame model_search [talk_pattern] default_options
           sort_by_upload_time_desc sort_by_upload_time_desc_permutation
           tick library 2%nat).
  - reflexivity.
  - apply (bool_decide_unpack (NoDup _)). vm_compute. exact I.
  - reflexivity.
Defined.

Lemma second_run_maps_nothing_witness :
  exists stats2,
    process_videos model_search [talk_pattern] default_options
      sort_by_upload_time_desc (Some false) tick
      (process_videos model_search [talk_pattern] default_options
         sort_by_upload_time_desc (Some false) tick library).2
    = (Ok stats2,
       (process_videos model_search [talk_pattern] default_options
          sort_by_upload_time_desc (Some false) tick library).2)
    /\ shows_mapped stats2 = 0%nat
    /\ episodes_mapped stats2 = 0%nat
    /\ no_match stats2 = total_processed stats2.
Proof.
  apply (second_run_maps_nothing model_search [talk_pattern] default_options
           sort_by_upload_time_desc sort_by_upload_time_desc_permutation
           tick tick library _ library_stats).
  - reflexivity.
  - simpl. lia.
  - vm_compute. reflexivity.
Defined.



(** The oldest video of [library]. *)
Definition first_talk : VideoStatsRow :=
  stored_video 1 "v1" "Tech Talk #12" "2024-01-01T00:00:00Z" None 0.

Lemma mapping_writes_extracted_show_witness :
  exists r' show_name episode,
    (process_videos model_search [talk_pattern] default_options
       sort_by_upload_time_desc (Some false) tick library).2 !! 0%nat = Some r'
    /\ _extract_show_episode model_search [talk_pattern] (title first_talk)
       = Ok (show_name, episode)
    /\ if truthy show_name
       then show r' = Some (default "" show_name) /\ episode_num r' = episode
            /\ exists j, r' = set_show_episode (tick j) (default "" show_name)
                                episode first_talk
       else r' = first_talk.
Proof.
  apply (mapping_writes_extracted_show model_search [talk_pattern] default_options
           sort_by_upload_time_desc sort_by_upload_time_desc_permutation
           tick library _ library_stats 0%nat first_talk).
  - apply (bool_decide_unpack (NoDup _)). vm_compute. exact I.
  - vm_compute. reflexivity.
  - reflexivity.
  - apply (bool_decide_unpack (_ ∈ _)). vm_compute. exact I.
Defined.

Example first_talk_mapped :
  map (fun r => (video_id r, show r, episode_num r, last_updated r))
    (process_videos model_search [talk_pattern] default_options
       sort_by_upload_time_desc (Some false) tick library).2
  = [("v1", Some "Tech Talk", Some 12, 102); ("v2", None, None, 50);
     ("v3", Some "Old name", None, 50); ("v4", None, None, 50)].
Proof. vm_compute. reflexivity. Qed.

End Mapping.

(* ================================================================== *)
(** * cli.py: the [video-stats] command with the SQLite output          *)
(* ================================================================== *)

Module Cli.

Import Py Storage.

(** [storage.save_video_stats_db(video_stats, traffic_sources)], the
    callback of the command, called at clock reading [clock i]. *)
Definition save_callback (clock : nat -> timestamp)
  : nat -> VideoStats * Client.dict Z -> Db -> result unit * Db :=
  fun i video_data db =>
    (Ok tt, save_video_stats_db (clock i) video_data.1 (Some video_data.2) db).

Section Command.

Variable api : Client.Api.
Variable re_search : string -> string -> result (option ShowMapper.Match).
Variable order_rows : list VideoStatsRow -> list VideoStatsRow.

(** The show patterns file as [ShowMapper] loads it; [None] when the
    file is missing or is not valid YAML. *)
Variable config : option (list ShowMapper.Pattern * Mapping.Options).

(** The [try] block around [ShowMapper(...).process_videos(dry_run=False)]:
    each of its [except] clauses goes on with the command, and the
    updates made before an exception stay. *)
Definition apply_show_mapping (clock : nat -> timestamp) (db : Db) : Db :=
  match config with
  | None => db
  | Some (patterns, options) =>
      {| video_stats :=
           (Mapping.process_videos re_search patterns options order_rows
              (Some false) clock (video_stats db)).2;
         video_stats_seq := video_stats_seq db;
         traffic_sources := traffic_sources db;
         traffic_sources_seq := traffic_sources_seq db |}
  end.

(** [video_stats] with [--output sqlite]: the number of saved videos, or
    the exception the command reports before it exits with status 1.
    The three clocks give the times of the saves and of the two runs of
    the show mapping. *)
Definition video_stats (video_id channel_id : option string) (max_videos : Z)
    (include_analytics analytics_available : bool) (fuel : nat)
    (save_clock mapping_clock mapping_clock' : nat -> timestamp)
    (db : Db) (history : list Client.request)
  : option (result nat * (Db * list Client.request)) :=
  let has_analytics := include_analytics && analytics_available in
  if truthy video_id then
    match Client.collect api has_analytics include_analytics
            (default "" video_id) channel_id history with
    | (Raise e, history) => Some (Raise e, (db, history))
    | (Ok (video_stats, traffic_sources), history) =>
        let db := save_video_stats_db (save_clock 1%nat) video_stats
                    (Some traffic_sources) db in
        let saved_count := 1%nat in
        let db := apply_show_mapping mapping_clock db in
        let db := if (0 <? saved_count)%nat
                  then apply_show_mapping mapping_clock' db else db in
        Some (Ok saved_count, (db, history))
    end
  else
    match Client.get_channel_video_stats api has_analytics
            (Some (save_callback save_clock)) include_analytics
            fuel channel_id max_videos db history with
    | None => None
    | Some (Raise e, state) => Some (Raise e, state)
    | Some (Ok (inl saved_count), (db, history)) =>
        let db := if (0 <? saved_count)%nat
                  then apply_show_mapping mapping_clock db else db in
        Some (Ok saved_count, (db, history))
    | Some (Ok (inr _), state) => Some (Raise TypeError, state)
    end.

End Command.

(** ** What the command never does to a stored video *)

(** The columns of a row that neither the upsert nor the show mapping
    writes. *)
Definition row_key (r : VideoStatsRow) : Z * string * timestamp * Z :=
  (id r, video_id r, collected_at r, exclude_from_stats r).

(** The rows of [before] are all in [after], at their places and with
    their keys, and the video ids stay unique. *)
Definition rows_kept (before after : Db) : Prop :=
  (exists added,
     map row_key (Storage.video_stats after) = map row_key (Storage.video_stats before) ++ added)
  /\ (unique_video_id before -> unique_video_id after).

Lemma rows_kept_refl db : rows_kept db db.
Proof. split; [exists []; now rewrite app_nil_r | auto]. Qed.

Lemma rows_kept_trans a b c : rows_kept a b -> rows_kept b c -> rows_kept a c.
Proof.
  intros [[added Hab] Hu] [[added' Hbc] Hu']. split; [|auto].
  exists (added ++ added'). now rewrite Hbc, Hab, <- app_assoc.
Qed.

Lemma update_video_keys now vs rows :
  map row_key (update_video now vs rows) = map row_key rows.
Proof.
  unfold update_video. rewrite map_map. apply map_ext. intros r.
  now destruct (bool_decide (video_id r = vs_video_id vs)).
Qed.

Lemma save_rows_kept now vs traffic db :
  rows_kept db (save_video_stats_db now vs traffic db).
Proof.
  split; [|apply save_unique]. rewrite save_video_rows.
  destruct (select_id (vs_video_id vs) (Storage.video_stats db)).
  - exists []. now rewrite app_nil_r, update_video_keys.
  - eexists. now rewrite map_app.
Qed.

Section CommandFacts.

Variable api : Client.Api.
Variable re_search : string -> string -> result (option ShowMapper.Match).
Variable order_rows : list VideoStatsRow -> list VideoStatsRow.
Variable config : option (list ShowMapper.Pattern * Mapping.Options).

Lemma row_after_key patterns clock i videos r :
  row_key (Mapping.row_after re_search patterns false clock i videos r) = row_key r.
Proof.
  destruct (Mapping.row_after_shape re_search patterns clock i videos r)
    as [->|(now & s & e & _ & ->)]; reflexivity.
Qed.

Lemma mapping_rows_kept clock db :
  rows_kept db (apply_show_mapping re_search order_rows config clock db).
Proof.
  unfold apply_show_mapping. destruct config as [[patterns options]|];
    [|apply rows_kept_refl].
  unfold Mapping.process_videos. rewrite Mapping.for_each_rows.
  assert (Hkeys : forall videos,
            map row_key (map (Mapping.row_after re_search patterns false clock 1
                                videos) (Storage.video_stats db))
            = map row_key (Storage.video_stats db)).
  { intros videos. rewrite map_map. apply map_ext. intros r.
    apply row_after_key. }
  split; cbn [Storage.video_stats].
  - exists []. now rewrite app_nil_r, Hkeys.
  - unfold unique_video_id. cbn [Storage.video_stats]. intros Hunique.
    rewrite map_map.
    rewrite (map_ext _ video_id); [exact Hunique|].
    intros r. pose proof (row_after_key patterns clock 1%nat
                            (Mapping.get_videos_to_update options order_rows
                               (Storage.video_stats db)) r) as Hkey.
    unfold row_key in Hkey. congruence.
Qed.

(** X18.  With enough fuel for the listing the command ends, and whatever it
    did, saved, mapped or reported an error, the rows that were in the
    table are still there, in their places, each with its id, video id,
    time of first collection and exclusion flag; and the video ids are
    unique if they were. *)
Theorem video_stats_command_keeps_rows
    (video_id channel_id : option string) (max_videos : Z)
    (include_analytics analytics_available : bool) (fuel : nat)
    (save_clock mapping_clock mapping_clock' : nat -> timestamp)
    (db : Db) (history : list Client.request) :
  (Z.to_nat max_videos <= fuel)%nat ->
  exists outcome db' history',
    video_stats api re_search order_rows config video_id channel_id max_videos
      include_analytics analytics_available fuel
      save_clock mapping_clock mapping_clock' db history
    = Some (outcome, (db', history'))
    /\ rows_kept db db'.
Proof.
  intros Hfuel. unfold video_stats. destruct (truthy video_id).
  - destruct (Client.collect api (include_analytics && analytics_available)
                include_analytics (default "" video_id) channel_id history)
      as [[[vs ts]|e] history'].
    + eexists _, _, _. split; [reflexivity|]. cbn [Nat.ltb Nat.leb].
      eapply rows_kept_trans; [apply save_rows_kept|].
      eapply rows_kept_trans; apply mapping_rows_kept.
    + eexists _, _, _. split; [reflexivity | apply rows_kept_refl].
  - destruct (Client.get_channel_video_stats_invariant api
                (include_analytics && analytics_available)
                (save_callback save_clock) include_analytics (rows_kept db)
                (fun i vd s H => rows_kept_trans _ _ _ H (save_rows_kept _ _ _ s))
                fuel channel_id max_videos db history Hfuel (rows_kept_refl db))
      as (outcome & db1 & history1 & -> & Hkept & Hsaved).
    destruct outcome as [returned|e].
    + destruct (Hsaved returned eq_refl) as [saved ->].
      eexists _, _, _. split; [reflexivity|].
      destruct (0 <? saved)%nat; [|exact Hkept].
      eapply rows_kept_trans; [exact Hkept | apply mapping_rows_kept].
    + eexists _, _, _. split; [reflexivity | exact Hkept].
Qed.


(** ** One video: what is stored is what was collected *)

Lemma get_video_stats_fixed response video vs :
  Client.get_video_stats response video = Ok vs ->
  vs_video_id vs = video /\ vs_subscriber_count vs = None.
Proof.
  unfold Client.get_video_stats.
  destruct response as [[|item more]|status]; try discriminate.
  destruct (Client._parse_duration _); [|discriminate]. cbn [rbind].
  destruct (Client.stat_int (Client.viewCount _)); [|discriminate]. cbn [rbind].
  destruct (Client.stat_int (Client.likeCount _)); [|discriminate]. cbn [rbind].
  destruct (Client.stat_int (Client.dislikeCount _)); [|discriminate]. cbn [rbind].
  destruct (Client.stat_int (Client.commentCount _)); [|discriminate]. cbn [rbind].
  intros [= <-]. split; reflexivity.
Qed.

Lemma collect_video_id has_analytics include_analytics video channel_id history
    vs ts history' :
  Client.collect api has_analytics include_analytics video channel_id history
    = (Ok (vs, ts), history') ->
  vs_video_id vs = video.
Proof.
  unfold Client.collect.
  destruct (Client.get_video_stats _ video) as [vs0|e] eqn:Hstats; [|discriminate].
  apply get_video_stats_fixed in Hstats as [Hid _].
  destruct (include_analytics && has_analytics).
  - destruct (Client.get_video_analytics _ _ _ _ _) as [[data|e] h]; [|discriminate].
    intros [= <- _ _]. now destruct (mjoin (Client.ad_subscribers_gained data)).
  - now intros [= <- _ _].
Qed.

(** Without analytics the pair collected for a video is its statistics
    and no traffic source. *)
Lemma collect_without_analytics include_analytics video channel_id history :
  Client.collect api false include_analytics video channel_id history
  = (match Client.get_video_stats (Client.videos_list api history video) video with
     | Ok vs => Ok (vs, [])
     | Raise e => Raise e
     end, history ++ [Client.VideosList video]).
Proof.
  unfold Client.collect. rewrite andb_false_r.
  now destruct (Client.get_video_stats _ video).
Qed.

Lemma save_rows_of now vs traffic db :
  unique_video_id db ->
  exists r,
    rows_of (vs_video_id vs) (save_video_stats_db now vs traffic db) = [r]
    /\ written_from vs r.
Proof.
  intros Hunique. unfold rows_of. rewrite save_video_rows.
  destruct (select_id (vs_video_id vs) (Storage.video_stats db)) as [n|] eqn:Hsel.
  - unfold select_id in Hsel.
    destruct (List.filter (fun r => bool_decide (video_id r = vs_video_id vs))
                (Storage.video_stats db)) as [|old rest] eqn:Hf; [discriminate|].
    assert (Hold : In old (Storage.video_stats db) /\ video_id old = vs_video_id vs).
    { assert (Hin : In old (old :: rest)) by now left.
      rewrite <- Hf in Hin. apply List.filter_In in Hin as [Hin Hid].
      split; [exact Hin | now apply bool_decide_eq_true_1 in Hid]. }
    destruct Hold as [Hin Hid].
    rewrite update_video_same, (filter_key_unique _ _ _ old Hunique Hin Hid).
    exists (update_row now vs old). split; [reflexivity|].
    now apply written_from_update.
  - apply select_id_none in Hsel. rewrite List.filter_app, Hsel.
    cbn [List.filter insert_row video_id app].
    rewrite bool_decide_eq_true_2 by reflexivity.
    eexists. split; [reflexivity | apply written_from_insert].
Qed.

Lemma filter_map_key {A} (f : A -> A) (key : A -> string) (k : string) (l : list A) :
  (forall x, key (f x) = key x) ->
  List.filter (fun r => bool_decide (key r = k)) (map f l)
  = map f (List.filter (fun r => bool_decide (key r = k)) l).
Proof.
  intros Hkey. induction l as [|x l IH]; [reflexivity|]. cbn [map List.filter].
  rewrite Hkey. destruct (bool_decide (key x = k)); cbn [map]; now rewrite IH.
Qed.

Lemma row_after_written patterns clock i videos vs r :
  written_from vs r ->
  written_from vs (Mapping.row_after re_search patterns false clock i videos r).
Proof.
  destruct (Mapping.row_after_shape re_search patterns clock i videos r)
    as [->|(now & s & e & _ & ->)]; [auto|].
  unfold written_from. now cbn.
Qed.

(** The show mapping leaves the traffic sources alone, and of the rows
    of one video it changes nothing the upsert wrote. *)
Lemma mapping_rows_of clock db video vs r :
  rows_of video db = [r] -> written_from vs r ->
  traffic_sources (apply_show_mapping re_search order_rows config clock db)
    = traffic_sources db
  /\ exists r',
       rows_of video (apply_show_mapping re_search order_rows config clock db) = [r']
       /\ written_from vs r'.
Proof.
  intros Hrows Hr. unfold apply_show_mapping.
  destruct config as [[patterns options]|]; [|eauto].
  split; [reflexivity|]. unfold rows_of in *. cbn [Storage.video_stats].
  unfold Mapping.process_videos. rewrite Mapping.for_each_rows.
  rewrite (filter_map_key _ video_id).
  - rewrite Hrows. eexists. split; [reflexivity|]. now apply row_after_written.
  - intros x. pose proof (row_after_key patterns clock 1%nat
                            (Mapping.get_videos_to_update options order_rows
                               (Storage.video_stats db)) x) as Hkey.
    unfold row_key in Hkey. congruence.
Qed.

Lemma single_video_effect (video : string) (channel_id : option string)
    (max_videos : Z) (include_analytics analytics_available : bool) (fuel : nat)
    (save_clock mapping_clock mapping_clock' : nat -> timestamp)
    (db : Db) (history history' : list Client.request)
    (vs : VideoStats) (ts : Client.dict Z) :
  truthy (Some video) = true ->
  unique_video_id db ->
  Client.collect api (include_analytics && analytics_available) include_analytics
    video channel_id history = (Ok (vs, ts), history') ->
  exists db' r,
    video_stats api re_search order_rows config (Some video) channel_id max_videos
      include_analytics analytics_available fuel
      save_clock mapping_clock mapping_clock' db history
    = Some (Ok 1%nat, (db', history'))
    /\ rows_of video db' = [r] /\ written_from vs r
    /\ traffic_sources db'
       = traffic_sources (save_video_stats_db (save_clock 1%nat) vs (Some ts) db).
Proof.
  intros Hid Hunique Hcollect. unfold video_stats. rewrite Hid.
  change (default "" (Some video)) with video.
  rewrite Hcollect. cbn [Nat.ltb Nat.leb].
  pose proof (collect_video_id _ _ _ _ _ _ _ _ Hcollect) as Hvid.
  destruct (save_rows_of (save_clock 1%nat) vs (Some ts) db Hunique)
    as (r1 & Hrows1 & Hr1).
  rewrite Hvid in Hrows1.
  destruct (mapping_rows_of mapping_clock _ video vs r1 Hrows1 Hr1)
    as (Ht2 & r2 & Hrows2 & Hr2).
  destruct (mapping_rows_of mapping_clock' _ video vs r2 Hrows2 Hr2)
    as (Ht3 & r3 & Hrows3 & Hr3).
  eexists _, r3. split; [reflexivity|]. split; [exact Hrows3|].
  split; [exact Hr3|]. now rewrite Ht3, Ht2.
Qed.

(** X19.  For one video, what the command stores is what it collected: the
    table has one row for the video, holding the collected statistics;
    collected traffic sources replace those of the video, and with none
    collected the stored ones stay; the traffic sources of other videos
    are not touched. *)
Theorem single_video_stored_as_collected (video : string)
    (channel_id : option string) (max_videos : Z)
    (include_analytics analytics_available : bool) (fuel : nat)
    (save_clock mapping_clock mapping_clock' : nat -> timestamp)
    (db : Db) (history history' : list Client.request)
    (vs : VideoStats) (ts : Client.dict Z) :
  truthy (Some video) = true ->
  unique_video_id db ->
  Client.collect api (include_analytics && analytics_available) include_analytics
    video channel_id history = (Ok (vs, ts), history') ->
  exists db' r,
    video_stats api re_search order_rows config (Some video) channel_id max_videos
      include_analytics analytics_available fuel
      save_clock mapping_clock mapping_clock' db history
    = Some (Ok 1%nat, (db', history'))
    /\ rows_of video db' = [r] /\ written_from vs r
    /\ (ts <> [] -> traffic_of video db' = ts)
    /\ (ts = [] -> traffic_sources db' = traffic_sources db)
    /\ (forall other, other <> video -> traffic_of other db' = traffic_of other db).
Proof.
  intros Hid Hunique Hcollect.
  destruct (single_video_effect video channel_id max_videos include_analytics
              analytics_available fuel save_clock mapping_clock mapping_clock'
              db history history' vs ts Hid Hunique Hcollect)
    as (db' & r & Hrun & Hrows & Hr & Htraffic).
  pose proof (collect_video_id _ _ _ _ _ _ _ _ Hcollect) as Hvid.
  exists db', r. split; [exact Hrun|]. split; [exact Hrows|]. split; [exact Hr|].
  split; [|split].
  - intros Hts. unfold traffic_of. rewrite Htraffic, <- Hvid.
    now apply (save_traffic_replaced (save_clock 1%nat) vs ts db).
  - intros ->. now rewrite Htraffic.
  - intros other Hother. unfold traffic_of. rewrite Htraffic.
    apply (save_traffic_other (save_clock 1%nat) vs (Some ts) db other).
    congruence.
Qed.

(** X20.  Collecting one video while the analytics are switched off or not
    available stores its fetched statistics, sets its subscriber count
    to NULL whatever was stored before, and leaves every stored traffic
    source as it was. *)
Theorem collecting_without_analytics_clears_subscribers (video : string)
    (channel_id : option string) (max_videos : Z)
    (include_analytics analytics_available : bool) (fuel : nat)
    (save_clock mapping_clock mapping_clock' : nat -> timestamp)
    (db : Db) (history : list Client.request) (vs : VideoStats) :
  truthy (Some video) = true ->
  include_analytics && analytics_available = false ->
  unique_video_id db ->
  Client.get_video_stats (Client.videos_list api history video) video = Ok vs ->
  exists db' r,
    video_stats api re_search order_rows config (Some video) channel_id max_videos
      include_analytics analytics_available fuel
      save_clock mapping_clock mapping_clock' db history
    = Some (Ok 1%nat, (db', history ++ [Client.VideosList video]))
    /\ rows_of video db' = [r]
    /\ written_from vs r
    /\ subscriber_count r = None
    /\ traffic_sources db' = traffic_sources db.
Proof.
  intros Hid Hoff Hunique Hstats.
  destruct (single_video_effect video channel_id max_videos include_analytics
              analytics_available fuel save_clock mapping_clock mapping_clock'
              db history (history ++ [Client.VideosList video]) vs [] Hid Hunique)
    as (db' & r & Hrun & Hrows & Hr & Htraffic).
  { rewrite Hoff, collect_without_analytics, Hstats. reflexivity. }
  exists db', r. split; [exact Hrun|]. split; [exact Hrows|]. split; [exact Hr|].
  split; [|exact Htraffic].
  apply get_video_stats_fixed in Hstats as [_ Hnone].
  unfold written_from in Hr. decompose [and] Hr. congruence.
Qed.

End CommandFacts.

(** ** The command on a channel with two uploads *)

(** What is collected for the first upload of [Client.two_uploads]. *)
Definition marathon (subscribers : option Z) : VideoStats :=
  {| vs_video_id := "a";
     vs_channel_id := "UC123";
     vs_title := "Marathon #shorts";
     vs_description := Some "All day long #Shorts";
     vs_upload_time := "2024-01-01T00:00:00Z";
     vs_duration_seconds := 0;
     vs_watch_url := "https://www.youtube.com/watch?v=a";
     vs_view_count := 12;
     vs_like_count := 0;
     vs_dislike_count := Some 0;
     vs_comment_count := 0;
     vs_visibility := Some "public";
     vs_is_short := Some true;
     vs_thumbnail_url := None;
     vs_tags := None;
     vs_subscriber_count := subscribers |}.

(** The database after that video was stored with its analytics. *)
Definition marathon_stored : Db :=
  save_video_stats_db 10 (marathon (Some 3))
    (Some [("SEARCH", 6); ("SUGGESTED", 7)]) empty_db.

Definition talk_config : option (list ShowMapper.Pattern * Mapping.Options) :=
  Some ([Mapping.talk_pattern], Mapping.default_options).

Lemma video_stats_command_keeps_rows_witness :
  exists outcome db' history',
    video_stats Client.two_uploads ShowMapper.model_search
      Mapping.sort_by_upload_time_desc talk_config None None 2 true true 2
      Mapping.tick Mapping.tick Mapping.tick marathon_stored []
    = Some (outcome, (db', history'))
    /\ rows_kept marathon_stored db'.
Proof.
  apply (video_stats_command_keeps_rows Client.two_uploads ShowMapper.model_search
           Mapping.sort_by_upload_time_desc talk_config None None 2 true true 2
           Mapping.tick Mapping.tick Mapping.tick marathon_stored []).
  simpl. lia.
Defined.

Lemma single_video_stored_as_collected_witness :
  exists db' r,
    video_stats Client.two_uploads ShowMapper.model_search
      Mapping.sort_by_upload_time_desc talk_config (Some "a") None 25 true true 0
      Mapping.tick Mapping.tick Mapping.tick empty_db []
    = Some (Ok 1%nat,
            (db', [Client.VideosList "a"; Client.ChannelsMine;
                   Client.TrafficQuery "UC1" "a" "2023-01-01" "2025-12-31";
                   Client.SubscriberQuery "UC1" "a" "2023-01-01" "2025-12-31"]))
    /\ rows_of "a" db' = [r] /\ written_from (marathon (Some 3)) r
    /\ ([("SEARCH", 6); ("SUGGESTED", 7)] <> [] ->
        traffic_of "a" db' = [("SEARCH", 6); ("SUGGESTED", 7)])
    /\ ([("SEARCH", 6); ("SUGGESTED", 7)] = [] ->
        traffic_sources db' = traffic_sources empty_db)
    /\ (forall other, other <> "a" ->
          traffic_of other db' = traffic_of other empty_db).
Proof.
  apply (single_video_stored_as_collected Client.two_uploads
           ShowMapper.model_search Mapping.sort_by_upload_time_desc talk_config
           "a" None 25 true true 0 Mapping.tick Mapping.tick Mapping.tick
           empty_db []).
  - reflexivity.
  - apply empty_db_unique.
  - vm_compute. reflexivity.
Defined.

Lemma collecting_without_analytics_clears_subscribers_witness :
  exists db' r,
    video_stats Client.two_uploads ShowMapper.model_search
      Mapping.sort_by_upload_time_desc talk_config (Some "a") None 25 false true 0
      Mapping.tick Mapping.tick Mapping.tick marathon_stored []
    = Some (Ok 1%nat, (db', [] ++ [Client.VideosList "a"]))
    /\ rows_of "a" db' = [r]
    /\ written_from (marathon None) r
    /\ subscriber_count r = None
    /\ traffic_sources db' = traffic_sources marathon_stored.
Proof.
  apply (collecting_without_analytics_clears_subscribers Client.two_uploads
           ShowMapper.model_search Mapping.sort_by_upload_time_desc talk_config
           "a" None 25 false true 0 Mapping.tick Mapping.tick Mapping.tick
           marathon_stored []).
  - reflexivity.
  - reflexivity.
  - apply save_unique, empty_db_unique.
  - vm_compute. reflexivity.
Defined.

(** The stored subscriber count before that run. *)
Example marathon_stored_subscribers :
  map subscriber_count (rows_of "a" marathon_stored) = [Some 3].
Proof. vm_compute. reflexivity. Qed.

(** ** The command touches only the videos it asked about *)

(** What is stored for video [vid] in [before] is stored in [after]:
    the same traffic sources, and the same rows up to the columns the
    show mapping writes. *)
Definition video_untouched (vid : string) (before after : Db) : Prop :=
  traffic_of vid after = traffic_of vid before
  /\ Forall2 (fun r r' =>
                r' = r \/ exists now s e, r' = Mapping.set_show_episode now s e r)
       (rows_of vid before) (rows_of vid after).

Lemma video_untouched_refl vid db : video_untouched vid db db.
Proof.
  split; [reflexivity|].
  apply Forall2_same_length_lookup_2; [reflexivity|].
  intros i r r' H1 H2. left. congruence.
Qed.

Lemma video_untouched_trans vid a b c :
  video_untouched vid a b -> video_untouched vid b c -> video_untouched vid a c.
Proof.
  intros [Hab Rab] [Hbc Rbc]. split; [congruence|].
  revert Rbc. generalize (rows_of vid c). revert Rab.
  generalize (rows_of vid a) (rows_of vid b). clear.
  intros la lb Rab. induction Rab as [|r r' la lb Hr _ IH]; intros lc Rbc;
    inversion Rbc as [|r0 r'' lb0 lc0 Hr' Hrest]; subst; constructor.
  - destruct Hr as [->|(now & s & e & ->)]; [exact Hr'|].
    destruct Hr' as [->|(now' & s' & e' & ->)]; right; eauto.
  - now apply IH.
Qed.

Lemma save_rows_other now vs traffic db other :
  other <> vs_video_id vs ->
  rows_of other (save_video_stats_db now vs traffic db) = rows_of other db.
Proof.
  intros Hother. unfold rows_of. rewrite save_video_rows.
  destruct (select_id (vs_video_id vs) (Storage.video_stats db)).
  - now apply update_video_other.
  - rewrite List.filter_app. cbn [List.filter insert_row video_id].
    rewrite bool_decide_eq_false_2 by congruence. apply app_nil_r.
Qed.

Lemma save_untouched now vs traffic db other :
  other <> vs_video_id vs ->
  video_untouched other db (save_video_stats_db now vs traffic db).
Proof.
  intros Hother. split; [now apply save_traffic_other|].
  rewrite save_rows_other by exact Hother.
  apply (video_untouched_refl other db).
Qed.

Section Touched.

Variable api : Client.Api.
Variable re_search : string -> string -> result (option ShowMapper.Match).
Variable order_rows : list VideoStatsRow -> list VideoStatsRow.
Variable config : option (list ShowMapper.Pattern * Mapping.Options).

Lemma mapping_untouched clock db vid :
  video_untouched vid db (apply_show_mapping re_search order_rows config clock db).
Proof.
  unfold apply_show_mapping. destruct config as [[patterns options]|];
    [|apply video_untouched_refl].
  split; [reflexivity|]. unfold rows_of. cbn [Storage.video_stats].
  unfold Mapping.process_videos. rewrite Mapping.for_each_rows.
  rewrite (filter_map_key _ video_id).
  - apply Forall2_fmap_r, Forall_Forall2_diag, Forall_forall. intros r _.
    unfold compose.
    destruct (Mapping.row_after_shape re_search patterns clock 1%nat
                (Mapping.get_videos_to_update options order_rows
                   (Storage.video_stats db)) r)
      as [->|(now & s & e & _ & ->)]; [now left | right; eauto].
  - intros x. pose proof (row_after_key re_search patterns clock 1%nat
                            (Mapping.get_videos_to_update options order_rows
                               (Storage.video_stats db)) x) as Hkey.
    unfold row_key in Hkey. congruence.
Qed.

(** X21.  With enough fuel for the listing the command ends, and a video
    whose statistics it did not request keeps what is stored for it: its
    traffic sources, and its rows up to the show, the episode and the
    update time. *)
Theorem video_stats_touches_requested_only
    (video_id channel_id : option string) (max_videos : Z)
    (include_analytics analytics_available : bool) (fuel : nat)
    (save_clock mapping_clock mapping_clock' : nat -> timestamp)
    (db : Db) (history : list Client.request) :
  (Z.to_nat max_videos <= fuel)%nat ->
  exists outcome db' history',
    video_stats api re_search order_rows config video_id channel_id max_videos
      include_analytics analytics_available fuel
      save_clock mapping_clock mapping_clock' db history
    = Some (outcome, (db', history'))
    /\ forall vid, Client.VideosList vid ∉ history' -> video_untouched vid db db'.
Proof.
  intros Hfuel. unfold video_stats. destruct (truthy video_id).
  - destruct (Client.collect_requests api (include_analytics && analytics_available)
                include_analytics (default "" video_id) channel_id history)
      as (more & Hreq & _).
    pose proof (collect_video_id api (include_analytics && analytics_available)
                  include_analytics (default "" video_id) channel_id history)
      as Hvid.
    destruct (Client.collect api (include_analytics && analytics_available)
                include_analytics (default "" video_id) channel_id history)
      as [[[vs ts]|e] history'].
    + eexists _, _, _. split; [reflexivity|]. cbn [Nat.ltb Nat.leb].
      intros vid Hvidnot. cbn [snd] in Hreq. subst history'.
      eapply video_untouched_trans; [|apply mapping_untouched].
      eapply video_untouched_trans; [|apply mapping_untouched].
      apply save_untouched. rewrite (Hvid vs ts _ eq_refl).
      intros ->. apply Hvidnot, elem_of_app. right. apply elem_of_cons. now left.
    + eexists _, _, _. split; [reflexivity|]. intros vid _.
      apply video_untouched_refl.
  - destruct (Client.get_channel_video_stats_run api
                (include_analytics && analytics_available)
                (save_callback save_clock) include_analytics
                fuel channel_id max_videos db history Hfuel)
      as [(e & history' & ->)|(channel & videos & history1 & ->)].
    { eexists _, _, _. split; [reflexivity|]. intros vid _.
      apply video_untouched_refl. }
    set (p := Client.for_each_video _ _ _ _ _ _ _ _).
    assert (Hkept : forall vid, Client.VideosList vid ∉ Client.requests p ->
                                video_untouched vid db (Client.store p)).
    { unfold p.
      apply (Client.for_each_video_keeps api
               (include_analytics && analytics_available) include_analytics
               (fun q => forall vid, Client.VideosList vid ∉ Client.requests q ->
                                     video_untouched vid db (Client.store q))).
      - intros ch i video q Hq vid. unfold Client.iteration.
        destruct (Client.collect_requests api
                    (include_analytics && analytics_available) include_analytics
                    (Client.vi_video_id video) (Some ch) (Client.requests q))
          as (more & Hreq & _).
        pose proof (collect_video_id api (include_analytics && analytics_available)
                      include_analytics (Client.vi_video_id video) (Some ch)
                      (Client.requests q)) as Hvid.
        destruct (Client.collect api (include_analytics && analytics_available)
                    include_analytics (Client.vi_video_id video) (Some ch)
                    (Client.requests q)) as [[[vs ts]|e] history'];
          cbn [snd] in Hreq; subst history';
          cbn [save_callback Client.requests Client.store fst snd];
          intros Hnot.
        + eapply video_untouched_trans.
          * apply Hq. intros Hin. apply Hnot, elem_of_app. now left.
          * apply save_untouched. rewrite (Hvid vs ts _ eq_refl).
            intros ->. apply Hnot, elem_of_app. right. apply elem_of_cons. now left.
        + apply Hq. intros Hin. apply Hnot, elem_of_app. now left.
      - cbn [Client.requests Client.store]. intros vid _.
        apply video_untouched_refl. }
    eexists _, _, _. split; [reflexivity|]. intros vid Hnot.
    destruct (0 <? Client.saved_count p)%nat; [|now apply Hkept].
    eapply video_untouched_trans; [now apply Hkept | apply mapping_untouched].
Qed.

End Touched.

Lemma video_stats_touches_requested_only_witness :
  exists outcome db' history',
    video_stats Client.two_uploads ShowMapper.model_search
      Mapping.sort_by_upload_time_desc talk_config None None 2 true true 2
      Mapping.tick Mapping.tick Mapping.tick marathon_stored []
    = Some (outcome, (db', history'))
    /\ forall vid, Client.VideosList vid ∉ history' ->
                   video_untouched vid marathon_stored db'.
Proof.
  apply (video_stats_touches_requested_only Client.two_uploads
           ShowMapper.model_search Mapping.sort_by_upload_time_desc talk_config
           None None 2 true true 2 Mapping.tick Mapping.tick Mapping.tick
           marathon_stored []).
  simpl. lia.
Defined.

(** ** One row for each traffic source of a video *)

(** No video has two stored rows for the same traffic source. *)
Definition sources_unique (db : Db) : Prop :=
  forall vid, NoDup (map fst (traffic_of vid db)).

Lemma save_sources_unique now vs ts db :
  NoDup (map fst ts) -> sources_unique db ->
  sources_unique (save_video_stats_db now vs (Some ts) db).
Proof.
  intros Hts Hdb vid. destruct (decide (vid = vs_video_id vs)) as [->|Hother].
  - destruct ts as [|entry ts].
    + rewrite (proj1 (save_traffic_kept now vs db)). apply Hdb.
    + rewrite save_traffic_replaced by discriminate. exact Hts.
  - rewrite save_traffic_other by exact Hother. apply Hdb.
Qed.

Section SourcesUnique.

Variable api : Client.Api.
Variable re_search : string -> string -> result (option ShowMapper.Match).
Variable order_rows : list VideoStatsRow -> list VideoStatsRow.
Variable config : option (list ShowMapper.Pattern * Mapping.Options).

Lemma mapping_sources_unique clock db :
  sources_unique db ->
  sources_unique (apply_show_mapping re_search order_rows config clock db).
Proof.
  unfold apply_show_mapping. now destruct config as [[patterns options]|].
Qed.

(** X22.  The table of traffic sources has no unique constraint, yet the
    command keeps one row for each source of a video: if no video has
    two rows for the same source before the command, none has after
    it. *)
Theorem video_stats_keeps_sources_unique
    (video_id channel_id : option string) (max_videos : Z)
    (include_analytics analytics_available : bool) (fuel : nat)
    (save_clock mapping_clock mapping_clock' : nat -> timestamp)
    (db : Db) (history : list Client.request) :
  (Z.to_nat max_videos <= fuel)%nat ->
  sources_unique db ->
  exists outcome db' history',
    video_stats api re_search order_rows config video_id channel_id max_videos
      include_analytics analytics_available fuel
      save_clock mapping_clock mapping_clock' db history
    = Some (outcome, (db', history'))
    /\ sources_unique db'.
Proof.
  intros Hfuel Hdb. unfold video_stats. destruct (truthy video_id).
  - pose proof (Client.collect_traffic_nodup api
                  (include_analytics && analytics_available) include_analytics
                  (default "" video_id) channel_id history) as Hts.
    destruct (Client.collect api (include_analytics && analytics_available)
                include_analytics (default "" video_id) channel_id history)
      as [[[vs ts]|e] history'].
    + eexists _, _, _. split; [reflexivity|]. cbn [Nat.ltb Nat.leb].
      apply mapping_sources_unique, mapping_sources_unique, save_sources_unique;
        [exact (Hts vs ts _ eq_refl) | exact Hdb].
    + eexists _, _, _. split; [reflexivity | exact Hdb].
  - destruct (Client.get_channel_video_stats_run api
                (include_analytics && analytics_available)
                (save_callback save_clock) include_analytics
                fuel channel_id max_videos db history Hfuel)
      as [(e & history' & ->)|(channel & videos & history1 & ->)].
    { eexists _, _, _. split; [reflexivity | exact Hdb]. }
    set (p := Client.for_each_video _ _ _ _ _ _ _ _).
    assert (Hkept : sources_unique (Client.store p)).
    { unfold p.
      apply (Client.for_each_video_keeps api
               (include_analytics && analytics_available) include_analytics
               (fun q => sources_unique (Client.store q))); [|exact Hdb].
      intros ch i video q Hq. unfold Client.iteration.
      pose proof (Client.collect_traffic_nodup api
                    (include_analytics && analytics_available) include_analytics
                    (Client.vi_video_id video) (Some ch) (Client.requests q))
        as Hts.
      destruct (Client.collect api (include_analytics && analytics_available)
                  include_analytics (Client.vi_video_id video) (Some ch)
                  (Client.requests q)) as [[[vs ts]|e] history'];
        cbn [save_callback Client.store fst snd]; [|exact Hq].
      apply save_sources_unique; [exact (Hts vs ts _ eq_refl) | exact Hq]. }
    eexists _, _, _. split; [reflexivity|].
    destruct (0 <? Client.saved_count p)%nat; [|exact Hkept].
    now apply mapping_sources_unique.
Qed.

End SourcesUnique.

Lemma marathon_sources_unique : sources_unique marathon_stored.
Proof.
  intros vid. unfold marathon_stored.
  apply save_sources_unique; [|intros vid'; constructor].
  apply (bool_decide_unpack (NoDup _)). vm_compute. exact I.
Qed.

Lemma video_stats_keeps_sources_unique_witness :
  exists outcome db' history',
    video_stats Client.two_uploads ShowMapper.model_search
      Mapping.sort_by_upload_time_desc talk_config None None 2 true true 2
      Mapping.tick Mapping.tick Mapping.tick marathon_stored []
    = Some (outcome, (db', history'))
    /\ sources_unique db'.
Proof.
  apply (video_stats_keeps_sources_unique Client.two_uploads
           ShowMapper.model_search Mapping.sort_by_upload_time_desc talk_config
           None None 2 true true 2 Mapping.tick Mapping.tick Mapping.tick
           marathon_stored []).
  - simpl. lia.
  - apply marathon_sources_unique.
Defined.

End Cli.

(* ================================================================== *)
(** * caption_downloader.py: file names and saved files                 *)
(* ================================================================== *)

Module CaptionFiles.

Import Py Captions.

(** ** [sanitize_filename] *)

(** The two character classes of the method. *)
Definition is_invalid (c : ascii) : bool := ascii_in c invalid_chars.
Definition is_trimmed (c : ascii) : bool := ascii_in c (of_string ". ").

Definition replace_invalid (c : ascii) : ascii :=
  if is_invalid c then "_"%char else c.

Lemma sanitize_filename_unfold title :
  of_string (sanitize_filename title)
  = strip_with is_trimmed (take 200 (map replace_invalid (of_string title))).
Proof. unfold sanitize_filename. now rewrite of_to_string. Qed.

Lemma replace_invalid_valid c : is_invalid (replace_invalid c) = false.
Proof.
  unfold replace_invalid. destruct (is_invalid c) eqn:E; [reflexivity | exact E].
Qed.

Lemma replace_invalid_fixed (s : str) :
  Forall (fun c => is_invalid c = false) s -> map replace_invalid s = s.
Proof.
  induction 1 as [|c s Hc _ IH]; [reflexivity|]. cbn [map].
  unfold replace_invalid at 1. now rewrite Hc, IH.
Qed.

Lemma Forall_infix {A} (P : A -> Prop) (a s b : list A) :
  Forall P (a ++ s ++ b) -> Forall P s.
Proof.
  intros H. apply Forall_app in H as [_ H]. now apply Forall_app in H as [H _].
Qed.



(** The characters of a sanitized title: a stretch of the title after
    the replacement, so none of them is replaced again, and at most 200
    of them. *)
Lemma sanitize_filename_chars (title : string) :
  Forall (fun c => is_invalid c = false) (of_string (sanitize_filename title))
  /\ (length (of_string (sanitize_filename title)) <= 200)%nat
  /\ (exists before after,
        map replace_invalid (of_string title)
        = before ++ of_string (sanitize_filename title) ++ after).
Proof.
  rewrite sanitize_filename_unfold.
  set (replaced := map replace_invalid (of_string title)).
  destruct (strip_with_infix is_trimmed (take 200 replaced)) as (a & b & Hab).
  assert (Hinfix : replaced
                   = a ++ strip_with is_trimmed (take 200 replaced)
                       ++ (b ++ drop 200 replaced)).
  { rewrite <- (take_drop 200 replaced) at 1. rewrite Hab at 1.
    now rewrite <- !app_assoc. }
  split; [|split].
  - apply (Forall_infix _ a _ (b ++ drop 200 replaced)). rewrite <- Hinfix.
    unfold replaced. apply Forall_map, Forall_forall. intros c _.
    apply replace_invalid_valid.
  - apply (f_equal (@length ascii)) in Hab.
    rewrite !length_app, length_take in Hab. lia.
  - eauto.
Qed.


(** X24.  Sanitizing a sanitized title changes nothing. *)
Theorem sanitize_filename_idempotent (title : string) :
  sanitize_filename (sanitize_filename title) = sanitize_filename title.
Proof.
  destruct (sanitize_filename_chars title) as (Hvalid & Hlen & _).
  rewrite <- (to_of_string (sanitize_filename (sanitize_filename title))).
  rewrite <- (to_of_string (sanitize_filename title)) at 2. f_equal.
  rewrite (sanitize_filename_unfold (sanitize_filename title)).
  rewrite (replace_invalid_fixed _ Hvalid), take_ge by exact Hlen.
  rewrite sanitize_filename_unfold. apply strip_with_idem.
Qed.

(** ** [save_caption] *)

(** The name [save_caption] gives the file. *)
Definition caption_filename (video_title video_id format : string) : string :=
  sanitize_filename video_title +:+ "_" +:+ video_id +:+ "." +:+ format.

(** X25.  [save_caption] writes a file only when no file of that name is in
    the directory: it then adds the file, returns its name, and the
    existence check for the video finds it afterwards; when the name is
    taken it returns [None] without opening anything; and when the file
    cannot be opened the exception is raised with the directory as it
    was.  In each case the files that were there stay, a file name
    occurs once if it did, and the counters are not touched. *)
Theorem save_caption_never_overwrites (provider : Provider)
    (content video_id video_title format : string) (st : State) :
  exists r st',
    save_caption provider content video_id video_title format st = (r, st')
    /\ stats st' = stats st
    /\ (NoDup (files st) -> NoDup (files st'))
    /\ match r with
       | Ok None =>
           caption_filename video_title video_id format ∈ files st
           /\ files st' = files st
           /\ log st'
              = log st ++ [PathExists (caption_filename video_title video_id format)]
       | Ok (Some path) =>
           path = caption_filename video_title video_id format
           /\ (path ∉ files st)
           /\ files st' = files st ++ [path]
           /\ (caption_file_exists video_id format st').1 = Ok true
       | Raise e =>
           (caption_filename video_title video_id format ∉ files st)
           /\ files st' = files st
           /\ open_error provider
                (log st ++ [PathExists (caption_filename video_title video_id format)])
                (caption_filename video_title video_id format)
              = Some e
       end.
Proof.
  unfold save_caption, bind, emit, get_files, get_log, add_file, ret, raise.
  cbn [files log stats].
  change (sanitize_filename video_title +:+ "_" +:+ video_id +:+ "." +:+ format)
    with (caption_filename video_title video_id format).
  set (name := caption_filename video_title video_id format).
  destruct (bool_decide_reflect (name ∈ files st)) as [Hin|Hnot].
  - eexists _, _. split; [reflexivity|]. cbn [files log stats].
    split; [reflexivity|]. split; [auto|]. repeat split; auto.
  - destruct (open_error provider _ name) as [e|] eqn:Eopen.
    + eexists _, _. split; [reflexivity|]. cbn [files log stats].
      split; [reflexivity|]. split; [auto|]. split; [exact Hnot|].
      split; reflexivity.
    + eexists _, _. split; [reflexivity|]. cbn [files log stats].
      split; [reflexivity|]. split.
      { intros Hnodup. apply NoDup_app. split; [exact Hnodup|].
        split; [|apply NoDup_singleton].
        intros x Hx Hx'. apply list_elem_of_singleton in Hx'. congruence. }
      split; [reflexivity|]. split; [exact Hnot|]. split; [reflexivity|].
      unfold caption_file_exists, bind, emit, get_files, ret. cbn [files log stats fst].
      f_equal. rewrite existsb_app. cbn [existsb].
      unfold name, caption_filename. now rewrite saved_name_matches, orb_true_r.
Qed.

(** ** [find_caption_track] *)

(** The track is auto-generated and in the language asked for. *)
Definition qualifies (language_code : string) (track : CaptionTrack) : Prop :=
  language track = Some language_code /\ trackKind track = Some "asr".

(** X26.  [find_caption_track] asks once for the tracks of the video and
    changes nothing else.  It returns the id of the first track that is
    auto-generated and in the language, so never a track of another
    kind or language, and [None] exactly when no track qualifies; a
    refused request raises [PermissionError] for status 403,
    [ValueError] for 404 and a plain [Exception] otherwise. *)
Theorem find_caption_track_first_asr (provider : Provider)
    (video_id language_code : string) (st : State) :
  exists r,
    find_caption_track provider video_id language_code st
    = (r, {| files := files st; log := log st ++ [CaptionsList video_id];
             stats := stats st |})
    /\ match r with
       | Ok (Some caption_id) =>
           exists before track after,
             captions_list provider (log st) video_id
               = Http200 (before ++ track :: after)
             /\ track_id track = caption_id
             /\ qualifies language_code track
             /\ Forall (fun t => ~ qualifies language_code t) before
       | Ok None =>
           exists tracks,
             captions_list provider (log st) video_id = Http200 tracks
             /\ Forall (fun t => ~ qualifies language_code t) tracks
       | Raise e =>
           exists status,
             captions_list provider (log st) video_id = HttpError status
             /\ e = (if status =? 403 then PermissionError
                     else if status =? 404 then ValueError else Exception_)
       end.
Proof.
  unfold find_caption_track, list_caption_tracks, bind, get_log, emit, ret, raise.
  cbn [log files stats].
  destruct (captions_list provider (log st) video_id) as [tracks|status] eqn:Hlist.
  - eexists. split; [reflexivity|].
    assert (Hfind : forall tracks0,
              match option_map track_id
                      (List.find (fun item =>
                                    bool_decide (language item = Some language_code)
                                    && bool_decide (trackKind item = Some "asr"))
                         tracks0) with
              | Some caption_id =>
                  exists before track after,
                    tracks0 = before ++ track :: after
                    /\ track_id track = caption_id
                    /\ qualifies language_code track
                    /\ Forall (fun t => ~ qualifies language_code t) before
              | None => Forall (fun t => ~ qualifies language_code t) tracks0
              end).
    { induction tracks0 as [|t rest IH]; cbn [List.find option_map];
        [constructor|].
      destruct (bool_decide_reflect (language t = Some language_code)) as [Hl|Hl];
        cbn [andb].
      - destruct (bool_decide_reflect (trackKind t = Some "asr")) as [Hk|Hk].
        + exists [], t, rest. repeat split; auto.
        + destruct (option_map track_id (List.find _ rest)) as [caption_id|].
          * destruct IH as (before & track & after & -> & Hid & Hq & Hnone).
            exists (t :: before), track, after. repeat split; auto; try apply Hq.
            constructor; [now intros [_ H] | exact Hnone].
          * constructor; [now intros [_ H] | exact IH].
      - destruct (option_map track_id (List.find _ rest)) as [caption_id|].
        + destruct IH as (before & track & after & -> & Hid & Hq & Hnone).
          exists (t :: before), track, after. repeat split; auto; try apply Hq.
          constructor; [now intros [H _] | exact Hnone].
        + constructor; [now intros [H _] | exact IH]. }
    specialize (Hfind tracks).
    destruct (option_map track_id (List.find _ tracks)) as [caption_id|].
    + destruct Hfind as (before & track & after & -> & Hrest).
      exists before, track, after. split; [reflexivity | exact Hrest].
    + exists tracks. split; [reflexivity | exact Hfind].
  - destruct (status =? 403) eqn:E403; [|destruct (status =? 404) eqn:E404];
      (eexists; split; [reflexivity|]); exists status;
      (split; [reflexivity|]); now rewrite ?E403, ?E404.
Qed.

End CaptionFiles.

(* ================================================================== *)
(** * Channel statistics: fetching, storing, reading back               *)
(* ================================================================== *)

Module Channel.

Import Py.

(** The parts of a [channels().list] item that [get_channel_stats]
    reads. *)
Record ChannelItem : Type := {
  snippet_title : string;
  snippet_description : option string;
  snippet_publishedAt : string;
  subscriberCount : option string;
  viewCount : option string;
  videoCount : option string
}.

(** The dictionary [stats]. *)
Record ChannelStats : Type := {
  cs_channel_id : string;
  cs_title : string;
  cs_description : string;
  cs_published_at : string;
  cs_subscriber_count : Z;
  cs_view_count : Z;
  cs_video_count : Z
}.

(** A row of table [channel_stats]. *)
Record ChannelStatsRow : Type := {
  id : Z;
  channel_id : string;
  title : string;
  description : string;
  subscriber_count : Z;
  view_count : Z;
  video_count : Z;
  published_at : string;
  collected_at : Storage.timestamp
}.

(** The table with its AUTOINCREMENT counter. *)
Record Table : Type := {
  channel_stats_rows : list ChannelStatsRow;
  channel_stats_seq : Z
}.

(** [save_channel_stats_db(stats)] at clock reading [now]. *)
Definition save_channel_stats_db (now : Storage.timestamp) (stats : ChannelStats)
    (db : Table) : Table :=
  {| channel_stats_rows :=
       channel_stats_rows db
       ++ [{| id := channel_stats_seq db + 1;
              channel_id := cs_channel_id stats;
              title := cs_title stats;
              description := cs_description stats;
              subscriber_count := cs_subscriber_count stats;
              view_count := cs_view_count stats;
              video_count := cs_video_count stats;
              published_at := cs_published_at stats;
              collected_at := now |}];
     channel_stats_seq := channel_stats_seq db + 1 |}.

Section Reading.

(** [ORDER BY collected_at DESC], fixed by SQLite up to the rows that
    share a time. *)
Variable order_rows : list ChannelStatsRow -> list ChannelStatsRow.

(** [get_channel_stats_history(channel_id)] *)
Definition get_channel_stats_history (wanted : option string) (db : Table)
  : list ChannelStatsRow :=
  order_rows
    (if truthy wanted
     then List.filter (fun r => bool_decide (channel_id r = default "" wanted))
            (channel_stats_rows db)
     else channel_stats_rows db).

End Reading.

Section Fetching.

Variable api : Client.Api.

(** What [channels().list(part='snippet,statistics,contentDetails',
    id=...)] answers. *)
Variable channel_details :
  list Client.request -> string -> Captions.http_response (list ChannelItem).

(** [os.getenv('DEFAULT_CHANNEL_ID')] *)
Variable default_channel_id : option string.

(** [get_channel_stats(channel_id)] *)
Definition get_channel_stats (wanted : option string)
    (history : list Client.request)
  : result ChannelStats * list Client.request :=
  let '(resolved, history) :=
    if truthy wanted then (Ok (default "" wanted), history)
    else if truthy default_channel_id
         then (Ok (default "" default_channel_id), history)
         else Client._get_my_channel_id api history in
  match resolved with
  | Raise e => (Raise e, history)
  | Ok channel =>
      let history' := history ++ [Client.ChannelsById channel] in
      match channel_details history channel with
      | Captions.HttpError _ => (Raise Exception_, history')
      | Captions.Http200 [] => (Raise ValueError, history')
      | Captions.Http200 (item :: _) =>
          (rbind (Client.stat_int (subscriberCount item)) (fun subscribers =>
           rbind (Client.stat_int (viewCount item)) (fun views =>
           rbind (Client.stat_int (videoCount item)) (fun videos =>
           Ok {| cs_channel_id := channel;
                 cs_title := snippet_title item;
                 cs_description := default "" (snippet_description item);
                 cs_published_at := snippet_publishedAt item;
                 cs_subscriber_count := subscribers;
                 cs_view_count := views;
                 cs_video_count := videos |}))), history')
      end
  end.

(** The [channel-stats] command with [--output sqlite]: an exception is
    reported and the command exits with status 1. *)
Definition channel_stats (wanted : option string) (now : Storage.timestamp)
    (db : Table) (history : list Client.request)
  : result unit * (Table * list Client.request) :=
  match get_channel_stats wanted history with
  | (Raise e, history) => (Raise e, (db, history))
  | (Ok stats, history) => (Ok tt, (save_channel_stats_db now stats db, history))
  end.

End Fetching.

(** ** The table only grows *)

Section ChannelFacts.

Variable api : Client.Api.
Variable channel_details :
  list Client.request -> string -> Captions.http_response (list ChannelItem).
Variable default_channel_id : option string.
Variable order_rows : list ChannelStatsRow -> list ChannelStatsRow.

Hypothesis order_permutation : forall rows, Permutation (order_rows rows) rows.

(** X27.  The command never changes or removes a stored row.  When it fails
    the table is as it was.  When it succeeds the table has one more
    row, with a fresh id, the time of the run and the channel id that
    was asked for (the one given, else the one of the environment), and
    the history of that channel is one row longer,
    whether or not the channel was stored before; the history of any
    other channel has the rows it had. *)
Theorem channel_stats_appends_one_row (wanted : option string)
    (now : Storage.timestamp) (db : Table) (history : list Client.request) :
  exists outcome db' history',
    channel_stats api channel_details default_channel_id wanted now db history
      = (outcome, (db', history'))
    /\ match outcome with
       | Raise _ => db' = db
       | Ok _ =>
           exists row,
             channel_stats_rows db' = channel_stats_rows db ++ [row]
             /\ channel_stats_seq db' = channel_stats_seq db + 1
             /\ id row = channel_stats_seq db + 1
             /\ collected_at row = now
             /\ (truthy wanted = true -> channel_id row = default "" wanted)
             /\ (truthy wanted = false -> truthy default_channel_id = true ->
                 channel_id row = default "" default_channel_id)
             /\ (truthy (Some (channel_id row)) = true ->
                 length (get_channel_stats_history order_rows
                           (Some (channel_id row)) db')
                 = S (length (get_channel_stats_history order_rows
                                (Some (channel_id row)) db)))
             /\ (forall other, other <> channel_id row ->
                   truthy (Some other) = true ->
                   Permutation
                     (get_channel_stats_history order_rows (Some other) db')
                     (get_channel_stats_history order_rows (Some other) db))
       end.
Proof.
  unfold channel_stats.
  destruct (get_channel_stats api channel_details default_channel_id wanted history)
    as [[stats|e] history'] eqn:Hget; [|eexists _, _, _; split; reflexivity].
  eexists _, _, _. split; [reflexivity|].
  eexists. split; [reflexivity|]. cbn [channel_stats_seq id collected_at channel_id].
  split; [reflexivity|]. split; [reflexivity|]. split; [reflexivity|].
  assert (Hasked : forall channel,
            (if truthy wanted then (Ok (default "" wanted), history)
             else if truthy default_channel_id
                  then (Ok (default "" default_channel_id), history)
                  else Client._get_my_channel_id api history)
            = (Ok channel, history) ->
            cs_channel_id stats = channel).
  { intros channel Hres. unfold get_channel_stats in Hget. rewrite Hres in Hget.
    destruct (channel_details history channel) as [[|item more]|status];
      try discriminate Hget.
    destruct (Client.stat_int (subscriberCount item)); try discriminate Hget.
    destruct (Client.stat_int (viewCount item)); try discriminate Hget.
    destruct (Client.stat_int (videoCount item)); try discriminate Hget.
    now injection Hget as <- _. }
  split; [|split; [|split]].
  - intros Hw. apply Hasked. now rewrite Hw.
  - intros Hw Hd. apply Hasked. now rewrite Hw, Hd.
  - intros Hid. unfold get_channel_stats_history. rewrite Hid.
    cbn [default channel_stats_rows save_channel_stats_db].
    rewrite !(Permutation_length (order_permutation _)).
    rewrite List.filter_app, length_app. cbn [List.filter channel_id].
    rewrite bool_decide_eq_true_2 by reflexivity. simpl. lia.
  - intros other Hother Hid. unfold get_channel_stats_history. rewrite Hid.
    cbn [default channel_stats_rows save_channel_stats_db].
    rewrite !order_permutation.
    rewrite List.filter_app. cbn [List.filter channel_id].
    rewrite bool_decide_eq_false_2 by (cbn; congruence).
    now rewrite app_nil_r.
Qed.

End ChannelFacts.

(** [ORDER BY collected_at DESC] by insertion, rows with equal times in
    table order. *)
Fixpoint insert_by_collected_at (r : ChannelStatsRow) (sorted : list ChannelStatsRow)
  : list ChannelStatsRow :=
  match sorted with
  | [] => [r]
  | x :: rest =>
      if collected_at x <? collected_at r
      then r :: sorted
      else x :: insert_by_collected_at r rest
  end.

Definition sort_by_collected_at_desc (rows : list ChannelStatsRow)
  : list ChannelStatsRow :=
  fold_right insert_by_collected_at [] rows.

Lemma insert_by_collected_at_permutation r sorted :
  Permutation (insert_by_collected_at r sorted) (r :: sorted).
Proof.
  induction sorted as [|x rest IH]; simpl; [reflexivity|].
  destruct (collected_at x <? collected_at r); [reflexivity|].
  rewrite IH. apply perm_swap.
Qed.

Lemma sort_by_collected_at_desc_permutation rows :
  Permutation (sort_by_collected_at_desc rows) rows.
Proof.
  induction rows as [|r rows IH]; simpl; [reflexivity|].
  rewrite insert_by_collected_at_permutation. now constructor.
Qed.

(** A channel as the platform describes it. *)
Definition some_channel : ChannelItem :=
  {| snippet_title := "Channel"; snippet_description := None;
     snippet_publishedAt := "2020-05-05T00:00:00Z";
     subscriberCount := Some "1500"; viewCount := Some "99000";
     videoCount := None |}.

Definition empty_table : Table :=
  {| channel_stats_rows := []; channel_stats_seq := 0 |}.

Lemma channel_stats_appends_one_row_witness :
  exists outcome db' history',
    channel_stats Client.two_uploads (fun _ _ => Captions.Http200 [some_channel])
      None (Some "UC9") 20 empty_table []
      = (outcome, (db', history'))
    /\ match outcome with
       | Raise _ => db' = empty_table
       | Ok _ =>
           exists row,
             channel_stats_rows db' = channel_stats_rows empty_table ++ [row]
             /\ channel_stats_seq db' = channel_stats_seq empty_table + 1
             /\ id row = channel_stats_seq empty_table + 1
             /\ collected_at row = 20
             /\ (truthy (Some "UC9") = true -> channel_id row = default "" (Some "UC9"))
             /\ (truthy (Some "UC9") = false -> truthy None = true ->
                 channel_id row = default "" None)
             /\ (truthy (Some (channel_id row)) = true ->
                 length (get_channel_stats_history sort_by_collected_at_desc
                           (Some (channel_id row)) db')
                 = S (length (get_channel_stats_history sort_by_collected_at_desc
                                (Some (channel_id row)) empty_table)))
             /\ (forall other, other <> channel_id row ->
                   truthy (Some other) = true ->
                   Permutation
                     (get_channel_stats_history sort_by_collected_at_desc
                        (Some other) db')
                     (get_channel_stats_history sort_by_collected_at_desc
                        (Some other) empty_table))
       end.
Proof.
  apply (channel_stats_appends_one_row Client.two_uploads
           (fun _ _ => Captions.Http200 [some_channel]) None
           sort_by_collected_at_desc sort_by_collected_at_desc_permutation
           (Some "UC9") 20 empty_table []).
Defined.

(** Two runs for the same channel leave two rows. *)
Example channel_stored_twice :
  map (fun r => (id r, channel_id r, subscriber_count r, collected_at r))
    (channel_stats_rows
       (channel_stats Client.two_uploads
          (fun _ _ => Captions.Http200 [some_channel]) None (Some "UC9") 30
          (channel_stats Client.two_uploads
             (fun _ _ => Captions.Http200 [some_channel]) None (Some "UC9") 20
             empty_table []).2.1 []).2.1)
  = [(1, "UC9", 1500, 20); (2, "UC9", 1500, 30)].
Proof. vm_compute. reflexivity. Qed.

End Channel.

(* ================================================================== *)
(** * cli.py: how a duration is displayed                               *)
(* ================================================================== *)

Module Display.

Import Py.

(** The decimal digit of a number from 0 to 9. *)
Definition digit_char (d : Z) : ascii := ascii_of_nat (48 + Z.to_nat d).

(** The decimal digits of a non-negative number put before [acc], last
    digit first; [fuel] bounds the number of digits. *)
Fixpoint decimal (fuel : nat) (n : Z) (acc : str) : str :=
  match fuel with
  | O => acc
  | S fuel' =>
      let acc' := digit_char (n mod 10) :: acc in
      if n <? 10 then acc' else decimal fuel' (n / 10) acc'
  end.

(** [f"{n}"] for an integer. *)
Definition format_int (n : Z) : str :=
  if n <? 0 then "-"%char :: decimal (S (Z.to_nat (- n))) (- n) []
  else decimal (S (Z.to_nat n)) n [].

(** [_format_duration(seconds)] *)
Definition _format_duration (seconds : Z) : string :=
  if seconds =? 0 then "0s"
  else
    let hours := seconds / 3600 in
    let minutes := (seconds mod 3600) / 60 in
    let secs := seconds mod 60 in
    let parts := [] in
    let parts :=
      if hours =? 0 then parts else parts ++ [format_int hours ++ of_string "h"] in
    let parts :=
      if minutes =? 0 then parts else parts ++ [format_int minutes ++ of_string "m"] in
    let parts :=
      if secs =? 0 then parts else parts ++ [format_int secs ++ of_string "s"] in
    to_string (concat parts).

(** The number of seconds a displayed duration stands for: the digits
    before [h], [m] and [s], in that order, each part optional. *)
Definition read_duration (s : str) : Z :=
  let '(h, s1) := Client.component "h" s in
  let '(m, s2) := Client.component "m" s1 in
  let '(sec, _) := Client.component "s" s2 in
  Client.part_value h * 3600 + Client.part_value m * 60 + Client.part_value sec.

(** ** Decimal digits *)

Lemma digit_char_digit d :
  0 <= d < 10 -> is_digit (digit_char d) = true /\ digit_val (digit_char d) = d.
Proof.
  intros H.
  assert (Hd : d = 0 \/ d = 1 \/ d = 2 \/ d = 3 \/ d = 4 \/ d = 5 \/ d = 6 \/ d = 7
               \/ d = 8 \/ d = 9) by lia.
  repeat destruct Hd as [->|Hd]; try subst d; split; reflexivity.
Qed.

Lemma digits_val_app a x y : digits_val a (x ++ y) = digits_val (digits_val a x) y.
Proof. revert a. induction x as [|c x IH]; intros a; simpl; [reflexivity | apply IH]. Qed.

Lemma decimal_digits fuel n acc :
  0 <= n -> (Z.to_nat n < fuel)%nat ->
  exists ds,
    decimal fuel n acc = ds ++ acc
    /\ ds <> [] /\ forallb is_digit ds = true
    /\ forall a, digits_val a ds = a * 10 ^ Z.of_nat (length ds) + n.
Proof.
  revert n acc. induction fuel as [|fuel IH]; intros n acc Hn Hfuel; [lia|].
  cbn [decimal].
  destruct (digit_char_digit (n mod 10)) as [Hdigit Hval];
    [apply Z.mod_pos_bound; lia|].
  destruct (Z.ltb_spec n 10) as [Hsmall|Hbig].
  - exists [digit_char (n mod 10)]. split; [reflexivity|]. split; [discriminate|].
    split; [cbn [forallb]; now rewrite Hdigit|].
    intros a. cbn [digits_val length]. rewrite Hval, Z.mod_small by lia.
    change (10 ^ Z.of_nat 1) with 10. lia.
  - destruct (IH (n / 10) (digit_char (n mod 10) :: acc))
      as (ds & Hds & Hne & Hall & Hvalue).
    { apply Z.div_pos; lia. }
    { assert (n / 10 < n) by (apply Z.div_lt; lia).
      assert (0 <= n / 10) by (apply Z.div_pos; lia). lia. }
    exists (ds ++ [digit_char (n mod 10)]).
    split; [now rewrite Hds, <- app_assoc|].
    split; [now destruct ds|].
    split; [rewrite forallb_app; cbn [forallb]; now rewrite Hall, Hdigit|].
    intros a. rewrite digits_val_app, Hvalue. cbn [digits_val].
    rewrite Hval, length_app, Nat2Z.inj_add, Z.pow_add_r by lia.
    change (10 ^ Z.of_nat (length [digit_char (n mod 10)])) with 10.
    pose proof (Z.div_mod n 10). lia.
Qed.

(** A non-negative number is written with its decimal digits. *)
Lemma format_int_digits n :
  0 <= n ->
  Client.digit_string (format_int n) /\ digits_val 0 (format_int n) = n.
Proof.
  intros Hn. unfold format_int.
  destruct (Z.ltb_spec n 0) as [|_]; [lia|].
  destruct (decimal_digits (S (Z.to_nat n)) n [] Hn) as (ds & Hds & Hne & Hall & Hvalue);
    [lia|].
  rewrite Hds, app_nil_r. split; [now split|]. rewrite Hvalue. lia.
Qed.

(** What [format_int] writes, [int] reads back. *)
Lemma format_int_read_back n : int_of_str (format_int n) = Some n.
Proof.
  destruct (Z.ltb_spec n 0) as [Hneg|Hpos].
  - unfold format_int. rewrite (proj2 (Z.ltb_lt n 0) Hneg).
    destruct (decimal_digits (S (Z.to_nat (- n))) (- n) [])
      as (ds & Hds & Hne & Hall & Hvalue); [lia | lia|].
    rewrite Hds, app_nil_r. unfold int_of_str.
    assert (Hn : forallb (fun c => negb (is_space c)) ("-"%char :: ds) = true).
    { cbn [forallb]. apply andb_true_iff. split; [reflexivity|].
      apply forallb_forall. intros c Hc.
      rewrite (Client.is_digit_not_space c); [reflexivity|].
      now apply (proj1 (forallb_forall _ _) Hall). }
    assert (Hstrip : strip ("-"%char :: ds) = "-"%char :: ds).
    { unfold strip, strip_with, lstrip_with, rstrip_with.
      rewrite (Client.drop_while_none _ _ Hn), Client.drop_while_none,
        rev_involutive; [reflexivity|].
      now rewrite Client.forallb_rev. }
    rewrite Hstrip. replace (ascii_eqb "-" "-") with true by reflexivity.
    rewrite Client.int_body_digits; [|exact Hall | now right].
    cbn [option_map]. rewrite Hvalue. f_equal. lia.
  - destruct (format_int_digits n Hpos) as [Hds Hvalue].
    now rewrite (Client.int_of_digits _ Hds), Hvalue.
Qed.

(** ** Reading a displayed duration *)

(** One part of the display: nothing for 0, else the digits and the
    unit. *)
Lemma part_displayed n unit :
  0 <= n ->
  exists part,
    (if n =? 0 then [] else format_int n ++ [unit]) = Client.part_text part unit
    /\ Client.part_value part = n
    /\ match part with Some ds => Client.digit_string ds | None => True end.
Proof.
  intros Hn. destruct (Z.eqb_spec n 0) as [->|Hne].
  - now exists None.
  - destruct (format_int_digits n Hn) as [Hds Hvalue].
    exists (Some (format_int n)).
    split; [reflexivity|]. split; [exact Hvalue | exact Hds].
Qed.

Lemma read_parts (hours minutes secs : option str) :
  match hours with Some ds => Client.digit_string ds | None => True end ->
  match minutes with Some ds => Client.digit_string ds | None => True end ->
  match secs with Some ds => Client.digit_string ds | None => True end ->
  read_duration (Client.part_text hours "h" ++ Client.part_text minutes "m"
                 ++ Client.part_text secs "s")
  = Client.part_value hours * 3600 + Client.part_value minutes * 60
    + Client.part_value secs.
Proof.
  intros Hh Hm Hs. unfold read_duration.
  destruct hours as [h|], minutes as [m|], secs as [s|];
    cbn [Client.part_text app]; rewrite <- ?app_assoc; cbn [app];
    rewrite ?app_nil_r;
    repeat first
      [ rewrite Client.component_nil
      | rewrite Client.component_hit by (assumption || reflexivity)
      | rewrite Client.component_miss by
          (first [apply Hh | apply Hm | apply Hs | reflexivity | discriminate]) ];
    reflexivity.
Qed.

Lemma format_duration_read_back seconds :
  0 <= seconds -> read_duration (of_string (_format_duration seconds)) = seconds.
Proof.
  intros Hs. unfold _format_duration.
  destruct (Z.eqb_spec seconds 0) as [->|Hne]; [reflexivity|].
  rewrite of_to_string.
  assert (Hh : 0 <= seconds / 3600) by (apply Z.div_pos; lia).
  assert (Hm : 0 <= seconds mod 3600 / 60).
  { apply Z.div_pos; [apply Z.mod_pos_bound|]; lia. }
  assert (Hsec : 0 <= seconds mod 60) by (apply Z.mod_pos_bound; lia).
  destruct (part_displayed (seconds / 3600) "h" Hh) as (ph & Hph & Hvh & Hdh).
  destruct (part_displayed (seconds mod 3600 / 60) "m" Hm) as (pm & Hpm & Hvm & Hdm).
  destruct (part_displayed (seconds mod 60) "s" Hsec) as (ps & Hps & Hvs & Hds).
  assert (Htext : concat
            (((if seconds / 3600 =? 0 then []
               else [] ++ [format_int (seconds / 3600) ++ of_string "h"])
              ++ (if seconds mod 3600 / 60 =? 0 then []
                  else [format_int (seconds mod 3600 / 60) ++ of_string "m"]))
             ++ (if seconds mod 60 =? 0 then []
                 else [format_int (seconds mod 60) ++ of_string "s"]))
          = Client.part_text ph "h" ++ Client.part_text pm "m"
            ++ Client.part_text ps "s").
  { rewrite <- Hph, <- Hpm, <- Hps.
    destruct (seconds / 3600 =? 0), (seconds mod 3600 / 60 =? 0),
      (seconds mod 60 =? 0); cbn [concat app of_string list_ascii_of_string];
      now rewrite ?app_nil_r, <- ?app_assoc. }
  transitivity (read_duration (Client.part_text ph "h" ++ Client.part_text pm "m"
                               ++ Client.part_text ps "s")).
  { f_equal. rewrite <- Htext.
    destruct (seconds / 3600 =? 0), (seconds mod 3600 / 60 =? 0),
      (seconds mod 60 =? 0); reflexivity. }
  rewrite (read_parts ph pm ps Hdh Hdm Hds), Hvh, Hvm, Hvs.
  pose proof (Z.div_mod seconds 3600). pose proof (Z.div_mod (seconds mod 3600) 60).
  assert (Hmod : (seconds mod 3600) mod 60 = seconds mod 60).
  { symmetry. rewrite (Z.div_mod seconds 3600) at 1 by lia.
    replace (3600 * (seconds / 3600) + seconds mod 3600)
      with (seconds mod 3600 + (60 * (seconds / 3600)) * 60) by lia.
    apply Z.mod_add. lia. }
  lia.
Qed.

(** X28.  A duration that is not negative is displayed losslessly: reading
    the digits before h, m and s in the text gives the seconds back, so
    two such durations displayed alike are equal; and the text is never
    empty. *)
Theorem format_duration_lossless (seconds : Z) :
  0 <= seconds ->
  read_duration (of_string (_format_duration seconds)) = seconds
  /\ (forall other, 0 <= other ->
        _format_duration other = _format_duration seconds -> other = seconds)
  /\ _format_duration seconds <> "".
Proof.
  intros Hs. split; [now apply format_duration_read_back|]. split.
  - intros other Ho Heq.
    rewrite <- (format_duration_read_back other Ho), Heq.
    now apply format_duration_read_back.
  - intros Hempty. pose proof (format_duration_read_back seconds Hs) as Hread.
    rewrite Hempty in Hread. cbn in Hread. subst seconds. discriminate Hempty.
Qed.

Lemma format_duration_lossless_witness :
  read_duration (of_string (_format_duration 3725)) = 3725
  /\ (forall other, 0 <= other ->
        _format_duration other = _format_duration 3725 -> other = 3725)
  /\ _format_duration 3725 <> "".
Proof. apply (format_duration_lossless 3725). lia. Defined.

Example format_duration_examples :
  _format_duration 3725 = "1h2m5s" /\ _format_duration 3600 = "1h"
  /\ _format_duration 59 = "59s" /\ _format_duration 0 = "0s"
  /\ _format_duration (-1) = "-1h59m59s".
Proof. repeat split; vm_compute; reflexivity. Qed.

End Display.
